(** * Sudoku engine of sudoku-owl: a shallow embedding and its properties

    The development follows the engine's modules:
    - [validator.ts]  grid primitives ([createEmptyGrid], [isValidPlacement], ...)
    - [solver.ts]     candidate sets and the technique detector
    - [hints.ts]      the hint facade on play-time boards
    - [generator.ts]  complete-grid generation, carving, daily puzzles

    Data model.  A [Grid] is the TypeScript [CellValue[][]]: a list of rows of
    numbers, 0 standing for an empty cell.  Row and column indices are [nat]
    (every index the engine uses is a loop counter in 0..8 or a position taken
    from such a loop), cell values are [Z].

    Out of range.  In JavaScript [grid[r][c]] raises a TypeError when row [r]
    is missing and yields [undefined] when only column [c] is missing, and an
    assignment past the end of a row extends it.  The engine only ever works on
    9x9 grids ([createEmptyGrid], [cloneGrid] of such a grid, [boardToGrid] of
    a 9x9 board), which is the invariant [wf_grid] below; on such grids every
    access of the engine is in range.  The accessors [cell] and [setCell] are
    total ([cell] reads 0 and [setCell] does nothing out of range) and the
    statements that depend on the shape carry [wf_grid]. *)

From Stdlib Require Import ZArith QArith Qround Lia Bool Ascii String.
From stdpp Require Import base list strings pretty.

Local Open Scope Z_scope.
Local Open Scope nat_scope.

(** ** Types ([types/index.ts]) *)

(** [type Grid = CellValue[][]] *)
Abbreviation Grid := (list (list Z)).

(** [type Position = [number, number]] *)
Abbreviation Position := (nat * nat)%type.

Inductive Difficulty := easy | medium | hard.

Inductive TechniqueName :=
  | naked_single
  | hidden_single
  | naked_pair
  | pointing_pair.

Inductive Region := region_row | region_col | region_box.

Record Hint := mkHint {
  technique : TechniqueName;
  description : string;
  targetCell : Position;
  targetValue : Z;
  highlightCells : list Position;
  highlightRegion : option Region
}.

#[global] Instance TechniqueName_eq_dec : EqDecision TechniqueName.
Proof. solve_decision. Defined.

#[global] Instance Difficulty_eq_dec : EqDecision Difficulty.
Proof. solve_decision. Defined.

(** ** Grid primitives ([validator.ts]) *)

Module Validator.

(** [grid[r][c]] *)
Definition cell (g : Grid) (r c : nat) : Z :=
  match g !! r with
  | Some row => match row !! c with Some v => v | None => 0%Z end
  | None => 0%Z
  end.

(** [grid[r][c] = v] *)
Definition setCell (g : Grid) (r c : nat) (v : Z) : Grid :=
  match g !! r with
  | Some row => <[r := <[c := v]> row]> g
  | None => g
  end.

(** [Array(9).fill(null).map(() => Array(9).fill(0))] *)
Definition createEmptyGrid : Grid := replicate 9 (replicate 9 0%Z).

(** [grid.map((row) => [...row])]: a deep copy; values have no identity here,
    so the copy is the same value. *)
Definition cloneGrid (g : Grid) : Grid := map (fun row => row) g.

(** [[Math.floor(row / 3) * 3, Math.floor(col / 3) * 3]] *)
Definition getBoxStart (row col : nat) : nat * nat :=
  (row / 3 * 3, col / 3 * 3).

Definition isValidPlacement (grid : Grid) (row col : nat) (num : Z) : bool :=
  if (num =? 0)%Z then true
  else if existsb (fun c => negb (c =? col) && (cell grid row c =? num)%Z)
                  (seq 0 9)
  then false
  else if existsb (fun r => negb (r =? row) && (cell grid r col =? num)%Z)
                  (seq 0 9)
  then false
  else
    let '(boxStartRow, boxStartCol) := getBoxStart row col in
    if existsb (fun r =>
                  existsb (fun c => (negb (r =? row) || negb (c =? col))
                                    && (cell grid r c =? num)%Z)
                          (seq boxStartCol 3))
               (seq boxStartRow 3)
    then false
    else true.

Definition getRowCells (row : nat) : list Position :=
  map (fun col => (row, col)) (seq 0 9).

Definition getColCells (col : nat) : list Position :=
  map (fun row => (row, col)) (seq 0 9).

Definition getBoxCells (row col : nat) : list Position :=
  let '(boxStartRow, boxStartCol) := getBoxStart row col in
  flat_map (fun r => map (fun c => (r, c)) (seq boxStartCol 3))
           (seq boxStartRow 3).

(** [Set.add] on a set kept in insertion order. *)
Definition set_add (p : Position) (s : list Position) : list Position :=
  if bool_decide (p ∈ s) then s else s ++ [p].

(** The related cells are collected in a [Set<string>] of keys ["r,c"], in the
    order row, column, box, and read back in insertion order. *)
Definition getRelatedCells (row col : nat) : list Position :=
  let s1 := fold_left (fun s c => if c =? col then s else set_add (row, c) s)
                      (seq 0 9) [] in
  let s2 := fold_left (fun s r => if r =? row then s else set_add (r, col) s)
                      (seq 0 9) s1 in
  let '(boxStartRow, boxStartCol) := getBoxStart row col in
  fold_left (fun s r =>
               fold_left (fun s c =>
                            if negb (r =? row) || negb (c =? col)
                            then set_add (r, c) s else s)
                         (seq boxStartCol 3) s)
            (seq boxStartRow 3) s2.

(** *** Shape and Sudoku constraints *)

Definition wf_grid (g : Grid) : Prop :=
  length g = 9 ∧ Forall (fun row => length row = 9) g.

(** Two distinct positions that share a row, a column or a 3x3 box. *)
Definition related (r c r' c' : nat) : Prop :=
  (r ≠ r' ∨ c ≠ c') ∧ (r = r' ∨ c = c' ∨ (r / 3 = r' / 3 ∧ c / 3 = c' / 3)).

(** No two equal non-zero values share a row, a column or a box. *)
Definition no_conflicts (g : Grid) : Prop :=
  ∀ r c r' c', r < 9 → c < 9 → r' < 9 → c' < 9 →
    related r c r' c' → cell g r c ≠ 0%Z → cell g r c ≠ cell g r' c'.

(** Every cell holds a digit 1..9. *)
Definition complete (g : Grid) : Prop :=
  ∀ r c, r < 9 → c < 9 → (1 ≤ cell g r c ≤ 9)%Z.

(** *** Executable checks of the Sudoku constraints *)

Definition all_positions : list Position :=
  flat_map (fun r => map (fun c => (r, c)) (seq 0 9)) (seq 0 9).

Definition completeb (g : Grid) : bool :=
  forallb (fun '(r, c) => (1 <=? cell g r c)%Z && (cell g r c <=? 9)%Z)
          all_positions.

Definition no_conflictsb (g : Grid) : bool :=
  forallb (fun '(r, c) => isValidPlacement g r c (cell g r c)) all_positions.

Definition wf_gridb (g : Grid) : bool :=
  (length g =? 9) && forallb (fun row => length row =? 9) g.

(** A solved grid used as a concrete input: row [r], column [c] holds
    [(3 * (r mod 3) + r / 3 + c) mod 9 + 1]. *)
Definition sample_solution : Grid :=
  map (fun r => map (fun c => Z.of_nat ((3 * (r mod 3) + r / 3 + c) mod 9 + 1))
                    (seq 0 9))
      (seq 0 9).

End Validator.
Import Validator.

Arguments all_positions : simpl never.


(** ** Candidates and the technique detector ([solver.ts]) *)

Module Solver.

(** [type Candidates = Set<number>[][]].  A JavaScript [Set] iterates in
    insertion order, so a set is the list of its members in that order. *)
Abbreviation Candidates := (list (list (list Z))).

(** [candidates[r][c]] *)
Definition cands (cs : Candidates) (r c : nat) : list Z :=
  match cs !! r with
  | Some row => match row !! c with Some s => s | None => [] end
  | None => []
  end.

(** The digits tried by [for (let num = 1; num <= 9; num++)]. *)
Definition digits : list Z := [1; 2; 3; 4; 5; 6; 7; 8; 9]%Z.

(** The first result of a loop that returns from inside its body. *)
Fixpoint first_some {A B} (f : A → option B) (l : list A) : option B :=
  match l with
  | [] => None
  | x :: l' => match f x with Some y => Some y | None => first_some f l' end
  end.

Definition or_else {A} (x : option A) (y : option A) : option A :=
  match x with Some a => Some a | None => y end.

(** Every set starts empty; for an empty cell the valid digits are added in
    the order 1..9. *)
Definition initializeCandidates (grid : Grid) : Candidates :=
  map (fun row =>
         map (fun col =>
                if (cell grid row col =? 0)%Z
                then List.filter (fun num => isValidPlacement grid row col num) digits
                else [])
             (seq 0 9))
      (seq 0 9).

(** [candidates[r][c].delete(num)] for every related cell. *)
Definition eliminateCandidate (candidates : Candidates) (row col : nat) (num : Z)
  : Candidates :=
  fold_left (fun cs '(r, c) =>
               match cs !! r with
               | Some crow =>
                   <[r := <[c := List.filter (fun n => negb (n =? num)%Z) (cands cs r c)]> crow]> cs
               | None => cs
               end)
            (getRelatedCells row col) candidates.

Definition findNakedSingle (grid : Grid) (candidates : Candidates) : option Hint :=
  first_some
    (fun '(row, col) =>
       if (cell grid row col =? 0)%Z then
         match cands candidates row col with
         | [value] =>
             let relatedCells :=
               List.filter (fun '(r, c) => negb (cell grid r c =? 0)%Z)
                           (getRelatedCells row col) in
             Some {| technique := naked_single;
                     description := "Cell can only contain " +:+ pretty value;
                     targetCell := (row, col);
                     targetValue := value;
                     highlightCells := (row, col) :: take 5 relatedCells;
                     highlightRegion := None |}
         | _ => None
         end
       else None)
    all_positions.

(** [candidates[r][c].has(num)] *)
Definition has (s : list Z) (num : Z) : bool := existsb (fun n => (n =? num)%Z) s.

Definition findHiddenSingle (grid : Grid) (candidates : Candidates) : option Hint :=
  first_some
    (fun num =>
       or_else
         (first_some
            (fun row =>
               let possibleCols :=
                 List.filter (fun col => (cell grid row col =? 0)%Z
                                         && has (cands candidates row col) num)
                             (seq 0 9) in
               match possibleCols with
               | [col] =>
                   Some {| technique := hidden_single;
                           description := pretty num +:+ " can only go in one place in this row";
                           targetCell := (row, col);
                           targetValue := num;
                           highlightCells := getRowCells row;
                           highlightRegion := Some region_row |}
               | _ => None
               end)
            (seq 0 9))
      (or_else
         (first_some
            (fun col =>
               let possibleRows :=
                 List.filter (fun row => (cell grid row col =? 0)%Z
                                         && has (cands candidates row col) num)
                             (seq 0 9) in
               match possibleRows with
               | [row] =>
                   Some {| technique := hidden_single;
                           description := pretty num +:+ " can only go in one place in this column";
                           targetCell := (row, col);
                           targetValue := num;
                           highlightCells := getColCells col;
                           highlightRegion := Some region_col |}
               | _ => None
               end)
            (seq 0 9))
         (first_some
            (fun '(boxRow, boxCol) =>
               let startRow := boxRow * 3 in
               let startCol := boxCol * 3 in
               let possibleCells :=
                 List.filter (fun '(r, c) => (cell grid r c =? 0)%Z
                                             && has (cands candidates r c) num)
                             (flat_map (fun r => map (fun c => (r, c)) (seq startCol 3))
                                       (seq startRow 3)) in
               match possibleCells with
               | [(row, col)] =>
                   Some {| technique := hidden_single;
                           description := pretty num +:+ " can only go in one place in this box";
                           targetCell := (row, col);
                           targetValue := num;
                           highlightCells := getBoxCells row col;
                           highlightRegion := Some region_box |}
               | _ => None
               end)
            (flat_map (fun boxRow => map (fun boxCol => (boxRow, boxCol)) (seq 0 3))
                      (seq 0 3)))))
    digits.

(** [Array.prototype.sort()] without a comparator orders the elements by their
    string forms. *)
Fixpoint js_sort_insert (x : Z) (l : list Z) : list Z :=
  match l with
  | [] => [x]
  | y :: l' => if String.ltb (pretty x) (pretty y) then x :: y :: l'
               else y :: js_sort_insert x l'
  end.

Definition js_sort (l : list Z) : list Z := fold_right js_sort_insert [] l.

(** [xs.join(sep)] *)
Definition join (sep : string) (xs : list Z) : string :=
  String.concat sep (map pretty xs).

(** The pairs [(l[i], l[j])] with [i < j], in the order of the two nested
    loops. *)
Fixpoint pairs_of {A} (l : list A) : list (A * A) :=
  match l with
  | [] => []
  | x :: l' => map (fun y => (x, y)) l' ++ pairs_of l'
  end.

Definition nakedPairUnits : list (list Position) :=
  map getRowCells (seq 0 9)
  ++ map getColCells (seq 0 9)
  ++ flat_map (fun boxRow => map (fun boxCol => getBoxCells (boxRow * 3) (boxCol * 3))
                                 (seq 0 3))
              (seq 0 3).

Definition findNakedPair (grid : Grid) (candidates : Candidates) : option Hint :=
  first_some
    (fun unit =>
       let pairCells :=
         List.filter (fun '(r, c) => (cell grid r c =? 0)%Z
                                     && (length (cands candidates r c) =? 2))
                     unit in
       first_some
         (fun '((r1, c1), (r2, c2)) =>
            let cands1 := join "," (js_sort (cands candidates r1 c1)) in
            let cands2 := join "," (js_sort (cands candidates r2 c2)) in
            if String.eqb cands1 cands2 then
              let pairValues := cands candidates r1 c1 in
              let hasElimination :=
                existsb (fun '(r, c) =>
                           (negb (r =? r1) || negb (c =? c1))
                           && (negb (r =? r2) || negb (c =? c2))
                           && (cell grid r c =? 0)%Z
                           && existsb (fun val => has (cands candidates r c) val)
                                      pairValues)
                        unit in
              if hasElimination then
                Some {| technique := naked_pair;
                        description := "These two cells form a naked pair with "
                                       +:+ join " and " pairValues;
                        targetCell := (r1, c1);
                        targetValue := hd 0%Z pairValues;
                        highlightCells := [(r1, c1); (r2, c2)];
                        highlightRegion := None |}
              else None
            else None)
         (pairs_of pairCells))
    nakedPairUnits.

(** [allowedTechniques.includes(t)] *)
Definition includes (allowedTechniques : list TechniqueName) (t : TechniqueName)
  : bool := bool_decide (t ∈ allowedTechniques).

(** The default value of [allowedTechniques]. *)
Definition defaultTechniques : list TechniqueName :=
  [naked_single; hidden_single; naked_pair; pointing_pair].

Definition findNextHint (grid : Grid) (allowedTechniques : list TechniqueName)
  : option Hint :=
  let candidates := initializeCandidates grid in
  match (if includes allowedTechniques naked_single
         then findNakedSingle grid candidates else None) with
  | Some hint => Some hint
  | None =>
    match (if includes allowedTechniques hidden_single
           then findHiddenSingle grid candidates else None) with
    | Some hint => Some hint
    | None =>
      match (if includes allowedTechniques naked_pair
             then findNakedPair grid candidates else None) with
      | Some hint => Some hint
      | None => None
      end
    end
  end.

Record SolveResult := mkSolveResult {
  solved : bool;
  techniques : list TechniqueName
}.

(** The scan for an empty cell at the head of the loop body. *)
Definition isSolved (grid : Grid) : bool :=
  negb (existsb (fun row => existsb (fun col => (cell grid row col =? 0)%Z) (seq 0 9))
                (seq 0 9)).

(** The [while (iterations < maxIterations)] loop; [fuel] is
    [maxIterations - iterations]. *)
Fixpoint solveLoop (fuel : nat) (grid : Grid) (allowedTechniques : list TechniqueName)
    (techniquesUsed : list TechniqueName) : SolveResult :=
  match fuel with
  | 0 => {| solved := false; techniques := techniquesUsed |}
  | S fuel' =>
      if isSolved grid then {| solved := true; techniques := techniquesUsed |}
      else
        match findNextHint grid allowedTechniques with
        | None => {| solved := false; techniques := techniquesUsed |}
        | Some hint =>
            solveLoop fuel'
                      (setCell grid (fst (targetCell hint)) (snd (targetCell hint))
                               (targetValue hint))
                      allowedTechniques
                      (techniquesUsed ++ [technique hint])
        end
  end.

Definition maxIterations : nat := 1000.

Definition solvePuzzleWithTechniques (puzzle : Grid)
    (allowedTechniques : list TechniqueName) : SolveResult :=
  solveLoop maxIterations (cloneGrid puzzle) allowedTechniques [].

Definition getCandidatesForBoard (grid : Grid) : Candidates :=
  initializeCandidates grid.

End Solver.
Import Solver.

Arguments digits : simpl never.

(** ** Technique tables ([constants/techniques.ts]) *)

Module Techniques.

Definition techniqueDifficulty (t : TechniqueName) : nat :=
  match t with
  | naked_single => 1
  | hidden_single => 2
  | naked_pair => 3
  | pointing_pair => 4
  end.

Definition difficultyTechniques (d : Difficulty) : list TechniqueName :=
  match d with
  | easy => [naked_single]
  | medium => [naked_single; hidden_single]
  | hard => [naked_single; hidden_single; naked_pair; pointing_pair]
  end.

End Techniques.
Import Techniques.

(** ** The hint facade ([hints.ts]) and the comparison with the solution

    A play-time board is a value here: a matrix of cell records.  The two
    highlight functions are modelled a second time on a store of objects
    further down, where their effect on the caller's board can be stated. *)

Module Hints.

(** [interface CellState]; the [candidates] set in insertion order. *)
Record CellState := mkCellState {
  value : Z;
  isGiven : bool;
  isError : bool;
  candidates : list Z;
  isHighlighted : bool
}.

(** [type BoardState = CellState[][]] *)
Abbreviation BoardState := (list (list CellState)).

(** [board[r][c]]; boards are 9x9, and a cell that is missing reads as an
    empty, unflagged cell. *)
Definition bcell (board : BoardState) (r c : nat) : CellState :=
  match board !! r with
  | Some row =>
      match row !! c with
      | Some cs => cs
      | None => mkCellState 0 false false [] false
      end
  | None => mkCellState 0 false false [] false
  end.

Definition wf_board (board : BoardState) : Prop :=
  length board = 9 ∧ Forall (fun row => length row = 9) board.

Definition boardToGrid (board : BoardState) : Grid :=
  map (fun row => map (fun cs => value cs) row) board.

Definition getHint (board : BoardState) : option Hint :=
  let grid := boardToGrid board in
  findNextHint grid defaultTechniques.

(** [board.map((row, rowIdx) => row.map((cell, colIdx) => ...))] *)
Definition mapi2 {A B} (f : nat → nat → A → B) (m : list (list A)) : list (list B) :=
  imap (fun rowIdx row => imap (fun colIdx x => f rowIdx colIdx x) row) m.

Definition autoFillCandidates (board : BoardState) : BoardState :=
  let grid := boardToGrid board in
  let cs := getCandidatesForBoard grid in
  mapi2 (fun rowIdx colIdx c =>
           {| value := value c; isGiven := isGiven c; isError := isError c;
              candidates := if (value c =? 0)%Z && negb (isGiven c)
                            then cands cs rowIdx colIdx else [];
              isHighlighted := isHighlighted c |})
        board.

Definition clearAllCandidates (board : BoardState) : BoardState :=
  map (fun row =>
         map (fun c => {| value := value c; isGiven := isGiven c;
                          isError := isError c; candidates := [];
                          isHighlighted := isHighlighted c |})
             row)
      board.

(** [{ ...cell, candidates: new Set(cell.candidates), isHighlighted: false }] *)
Definition unhighlight (c : CellState) : CellState :=
  {| value := value c; isGiven := isGiven c; isError := isError c;
     candidates := candidates c; isHighlighted := false |}.

(** [newBoard[row][col].isHighlighted = true] *)
Definition highlight (board : BoardState) (row col : nat) : BoardState :=
  match board !! row with
  | Some brow =>
      match brow !! col with
      | Some c =>
          <[row := <[col := {| value := value c; isGiven := isGiven c;
                               isError := isError c; candidates := candidates c;
                               isHighlighted := true |}]> brow]> board
      | None => board
      end
  | None => board
  end.

(** The test [row >= 0 && row < 9 && col >= 0 && col < 9]; positions are
    natural numbers, so the two lower bounds hold. *)
Definition applyHintHighlights (board : BoardState) (hint : Hint) : BoardState :=
  let newBoard := map (fun row => map unhighlight row) board in
  fold_left (fun b '(row, col) =>
               if (row <? 9) && (col <? 9) then highlight b row col else b)
            (highlightCells hint) newBoard.

Definition clearHighlights (board : BoardState) : BoardState :=
  map (fun row => map unhighlight row) board.

End Hints.
Import Hints.

(** ** Comparison with the solution ([validator.ts], on boards) *)

Module Checker.

Record CheckResult := mkCheckResult {
  correct : bool;
  errors : list Position
}.

Definition checkAgainstSolution (board : BoardState) (solution : Grid) : CheckResult :=
  let errors :=
    List.filter (fun '(row, col) =>
                   let value := value (bcell board row col) in
                   negb (value =? 0)%Z && negb (value =? cell solution row col)%Z)
                all_positions in
  {| correct := length errors =? 0; errors := errors |}.

Definition isBoardComplete (board : BoardState) : bool :=
  negb (existsb (fun '(row, col) =>
                   (value (bcell board row col) =? 0)%Z
                   || isError (bcell board row col))
                all_positions).

End Checker.
Import Checker.

(** ** Boards: validation ([validator.ts]) and selection highlights ([hints.ts]) *)

Module Board.

(** [board[r][c].field = ...]: the cell at [(r, c)] replaced by [f] of it; a
    board is left as it is when the cell is missing (boards are 9x9, and the
    engine writes at loop counters and related cells only). *)
Definition updCell (board : BoardState) (r c : nat) (f : CellState → CellState)
  : BoardState :=
  match board !! r with
  | Some brow =>
      match brow !! c with
      | Some cs => <[r := <[c := f cs]> brow]> board
      | None => board
      end
  | None => board
  end.

(** [cell.isError = b] *)
Definition withIsError (b : bool) (cs : CellState) : CellState :=
  {| value := value cs; isGiven := isGiven cs; isError := b;
     candidates := candidates cs; isHighlighted := isHighlighted cs |}.

(** [validateBoard]: copy the board, reset the error flags, then flag every
    filled cell and every related cell that holds the same value. *)
Definition validateBoard (board : BoardState) : BoardState :=
  let newBoard := map (fun row => map (fun cs => cs) row) board in
  let newBoard :=
    fold_left (fun b '(row, col) => updCell b row col (withIsError false))
              all_positions newBoard in
  fold_left
    (fun b '(row, col) =>
       let value := value (bcell b row col) in
       if negb (value =? 0)%Z then
         fold_left (fun b '(r, c) =>
                      if (Hints.value (bcell b r c) =? value)%Z
                      then updCell (updCell b row col (withIsError true))
                                   r c (withIsError true)
                      else b)
                   (getRelatedCells row col) b
       else b)
    all_positions newBoard.

(** [Set.delete] on a set kept in insertion order. *)
Definition set_delete (p : Position) (s : list Position) : list Position :=
  List.filter (fun q => negb (bool_decide (q = p))) s.

(** [getRelatedCellsForHighlight]: the keys ["r,c"] of the set are kept as
    positions; [None] is [null]. *)
Definition getRelatedCellsForHighlight (selectedCell : option Position)
  : list Position :=
  match selectedCell with
  | None => []
  | Some (row, col) =>
      let related := fold_left (fun s c => set_add (row, c) s) (seq 0 9) [] in
      let related := fold_left (fun s r => set_add (r, col) s) (seq 0 9) related in
      let boxStartRow := row / 3 * 3 in
      let boxStartCol := col / 3 * 3 in
      let related :=
        fold_left (fun s r =>
                     fold_left (fun s c => set_add (r, c) s) (seq boxStartCol 3) s)
                  (seq boxStartRow 3) related in
      set_delete (row, col) related
  end.

(** [getSameNumberCells] *)
Definition getSameNumberCells (board : BoardState) (selectedCell : option Position)
  : list Position :=
  match selectedCell with
  | None => []
  | Some (row, col) =>
      let value := value (bcell board row col) in
      if (value =? 0)%Z then []
      else
        fold_left (fun s '(r, c) =>
                     if (Hints.value (bcell board r c) =? value)%Z
                        && (negb (r =? row) || negb (c =? col))
                     then set_add (r, c) s else s)
                  all_positions []
  end.

End Board.
Import Board.

(** ** The generator ([generator.ts])

    The generator reads two things of its host: the random source
    [Math.random] and, for the daily puzzle, the [Date] object.  Both are
    taken as a parameter [Host].  What the engine itself owns, the global
    [randomFn] and the closure made by [createSeededRandom], is state of the
    [World] that the functions pass along. *)

Module Generator.

(** The host functions.  [Math_random] returns a number in [0,1) and advances
    the hidden state of the engine's generator.  [newDate y m d] is
    [new Date(y, m, d)]; the getters are those of JavaScript ([getMonth] counts
    from 0, [getDay] is 0 for Sunday, 1 for Monday, ..., 6 for Saturday). *)
Record Host := mkHost {
  MathState : Type;
  Math_random : MathState → Q * MathState;
  DateObj : Type;
  newDate : Z → Z → Z → DateObj;
  getFullYear : DateObj → Z;
  getMonth : DateObj → Z;
  getDate : DateObj → Z;
  getDay : DateObj → Z
}.

(** *** The seeded generator (Mulberry32) *)

(** [ToUint32]: the 32 low bits.  The 32-bit results below are kept as
    unsigned numbers; [^], [|], [>>>] and [Math.imul] only depend on the bits,
    and the one addition is taken modulo 2^32 by the [^=] that follows it. *)
Definition to_uint32 (z : Z) : Z := (z mod 2 ^ 32)%Z.

(** [Math.imul(a, b)] *)
Definition imul (a b : Z) : Z := to_uint32 (a * b).

(** The double nearest to an integer (ties to even).  [seed] is a JavaScript
    number, so [seed += 0x6d2b79f5] is exact only below 2^53. *)
Definition round_double (z : Z) : Z :=
  let a := Z.abs z in
  if (a <? 2 ^ 53)%Z then z
  else
    let e := (Z.log2 a - 52)%Z in
    let q := Z.shiftr a e in
    let rem := (a mod 2 ^ e)%Z in
    let half := (2 ^ (e - 1))%Z in
    let q' := if (rem <? half)%Z then q
              else if (half <? rem)%Z then (q + 1)%Z
              else if Z.even q then q else (q + 1)%Z in
    (Z.sgn z * Z.shiftl q' e)%Z.

(** One call of the closure returned by [createSeededRandom(seed)]: the number
    returned and the new value of the captured [seed]. *)
Definition mulberry32 (seed : Z) : Q * Z :=
  let seed := round_double (seed + 0x6d2b79f5) in
  let t := to_uint32 seed in
  let t := imul (Z.lxor t (Z.shiftr t 15)) (Z.lor t 1) in
  let t := Z.lxor t (to_uint32 (t + imul (Z.lxor t (Z.shiftr t 7)) (Z.lor t 61))) in
  (Qmake (Z.lxor t (Z.shiftr t 14)) (2 ^ 32), seed).

(** *** The world *)

(** The value of the global [randomFn]: [Math.random], or a closure of
    [createSeededRandom] with the current value of its [seed]. *)
Inductive RandomFn :=
  | MathRandomFn
  | SeededFn (seed : Z).

Section WithHost.

Context {host : Host}.

Record World := mkWorld {
  randomFn : RandomFn;
  mathState : MathState host;
  now : DateObj host          (* what [new Date()] returns *)
}.

(** Computations of the generator: they read and write the world, and give no
    result ([None]) when the recursion bound of the model is used up or an
    array is indexed outside its bounds. *)
Definition Gen (A : Type) : Type := World → option (A * World).

Definition ret {A} (a : A) : Gen A := fun w => Some (a, w).

Definition bind {A B} (m : Gen A) (k : A → Gen B) : Gen B :=
  fun w => match m w with
           | Some (a, w') => k a w'
           | None => None
           end.

Definition fail {A} : Gen A := fun _ => None.

Definition lift {A} (o : option A) : Gen A :=
  fun w => match o with Some a => Some (a, w) | None => None end.

End WithHost.

Arguments World : clear implicits.
Arguments Gen : clear implicits.

Declare Scope gen_scope.
Delimit Scope gen_scope with gen.
Notation "x <- m ;; k" := (bind m (fun x => k))
  (at level 100, m at next level, right associativity) : gen_scope.

Section WithHostOps.

Context {host : Host}.
Local Open Scope gen_scope.

Definition setRandomFunction (fn : RandomFn) : Gen host unit :=
  fun w => Some (tt, {| randomFn := fn; mathState := mathState w; now := now w |}).

Definition resetRandomFunction : Gen host unit :=
  fun w => Some (tt, {| randomFn := MathRandomFn; mathState := mathState w;
                        now := now w |}).

(** [randomFn()] *)
Definition callRandomFn : Gen host Q :=
  fun w =>
    match randomFn w with
    | MathRandomFn =>
        let '(x, m) := Math_random host (mathState w) in
        Some (x, {| randomFn := MathRandomFn; mathState := m; now := now w |})
    | SeededFn seed =>
        let '(x, seed') := mulberry32 seed in
        Some (x, {| randomFn := SeededFn seed'; mathState := mathState w;
                    now := now w |})
    end.

(** [[result[i], result[j]] = [result[j], result[i]]]; no result when an index
    is outside the array (JavaScript would store [undefined]). *)
Definition swap {A} (result : list A) (i j : nat) : option (list A) :=
  match result !! i, result !! j with
  | Some a, Some b => Some (<[j := a]> (<[i := b]> result))
  | _, _ => None
  end.

(** The loop [for (let i = result.length - 1; i > 0; i--)], entered with [i].
    [Math.floor(randomFn() * (i + 1))] is computed on rationals: for the seeded
    source the product of a multiple of 2^-32 with a small integer is exact in
    double precision. *)
Fixpoint shuffleLoop {A} (i : nat) (result : list A) : Gen host (list A) :=
  match i with
  | 0 => ret result
  | S i' =>
      x <- callRandomFn ;;
      let j := Z.to_nat (Qfloor (x * inject_Z (Z.of_nat (i + 1)))) in
      result' <- lift (swap result i j) ;;
      shuffleLoop i' result'
  end.

Definition shuffleArray {A} (array : list A) : Gen host (list A) :=
  shuffleLoop (length array - 1) array.

(** *** Filling a grid *)

(** The first empty cell in the scan [for row ... for col ...]. *)
Definition findEmpty (grid : Grid) : option Position :=
  List.find (fun '(row, col) => (cell grid row col =? 0)%Z) all_positions.

(** The loop [for (const num of numbers)] of [fillGrid] at the empty cell
    [(row, col)]; [rec] is the recursive call.  The grid is updated in place,
    so every call returns the grid as it leaves it. *)
Fixpoint tryNumbers (rec : Grid → Gen host (bool * Grid)) (row col : nat)
    (numbers : list Z) (grid : Grid) : Gen host (bool * Grid) :=
  match numbers with
  | [] => ret (false, grid)
  | num :: numbers' =>
      if isValidPlacement grid row col num then
        res <- rec (setCell grid row col num) ;;
        let '(filled, grid) := res in
        if filled : bool then ret (true, grid)
        else tryNumbers rec row col numbers' (setCell grid row col 0%Z)
      else tryNumbers rec row col numbers' grid
  end.

(** [fillGrid]; [fuel] bounds the depth of the recursion. *)
Fixpoint fillGrid (fuel : nat) (grid : Grid) : Gen host (bool * Grid) :=
  match fuel with
  | 0 => fail
  | S fuel' =>
      match findEmpty grid with
      | Some (row, col) =>
          numbers <- shuffleArray digits ;;
          tryNumbers (fillGrid fuel') row col numbers grid
      | None => ret (true, grid)
      end
  end.

(** A grid has 81 cells and every call fills one more: depth at most 82. *)
Definition recursionBound : nat := 82.

Definition generateCompleteGrid : Gen host Grid :=
  res <- fillGrid recursionBound createEmptyGrid ;;
  let '(_, grid) := res in
  ret grid.

(** *** Counting solutions *)

(** The loop [for (let num = 1; num <= 9; num++)] of [countSolutions]; the
    shared counter [count.value] and the grid are passed along. *)
Fixpoint countNumbers (rec : Grid → nat → option (nat * Grid)) (row col : nat)
    (numbers : list Z) (grid : Grid) (count : nat) : option (nat * Grid) :=
  match numbers with
  | [] => Some (count, grid)
  | num :: numbers' =>
      if isValidPlacement grid row col num then
        match rec (setCell grid row col num) count with
        | Some (count, grid) =>
            let grid := setCell grid row col 0%Z in
            if 1 <? count then Some (count, grid)
            else countNumbers rec row col numbers' grid count
        | None => None
        end
      else countNumbers rec row col numbers' grid count
  end.

(** [countSolutions(grid, count)]: the value returned is the final
    [count.value].  [fuel] bounds the depth of the recursion. *)
Fixpoint countSolutions (fuel : nat) (grid : Grid) (count : nat)
  : option (nat * Grid) :=
  match fuel with
  | 0 => None
  | S fuel' =>
      if 1 <? count then Some (count, grid)
      else
        match findEmpty grid with
        | Some (row, col) =>
            countNumbers (countSolutions fuel') row col digits grid count
        | None => Some (count + 1, grid)
        end
  end.

Definition hasUniqueSolution (puzzle : Grid) : option bool :=
  let copy := cloneGrid puzzle in
  match countSolutions recursionBound copy 0 with
  | Some (count, _) => Some (count =? 1)
  | None => None
  end.

(** *** Carving *)

Record ClueRange := mkClueRange { min : nat; max : nat }.

Definition targetClues (difficulty : Difficulty) : ClueRange :=
  match difficulty with
  | easy => {| min := 40; max := 45 |}
  | medium => {| min := 32; max := 38 |}
  | hard => {| min := 26; max := 31 |}
  end.

(** [81 - Math.floor((targetClues.min + targetClues.max) / 2)] *)
Definition targetRemoved (difficulty : Difficulty) : nat :=
  81 - (min (targetClues difficulty) + max (targetClues difficulty)) / 2.

(** The loop [for (const [row, col] of shuffledPositions)]. *)
Fixpoint removeLoop (positions : list Position) (target : nat) (puzzle : Grid)
    (removed : nat) : option (Grid * nat) :=
  match positions with
  | [] => Some (puzzle, removed)
  | (row, col) :: positions' =>
      if target <=? removed then Some (puzzle, removed)
      else
        let value := cell puzzle row col in
        let puzzle := setCell puzzle row col 0%Z in
        match hasUniqueSolution puzzle with
        | Some unique =>
            if negb unique
            then removeLoop positions' target (setCell puzzle row col value) removed
            else removeLoop positions' target puzzle (removed + 1)
        | None => None
        end
  end.

Definition removeCells (solution : Grid) (difficulty : Difficulty)
  : Gen host (Grid * nat) :=
  let puzzle := cloneGrid solution in
  shuffledPositions <- shuffleArray all_positions ;;
  lift (removeLoop shuffledPositions (targetRemoved difficulty) puzzle 0).

Definition verifyDifficulty (puzzle : Grid) (difficulty : Difficulty) : bool :=
  let allowedTechniques := difficultyTechniques difficulty in
  let result := solvePuzzleWithTechniques puzzle allowedTechniques in
  solved result.

Definition maxAttempts : nat := 100.

(** The loop [while (attempts < maxAttempts)], entered with [attempts] and
    [fuel = maxAttempts - attempts]; [None] when the loop ends without a
    [return]. *)
Fixpoint generateAttempts (fuel attempts : nat) (difficulty : Difficulty)
  : Gen host (option (Grid * Grid)) :=
  match fuel with
  | 0 => ret None
  | S fuel' =>
      let attempts := attempts + 1 in
      solution <- generateCompleteGrid ;;
      carved <- removeCells solution difficulty ;;
      let '(puzzle, _) := carved in
      if bool_decide (difficulty = easy) || (10 <? attempts)
      then ret (Some (puzzle, solution))
      else if verifyDifficulty puzzle difficulty
           then ret (Some (puzzle, solution))
           else generateAttempts fuel' attempts difficulty
  end.

(** [generatePuzzle]: the pair [(puzzle, solution)]. *)
Definition generatePuzzle (difficulty : Difficulty) : Gen host (Grid * Grid) :=
  r <- generateAttempts maxAttempts 0 difficulty ;;
  match r with
  | Some ps => ret ps
  | None =>
      solution <- generateCompleteGrid ;;
      carved <- removeCells solution difficulty ;;
      let '(puzzle, _) := carved in
      ret (puzzle, solution)
  end.

Definition countClues (puzzle : Grid) : nat :=
  length (List.filter (fun '(row, col) => negb (cell puzzle row col =? 0)%Z)
                      all_positions).

(** *** The daily puzzle *)

(** [s.split(sep)] for a separator of one character. *)
Fixpoint split_on (sep : ascii) (s : string) : list string :=
  match s with
  | EmptyString => [EmptyString]
  | String ch s' =>
      if Ascii.eqb ch sep then EmptyString :: split_on sep s'
      else match split_on sep s' with
           | seg :: segs => String ch seg :: segs
           | [] => [String ch EmptyString]
           end
  end.

Definition is_digit (ch : ascii) : bool :=
  (48 <=? nat_of_ascii ch) && (nat_of_ascii ch <=? 57).

Fixpoint number_of_digits (s : string) (acc : Z) : option Z :=
  match s with
  | EmptyString => Some acc
  | String ch s' =>
      if is_digit ch
      then number_of_digits s' (10 * acc + Z.of_nat (nat_of_ascii ch - 48))%Z
      else None
  end.

(** [Number(s)] on strings of decimal digits (the empty string is 0).  [None]
    stands for [NaN] and for the numerals this model does not read (signs,
    blanks, fractions, exponents, other bases). *)
Definition Number (s : string) : option Z :=
  match number_of_digits s 0%Z with
  | Some n => Some (round_double n)
  | None => None
  end.

(** [String(n).padStart(2, '0')] *)
Definition padStart2 (s : string) : string :=
  match String.length s with
  | 0 => "00"
  | 1 => "0" +:+ s
  | _ => s
  end.

(** [new Date()] *)
Definition currentDate : Gen host (DateObj host) :=
  fun w => Some (now w, w).

Record DailyPuzzle := mkDailyPuzzle {
  puzzle : Grid;
  solution : Grid;
  difficulty : Difficulty;
  date : string
}.

(** Monday-Tuesday: easy, Wednesday-Thursday: medium, Friday-Sunday: hard. *)
Definition difficultyOfDay (dayOfWeek : Z) : Difficulty :=
  if (dayOfWeek =? 1)%Z || (dayOfWeek =? 2)%Z then easy
  else if (dayOfWeek =? 3)%Z || (dayOfWeek =? 4)%Z then medium
  else hard.

Definition seedOfDate (targetDate : DateObj host) : Z :=
  (getFullYear host targetDate * 10000
   + (getMonth host targetDate + 1) * 100
   + getDate host targetDate)%Z.

(** [generateDailyPuzzle(dateStr?)]; an absent argument and the empty string
    take the branch of today's date.  A date string with a component that is
    missing or not a number gives an invalid [Date], which is not modelled. *)
Definition generateDailyPuzzle (dateStr : option string) : Gen host DailyPuzzle :=
  let today :=
    targetDate <- currentDate ;;
    ret (targetDate,
         pretty (getFullYear host targetDate) +:+ "-"
         +:+ padStart2 (pretty (getMonth host targetDate + 1)%Z) +:+ "-"
         +:+ padStart2 (pretty (getDate host targetDate))) in
  target <- match dateStr with
            | Some EmptyString | None => today
            | Some s =>
                match map Number (split_on "-" s) with
                | Some year :: Some month :: Some day :: _ =>
                    ret (newDate host year (month - 1)%Z day, s)
                | _ => fail
                end
            end ;;
  let '(targetDate, dateString) := target in
  let seed := seedOfDate targetDate in
  let seededRandom := SeededFn seed in
  _ <- setRandomFunction seededRandom ;;
  let dayOfWeek := getDay host targetDate in
  let difficulty := difficultyOfDay dayOfWeek in
  generatedPair <- generatePuzzle difficulty ;;
  let '(puzzle, solution) := generatedPair in
  _ <- resetRandomFunction ;;
  ret {| puzzle := puzzle; solution := solution; difficulty := difficulty;
         date := dateString |}.

End WithHostOps.

End Generator.
Import Generator.

(** ** The highlight functions on a store of objects ([hints.ts])

    To state that [applyHintHighlights] and [clearHighlights] leave the
    caller's board alone, boards are modelled here as JavaScript has them:
    arrays of references to row arrays of references to cell objects, each
    cell holding a reference to its [Set] of candidates.  A store is the list
    of the objects allocated so far, an object's address is its index, and an
    allocation appends to the list. *)

Module ObjectStore.

Inductive Obj :=
  | ObjArray (elems : list nat)
  | ObjSet (members : list Z)
  | ObjCell (value : Z) (isGiven isError : bool) (candidates : nat)
            (isHighlighted : bool).

Abbreviation Store := (list Obj).

(** Computations on the store; [None] is a TypeError (a property of
    [undefined] is read or written). *)
Definition Eff (A : Type) : Type := Store → option (A * Store).

Definition eret {A} (a : A) : Eff A := fun h => Some (a, h).

Definition ebind {A B} (m : Eff A) (k : A → Eff B) : Eff B :=
  fun h => match m h with
           | Some (a, h') => k a h'
           | None => None
           end.

Definition efail {A} : Eff A := fun _ => None.

Declare Scope eff_scope.
Delimit Scope eff_scope with eff.
Notation "x <- m ;; k" := (ebind m (fun x => k))
  (at level 100, m at next level, right associativity) : eff_scope.
Local Open Scope eff_scope.

(** A new object. *)
Definition alloc (o : Obj) : Eff nat := fun h => Some (length h, h ++ [o]).

Definition getArray (l : nat) : Eff (list nat) :=
  fun h => match h !! l with
           | Some (ObjArray elems) => Some (elems, h)
           | _ => None
           end.

Definition getSet (l : nat) : Eff (list Z) :=
  fun h => match h !! l with
           | Some (ObjSet members) => Some (members, h)
           | _ => None
           end.

(** [arr[i]] followed by a property access: a TypeError when the element is
    [undefined]. *)
Definition element (elems : list nat) (i : nat) : Eff nat :=
  match elems !! i with
  | Some l => eret l
  | None => efail
  end.

(** [cell.isHighlighted = b] *)
Definition setIsHighlighted (l : nat) (b : bool) : Eff unit :=
  fun h => match h !! l with
           | Some (ObjCell v g e c _) => Some (tt, <[l := ObjCell v g e c b]> h)
           | _ => None
           end.

(** [arr.map(f)] *)
Fixpoint mapM {A B} (f : A → Eff B) (l : list A) : Eff (list B) :=
  match l with
  | [] => eret []
  | x :: l' => y <- f x ;; ys <- mapM f l' ;; eret (y :: ys)
  end.

(** [for (const x of arr) { f(x) }] *)
Fixpoint forEach {A} (f : A → Eff unit) (l : list A) : Eff unit :=
  match l with
  | [] => eret tt
  | x :: l' => _ <- f x ;; forEach f l'
  end.

(** [{ ...cell, candidates: new Set(cell.candidates), isHighlighted: false }] *)
Definition copyCellUnhighlighted (l : nat) : Eff nat :=
  fun h => match h !! l with
           | Some (ObjCell v g e c _) =>
               (members <- getSet c ;;
                newSet <- alloc (ObjSet members) ;;
                alloc (ObjCell v g e newSet false)) h
           | _ => None
           end.

(** [row.map((cell) => ({ ... }))] *)
Definition copyRowUnhighlighted (row : nat) : Eff nat :=
  cells <- getArray row ;;
  newCells <- mapM copyCellUnhighlighted cells ;;
  alloc (ObjArray newCells).

(** [board.map((row) => row.map((cell) => ({ ... })))] *)
Definition copyBoardUnhighlighted (board : nat) : Eff nat :=
  rows <- getArray board ;;
  newRows <- mapM copyRowUnhighlighted rows ;;
  alloc (ObjArray newRows).

Definition applyHintHighlights (board : nat) (hint : Hint) : Eff nat :=
  newBoard <- copyBoardUnhighlighted board ;;
  _ <- forEach (fun '(row, col) =>
                  if (row <? 9) && (col <? 9) then
                    rows <- getArray newBoard ;;
                    r <- element rows row ;;
                    cells <- getArray r ;;
                    c <- element cells col ;;
                    setIsHighlighted c true
                  else eret tt)
               (highlightCells hint) ;;
  eret newBoard.

Definition clearHighlights (board : nat) : Eff nat :=
  copyBoardUnhighlighted board.

(** *** Reading a board off the store *)

(** The object at [l] is a cell with the state [cs]; the cell and its set of
    candidates are at addresses not below [n]. *)
Definition cell_at (n : nat) (h : Store) (l : nat) (cs : CellState) : Prop :=
  n ≤ l ∧
  ∃ s, n ≤ s ∧
       h !! l = Some (ObjCell (value cs) (isGiven cs) (isError cs) s
                              (isHighlighted cs)) ∧
       h !! s = Some (ObjSet (Hints.candidates cs)).

(** The object at [l] is the array of the cells at [cells]. *)
Definition row_at (n : nat) (h : Store) (l : nat) (cells : list nat) : Prop :=
  n ≤ l ∧ h !! l = Some (ObjArray cells).

(** The object at [board] is a board whose rows are at [rows] and whose cells
    are at [cells], it holds the state [b], and all its objects are at
    addresses not below [n]. *)
Definition board_at (n : nat) (h : Store) (board : nat) (rows : list nat)
    (cells : list (list nat)) (b : BoardState) : Prop :=
  n ≤ board ∧ h !! board = Some (ObjArray rows) ∧
  Forall2 (row_at n h) rows cells ∧
  Forall2 (Forall2 (cell_at n h)) cells b.

End ObjectStore.

(** ** The game store ([store/gameStore.ts])

    The store is a record of state and a set of actions.  An action is a
    function from the state before the call to the state after it; the actions
    that stamp the state take the reading of [Date.now()] as an argument, and
    the two that generate a puzzle run in the generator's world.  An action
    that dereferences a cell outside the board ([board[row][col]] for a
    selection that is not on the board) raises a TypeError: it has no
    result. *)

Module GameStore.

(** [interface Move] *)
Record Move := mkMove {
  row : nat;
  col : nat;
  previousValue : Z;
  previousCandidates : list Z;
  newValue : Z;
  newCandidates : list Z
}.

(** The state part of the store. *)
Record GameState := mkGameState {
  puzzle : option Grid;
  board : option BoardState;
  solution : option Grid;
  difficulty : Difficulty;
  selectedCell : option Position;
  isPencilMode : bool;
  timer : Z;
  isComplete : bool;
  isPaused : bool;
  moveHistory : list Move;
  currentHint : option Hint;
  isDailyChallenge : bool;
  dailyDate : option string;
  lastSaved : option Z
}.

Definition initialState : GameState :=
  {| puzzle := None; board := None; solution := None; difficulty := easy;
     selectedCell := None; isPencilMode := false; timer := 0;
     isComplete := false; isPaused := false; moveHistory := [];
     currentHint := None; isDailyChallenge := false; dailyDate := None;
     lastSaved := None |}.

Definition initializeBoard (puzzle : Grid) : BoardState :=
  mapi2 (fun rowIdx colIdx value =>
           {| value := value; isGiven := negb (value =? 0)%Z; isError := false;
              Hints.candidates := []; isHighlighted := false |})
        puzzle.

(** A cell as [serializeBoard] writes it: the candidates are an array, which
    may be missing in what [deserializeBoard] reads. *)
Record SerializedCell := mkSerializedCell {
  s_value : Z;
  s_isGiven : bool;
  s_isError : bool;
  s_candidates : option (list Z);
  s_isHighlighted : bool
}.

Definition serializeBoard (board : BoardState) : list (list SerializedCell) :=
  map (fun row =>
         map (fun cell =>
                {| s_value := value cell; s_isGiven := isGiven cell;
                   s_isError := isError cell;
                   s_candidates := Some (Hints.candidates cell);
                   s_isHighlighted := isHighlighted cell |})
             row)
      board.

(** [new Set<number>(array)]: the elements in the order of their first
    occurrence. *)
Definition newSet (array : list Z) : list Z :=
  fold_left (fun s x => if has s x then s else s ++ [x]) array [].

Definition deserializeBoard (board : list (list SerializedCell)) : BoardState :=
  map (fun row =>
         map (fun cell =>
                {| value := s_value cell; isGiven := s_isGiven cell;
                   isError := s_isError cell;
                   Hints.candidates :=
                     newSet (match s_candidates cell with
                             | Some array => array
                             | None => []
                             end);
                   isHighlighted := s_isHighlighted cell |})
             row)
      board.

(** [newCandidates.has(num) ? newCandidates.delete(num) : newCandidates.add(num)] *)
Definition toggle (candidates : list Z) (num : Z) : list Z :=
  if has candidates num
  then List.filter (fun n => negb (n =? num)%Z) candidates
  else candidates ++ [num].

(** [board.map((r, ri) => r.map((c, ci) => ri === row && ci === col ? f(c)
    : { ...c, candidates: new Set(c.candidates) }))] *)
Definition mapCell (board : BoardState) (row col : nat)
    (f : CellState → CellState) : BoardState :=
  mapi2 (fun ri ci c => if (ri =? row) && (ci =? col) then f c else c) board.

Definition withCandidates (candidates : list Z) (c : CellState) : CellState :=
  {| value := value c; isGiven := isGiven c; isError := isError c;
     Hints.candidates := candidates; isHighlighted := isHighlighted c |}.

Definition withValue (value : Z) (candidates : list Z) (c : CellState) : CellState :=
  {| value := value; isGiven := isGiven c; isError := isError c;
     Hints.candidates := candidates; isHighlighted := isHighlighted c |}.

Section Actions.

Context {host : Host}.
Local Open Scope gen_scope.

Definition newGame (clock : Z) (difficulty : Difficulty) (s : GameState)
  : Gen host GameState :=
  generatedPair <- generatePuzzle difficulty ;;
  let '(puzzle, solution) := generatedPair in
  let board := initializeBoard puzzle in
  ret {| puzzle := Some puzzle; solution := Some solution; board := Some board;
         difficulty := difficulty; selectedCell := None; isPencilMode := false;
         timer := 0; isComplete := false; isPaused := false; moveHistory := [];
         currentHint := None; isDailyChallenge := false; dailyDate := None;
         lastSaved := Some clock |}.

Definition startDailyChallenge (clock : Z) (dateStr : option string)
    (s : GameState) : Gen host GameState :=
  daily <- generateDailyPuzzle dateStr ;;
  let board := initializeBoard (Generator.puzzle daily) in
  ret {| puzzle := Some (Generator.puzzle daily);
         solution := Some (Generator.solution daily);
         board := Some board;
         difficulty := Generator.difficulty daily;
         selectedCell := None; isPencilMode := false;
         timer := 0; isComplete := false; isPaused := false; moveHistory := [];
         currentHint := None; isDailyChallenge := true;
         dailyDate := Some (date daily);
         lastSaved := Some clock |}.

End Actions.

Definition selectCell (row col : nat) (s : GameState) : GameState :=
  match board s with
  | None => s
  | Some board =>
      match currentHint s with
      | Some _ =>
          {| puzzle := puzzle s; board := Some (clearHighlights board);
             solution := solution s; difficulty := difficulty s;
             selectedCell := Some (row, col); isPencilMode := isPencilMode s;
             timer := timer s; isComplete := isComplete s;
             isPaused := isPaused s; moveHistory := moveHistory s;
             currentHint := None; isDailyChallenge := isDailyChallenge s;
             dailyDate := dailyDate s; lastSaved := lastSaved s |}
      | None =>
          {| puzzle := puzzle s; board := Some board;
             solution := solution s; difficulty := difficulty s;
             selectedCell := Some (row, col); isPencilMode := isPencilMode s;
             timer := timer s; isComplete := isComplete s;
             isPaused := isPaused s; moveHistory := moveHistory s;
             currentHint := currentHint s;
             isDailyChallenge := isDailyChallenge s;
             dailyDate := dailyDate s; lastSaved := lastSaved s |}
      end
  end.

Definition clearSelection (s : GameState) : GameState :=
  {| puzzle := puzzle s; board := board s; solution := solution s;
     difficulty := difficulty s; selectedCell := None;
     isPencilMode := isPencilMode s; timer := timer s;
     isComplete := isComplete s; isPaused := isPaused s;
     moveHistory := moveHistory s; currentHint := currentHint s;
     isDailyChallenge := isDailyChallenge s; dailyDate := dailyDate s;
     lastSaved := lastSaved s |}.

(** [set({ board, moveHistory, isComplete, lastSaved: Date.now() })] *)
Definition setBoard (s : GameState) (newBoard : BoardState)
    (history : list Move) (complete : bool) (clock : Z) : GameState :=
  {| puzzle := puzzle s; board := Some newBoard; solution := solution s;
     difficulty := difficulty s; selectedCell := selectedCell s;
     isPencilMode := isPencilMode s; timer := timer s;
     isComplete := complete; isPaused := isPaused s;
     moveHistory := history; currentHint := currentHint s;
     isDailyChallenge := isDailyChallenge s; dailyDate := dailyDate s;
     lastSaved := Some clock |}.

Definition enterNumber (clock : Z) (num : Z) (s : GameState) : option GameState :=
  match board s, selectedCell s, solution s with
  | Some board, Some (row, col), Some _ =>
      match board !! row with
      | None => None
      | Some brow =>
          match brow !! col with
          | None => None
          | Some cell =>
              if isGiven cell then Some s
              else if isPencilMode s then
                let newCandidates := toggle (Hints.candidates cell) num in
                let newBoard := mapCell board row col (withCandidates newCandidates) in
                Some (setBoard s newBoard (moveHistory s) (isComplete s) clock)
              else
                let isSameNumber := (value cell =? num)%Z in
                let newValue := if isSameNumber then 0%Z else num in
                let move := {| row := row; col := col;
                               previousValue := value cell;
                               previousCandidates := Hints.candidates cell;
                               newValue := newValue;
                               newCandidates := [] |} in
                let newBoard := mapCell board row col (withValue newValue []) in
                let newBoard := validateBoard newBoard in
                let complete := negb (newValue =? 0)%Z && isBoardComplete newBoard in
                Some (setBoard s newBoard (moveHistory s ++ [move]) complete clock)
          end
      end
  | _, _, _ => Some s
  end.

Definition clearCell (clock : Z) (s : GameState) : option GameState :=
  match board s, selectedCell s with
  | Some board, Some (row, col) =>
      match board !! row with
      | None => None
      | Some brow =>
          match brow !! col with
          | None => None
          | Some cell =>
              if isGiven cell then Some s
              else
                let move := {| row := row; col := col;
                               previousValue := value cell;
                               previousCandidates := Hints.candidates cell;
                               newValue := 0%Z;
                               newCandidates := [] |} in
                let newBoard := mapCell board row col (withValue 0%Z []) in
                let newBoard := validateBoard newBoard in
                Some (setBoard s newBoard (moveHistory s ++ [move]) false clock)
          end
      end
  | _, _ => Some s
  end.

Definition togglePencilMode (s : GameState) : GameState :=
  {| puzzle := puzzle s; board := board s; solution := solution s;
     difficulty := difficulty s; selectedCell := selectedCell s;
     isPencilMode := negb (isPencilMode s); timer := timer s;
     isComplete := isComplete s; isPaused := isPaused s;
     moveHistory := moveHistory s; currentHint := currentHint s;
     isDailyChallenge := isDailyChallenge s; dailyDate := dailyDate s;
     lastSaved := lastSaved s |}.

Definition toggleCandidate (clock : Z) (num : Z) (s : GameState)
  : option GameState :=
  match board s, selectedCell s with
  | Some board, Some (row, col) =>
      match board !! row with
      | None => None
      | Some brow =>
          match brow !! col with
          | None => None
          | Some cell =>
              if isGiven cell || negb (value cell =? 0)%Z then Some s
              else
                let newCandidates := toggle (Hints.candidates cell) num in
                let newBoard := mapCell board row col (withCandidates newCandidates) in
                Some (setBoard s newBoard (moveHistory s) (isComplete s) clock)
          end
      end
  | _, _ => Some s
  end.

Definition undo (clock : Z) (s : GameState) : GameState :=
  match board s, last (moveHistory s) with
  | Some board, Some lastMove =>
      let newBoard :=
        mapCell board (row lastMove) (col lastMove)
                (withValue (previousValue lastMove)
                           (newSet (previousCandidates lastMove))) in
      let newBoard := validateBoard newBoard in
      setBoard s newBoard (removelast (moveHistory s)) false clock
  | _, _ => s
  end.

Definition requestHint (s : GameState) : GameState :=
  match board s with
  | None => s
  | Some board =>
      match getHint board with
      | Some hint =>
          {| puzzle := puzzle s;
             board := Some (Hints.applyHintHighlights board hint);
             solution := solution s; difficulty := difficulty s;
             selectedCell := selectedCell s; isPencilMode := isPencilMode s;
             timer := timer s; isComplete := isComplete s;
             isPaused := isPaused s; moveHistory := moveHistory s;
             currentHint := Some hint;
             isDailyChallenge := isDailyChallenge s;
             dailyDate := dailyDate s; lastSaved := lastSaved s |}
      | None => s
      end
  end.

Definition dismissHint (s : GameState) : GameState :=
  match board s with
  | None => s
  | Some board =>
      {| puzzle := puzzle s; board := Some (Hints.clearHighlights board);
         solution := solution s; difficulty := difficulty s;
         selectedCell := selectedCell s; isPencilMode := isPencilMode s;
         timer := timer s; isComplete := isComplete s;
         isPaused := isPaused s; moveHistory := moveHistory s;
         currentHint := None; isDailyChallenge := isDailyChallenge s;
         dailyDate := dailyDate s; lastSaved := lastSaved s |}
  end.

Definition withTimer (s : GameState) (timer : Z) (paused : bool) : GameState :=
  {| puzzle := puzzle s; board := board s; solution := solution s;
     difficulty := difficulty s; selectedCell := selectedCell s;
     isPencilMode := isPencilMode s; timer := timer;
     isComplete := isComplete s; isPaused := paused;
     moveHistory := moveHistory s; currentHint := currentHint s;
     isDailyChallenge := isDailyChallenge s; dailyDate := dailyDate s;
     lastSaved := lastSaved s |}.

Definition tick (s : GameState) : GameState :=
  if negb (isPaused s) && negb (isComplete s)
  then withTimer s (timer s + 1)%Z (isPaused s)
  else s.

Definition pause (s : GameState) : GameState := withTimer s (timer s) true.

Definition resume (s : GameState) : GameState := withTimer s (timer s) false.

Definition reset (clock : Z) (s : GameState) : GameState :=
  match puzzle s with
  | None => s
  | Some puzzle =>
      let board := initializeBoard puzzle in
      {| puzzle := Some puzzle; board := Some board; solution := solution s;
         difficulty := difficulty s; selectedCell := None;
         isPencilMode := false; timer := 0; isComplete := false;
         isPaused := false; moveHistory := []; currentHint := None;
         isDailyChallenge := isDailyChallenge s; dailyDate := dailyDate s;
         lastSaved := Some clock |}
  end.

Definition clearSavedGame (s : GameState) : GameState :=
  {| puzzle := None; board := None; solution := None;
     difficulty := difficulty s; selectedCell := None;
     isPencilMode := false; timer := 0; isComplete := false;
     isPaused := false; moveHistory := []; currentHint := None;
     isDailyChallenge := false; dailyDate := None; lastSaved := None |}.

Definition hasSavedGame (s : GameState) : bool :=
  match board s with
  | Some _ => negb (isComplete s)
  | None => false
  end.

End GameStore.

(** ** Vocabulary of the statements

    Predicates and sample inputs used to state the properties below. *)

(** What every hint of the three detectors has in common: its target is an
    empty cell of the grid and its value is a digit. *)
Definition hint_ok (g : Grid) (h : Hint) : Prop :=
  fst (targetCell h) < 9 ∧ snd (targetCell h) < 9 ∧
  cell g (fst (targetCell h)) (snd (targetCell h)) = 0%Z ∧
  (1 ≤ targetValue h ≤ 9)%Z.

(** The grid [sample_solution] with the cell in row 0, column 0 emptied. *)
Definition one_missing : Grid := setCell sample_solution 0 0 0%Z.

(** The candidate set of a cell, as the detector computes it. *)
Definition candidateSet (g : Grid) (r c : nat) : list Z :=
  cands (initializeCandidates g) r c.

(** An empty cell whose candidate set has exactly one member. *)
Definition single_candidate_cell (g : Grid) (r c : nat) : Prop :=
  cell g r c = 0%Z ∧ length (candidateSet g r c) = 1.

(** [(r', c')] comes before [(r, c)] when the grid is scanned top to bottom
    and, within a row, left to right. *)
Definition row_major_before (r' c' r c : nat) : Prop :=
  r' < r ∨ (r' = r ∧ c' < c).

(** Two cells of [sample_solution] emptied: row 0, column 0 and row 4,
    column 4.  Both are naked singles and both are hidden singles. *)
Definition two_missing : Grid := setCell (setCell sample_solution 0 0 0%Z) 4 4 0%Z.

Definition board_of_grid (g : Grid) : BoardState :=
  map (fun row => map (fun v => mkCellState v (negb (v =? 0)%Z) false [] false) row) g.

(** The empty cells of a grid, in row-major order. *)
Definition emptyCells (g : Grid) : list Position :=
  List.filter (fun '(r, c) => (cell g r c =? 0)%Z) all_positions.

(** The hint written into the working grid by the loop of
    [solvePuzzleWithTechniques]. *)
Definition applyHint (g : Grid) (h : Hint) : Grid :=
  setCell g (fst (targetCell h)) (snd (targetCell h)) (targetValue h).

(** [hint_run allowed g ts g']: starting from [g], the loop body runs
    [length ts] times (the grid has an empty cell, the detector finds a hint,
    the hint is written), uses the techniques [ts] in this order and leaves the
    working grid [g']. *)
Inductive hint_run (allowed : list TechniqueName)
  : Grid → list TechniqueName → Grid → Prop :=
  | hint_run_done g : hint_run allowed g [] g
  | hint_run_step g h ts g' :
      isSolved g = false →
      findNextHint g allowed = Some h →
      hint_run allowed (applyHint g h) ts g' →
      hint_run allowed g (technique h :: ts) g'.

(** Every cell holds 0 or a digit: the values of [CellValue]. *)
Definition digits_only (g : Grid) : Prop :=
  ∀ r c, r < 9 → c < 9 → (0 ≤ cell g r c ≤ 9)%Z.

(** [h] keeps every filled cell of [g]. *)
Definition extends (g h : Grid) : Prop :=
  ∀ r c, r < 9 → c < 9 → cell g r c ≠ 0%Z → cell h r c = cell g r c.

(** [h] is a completion of [g] that satisfies the row, column and box
    constraints. *)
Definition solution_of (g h : Grid) : Prop :=
  wf_grid h ∧ complete h ∧ no_conflicts h ∧ extends g h.

(** A 9x9 grid of cell values without conflicts. *)
Definition partial_ok (g : Grid) : Prop :=
  wf_grid g ∧ digits_only g ∧ no_conflicts g.

(** The exhaustive search of [countSolutions] and [fillGrid] without the
    counter and without the early exits: all the grids the search reaches with
    no empty cell left, digits tried in the order 1..9. *)
Fixpoint allSolutions (fuel : nat) (g : Grid) : list Grid :=
  match fuel with
  | 0 => []
  | S fuel' =>
      match findEmpty g with
      | Some (row, col) =>
          flat_map (fun num => if isValidPlacement g row col num
                               then allSolutions fuel' (setCell g row col num)
                               else [])
                   digits
      | None => [g]
      end
  end.

(** A number of the interval [0,1). *)
Definition in_unit_interval (x : Q) : Prop := (0 <= x)%Q ∧ (x < 1)%Q.

(** Every number the current random source can return lies in [0,1): this is
    what [Math.random] promises, and it holds of the seeded generator. *)
Definition draws_in_range {host : Host} (w : World host) : Prop :=
  match randomFn w with
  | SeededFn _ => True
  | MathRandomFn => ∀ m, in_unit_interval (fst (Math_random host m))
  end.

(** The puzzle has exactly one completion, and it is [solution]. *)
Definition unique_solution (puzzle solution : Grid) : Prop :=
  solution_of puzzle solution ∧ ∀ h, solution_of puzzle h → h = solution.

(** What [removeCells] keeps true of the grid it carves: it is a 9x9 grid that
    agrees with the complete valid grid [solution] on its filled cells, its
    only completion is [solution], and every missing clue was counted. *)
Definition carved (solution puzzle : Grid) (removed : nat) : Prop :=
  wf_grid puzzle ∧ wf_grid solution ∧ complete solution ∧ no_conflicts solution ∧
  extends puzzle solution ∧ unique_solution puzzle solution ∧
  81 ≤ countClues puzzle + removed.

(** What is known of a pair returned by [generatePuzzle]. *)
Definition generated (difficulty : Difficulty) (puzzle solution : Grid) : Prop :=
  ∃ removed, carved solution puzzle removed ∧ removed ≤ targetRemoved difficulty.


Definition all_digits (s : string) : bool :=
  forallb is_digit (list_ascii_of_string s).

(** A date string in the form YYYY-MM-DD: four, two and two decimal digits
    joined by dashes. *)
Definition is_date_form (s : string) : Prop :=
  ∃ ys ms ds,
    s = ys +:+ "-" +:+ ms +:+ "-" +:+ ds ∧
    all_digits ys = true ∧ String.length ys = 4 ∧
    all_digits ms = true ∧ String.length ms = 2 ∧
    all_digits ds = true ∧ String.length ds = 2.

(** The same world with another current random function. *)
Definition with_randomFn {host : Host} (fn : RandomFn) (w : World host) : World host :=
  {| randomFn := fn; mathState := mathState w; now := now w |}.

(** *** A sample host

    [Math.random] is played by a Mulberry32 generator, a [Date] is the number
    of days since 1970-01-01 in the proleptic Gregorian calendar (the local
    time zone being UTC), and years 0..99 are read as 1900..1999, as
    [new Date(y, m, d)] does. *)

Definition days_from_civil (y m d : Z) : Z :=
  let y := if (m <=? 2)%Z then (y - 1)%Z else y in
  let era := (y / 400)%Z in
  let yoe := (y - era * 400)%Z in
  let doy := ((153 * (m + (if (2 <? m)%Z then -3 else 9)) + 2) / 5 + d - 1)%Z in
  let doe := (yoe * 365 + yoe / 4 - yoe / 100 + doy)%Z in
  (era * 146097 + doe - 719468)%Z.

Definition civil_from_days (z : Z) : Z * Z * Z :=
  let z := (z + 719468)%Z in
  let era := (z / 146097)%Z in
  let doe := (z - era * 146097)%Z in
  let yoe := ((doe - doe / 1460 + doe / 36524 - doe / 146096) / 365)%Z in
  let y := (yoe + era * 400)%Z in
  let doy := (doe - (365 * yoe + yoe / 4 - yoe / 100))%Z in
  let mp := ((5 * doy + 2) / 153)%Z in
  let d := (doy - (153 * mp + 2) / 5 + 1)%Z in
  let m := if (mp <? 10)%Z then (mp + 3)%Z else (mp - 9)%Z in
  ((if (m <=? 2)%Z then y + 1 else y)%Z, m, d).

Definition sample_newDate (year monthIndex day : Z) : Z :=
  let year := if (0 <=? year)%Z && (year <=? 99)%Z then (1900 + year)%Z else year in
  let ym := (year + monthIndex / 12)%Z in
  let mn := (monthIndex mod 12)%Z in
  (days_from_civil ym (mn + 1) 1 + day - 1)%Z.

Definition sample_host : Host :=
  {| MathState := Z;
     Math_random := mulberry32;
     DateObj := Z;
     newDate := sample_newDate;
     getFullYear := fun t => fst (fst (civil_from_days t));
     getMonth := fun t => (snd (fst (civil_from_days t)) - 1)%Z;
     getDate := fun t => snd (civil_from_days t);
     getDay := fun t => ((t + 4) mod 7)%Z |}.

Definition sample_world : World sample_host :=
  @mkWorld sample_host MathRandomFn 20240315%Z (sample_newDate 2024 2 15).

(** The least number of clues the carve step can leave. *)
Definition leastClues (difficulty : Difficulty) : nat :=
  match difficulty with
  | easy => 42
  | medium => 35
  | hard => 28
  end.

(** [c] only uses the world through a seeded random function: run from two
    worlds whose [randomFn] is the same seeded closure, it returns the same
    value, leaves the same closure, and touches nothing else. *)
Definition seeded_frame {host : Host} {A} (c : Gen host A) : Prop :=
  ∀ seed (w1 w2 : World host),
    randomFn w1 = SeededFn seed → randomFn w2 = SeededFn seed →
    match c w1, c w2 with
    | Some (a1, w1'), Some (a2, w2') =>
        a1 = a2 ∧
        (∃ seed', randomFn w1' = SeededFn seed' ∧ randomFn w2' = SeededFn seed') ∧
        mathState w1' = mathState w1 ∧ now w1' = now w1 ∧
        mathState w2' = mathState w2 ∧ now w2' = now w2
    | None, None => True
    | _, _ => False
    end.

(** Another world of the sample host: the random function is a seeded closure
    left by an earlier caller, [Math.random] is in another state and the
    clock shows another day. *)
Definition other_sample_world : World sample_host :=
  @mkWorld sample_host (SeededFn 7) 99%Z (sample_newDate 1999 11 31).

(** Two cell states with the same value, flags [isGiven] and [isError], and
    candidates. *)
Definition same_data (cs cs' : CellState) : Prop :=
  value cs = value cs' ∧ isGiven cs = isGiven cs' ∧ isError cs = isError cs' ∧
  Hints.candidates cs = Hints.candidates cs'.

(** A board whose 81 cells are empty and highlighted, and a hint that names
    the cell in row 1, column 1 only. *)
Definition lit_cell : CellState := mkCellState 0 false false [] true.

Definition lit_board : BoardState := replicate 9 (replicate 9 lit_cell).

Definition center_hint : Hint :=
  {| technique := naked_single; description := "Cell can only contain 5";
     targetCell := (1, 1); targetValue := 5;
     highlightCells := [(1, 1)]; highlightRegion := None |}.

(** A store that holds [lit_board] with as much sharing as a store allows:
    one set, one cell object referenced 9 times by one row array, which the
    board array references 9 times. *)
Definition shared_store : ObjectStore.Store :=
  [ObjectStore.ObjSet [];
   ObjectStore.ObjCell 0 false false 0 true;
   ObjectStore.ObjArray (replicate 9 1);
   ObjectStore.ObjArray (replicate 9 2)].

(** [related] as a test. *)
Definition relatedb (r c r' c' : nat) : bool :=
  (negb (r =? r') || negb (c =? c'))
  && ((r =? r') || (c =? c') || ((r / 3 =? r' / 3) && (c / 3 =? c' / 3))).

(** The cell at [(r, c)] of the board is filled and a related cell holds the
    same value. *)
Definition in_conflict (board : BoardState) (r c : nat) : Prop :=
  value (bcell board r c) ≠ 0%Z ∧
  ∃ r' c', r' < 9 ∧ c' < 9 ∧ related r c r' c' ∧
           value (bcell board r' c') = value (bcell board r c).

(** The list [getRelatedCells row col] checked against [related]: its members
    are related cells of the grid, every related cell of the grid is a member,
    no member is repeated and there are 20 of them. *)
Definition relatedCells_ok (row col : nat) (l : list Position) : bool :=
  forallb (fun '(r, c) => (r <? 9) && (c <? 9) && relatedb row col r c) l
  && forallb (fun '(r, c) => implb (relatedb row col r c) (bool_decide ((r, c) ∈ l)))
             all_positions
  && bool_decide (NoDup l)
  && (length l =? 20).

(** Two boards of the same shape whose cells differ in the flag [isError] at
    most. *)
Definition keeps (b b' : BoardState) : Prop :=
  wf_board b' ∧
  ∀ r c, r < 9 → c < 9 →
    value (bcell b' r c) = value (bcell b r c) ∧
    isGiven (bcell b' r c) = isGiven (bcell b r c) ∧
    Hints.candidates (bcell b' r c) = Hints.candidates (bcell b r c) ∧
    isHighlighted (bcell b' r c) = isHighlighted (bcell b r c).

(** A board with two 5s in row 0 (columns 0 and 1) and nothing else. *)
Definition clash_board : BoardState :=
  updCell (updCell (board_of_grid createEmptyGrid) 0 0
                   (fun cs => mkCellState 5 false false [] false))
          0 1 (fun cs => mkCellState 5 false false [] false).

(** [wf_board] as a test. *)
Definition wf_boardb (b : BoardState) : bool :=
  (length b =? 9) && forallb (fun row => length row =? 9) b.

(** Nine cells of the grid, any two of which are related: a row, a column or
    a box. *)
Definition is_unit (unit : list Position) : Prop :=
  length unit = 9 ∧ NoDup unit ∧
  (∀ r c, In (r, c) unit → r < 9 ∧ c < 9) ∧
  (∀ r c r' c', In (r, c) unit → In (r', c') unit →
                (r, c) = (r', c') ∨ related r c r' c').

(** [is_unit] as a test. *)
Definition unitb (unit : list Position) : bool :=
  (length unit =? 9) && bool_decide (NoDup unit)
  && forallb (fun '(r, c) => (r <? 9) && (c <? 9)) unit
  && forallb (fun '(r, c) =>
                forallb (fun '(r', c') =>
                           bool_decide ((r, c) = (r', c')) || relatedb r c r' c')
                        unit)
             unit.

(** The cells of the box that starts at [(startRow, startCol)], in the order
    of the two loops of [findHiddenSingle]. *)
Definition boxAt (startRow startCol : nat) : list Position :=
  flat_map (fun r => map (fun c => (r, c)) (seq startCol 3)) (seq startRow 3).

(** [extends] as a test. *)
Definition extendsb (g h : Grid) : bool :=
  forallb (fun '(r, c) => (cell g r c =? 0)%Z || (cell h r c =? cell g r c)%Z)
          all_positions.

(** The hint for [one_missing]. *)
Definition corner_hint : Hint :=
  {| technique := naked_single;
     description := "Cell can only contain 1";
     targetCell := (0, 0);
     targetValue := 1;
     highlightCells := [(0, 0); (0, 1); (0, 2); (0, 3); (0, 4); (0, 5)];
     highlightRegion := None |}.

(** The order of the difficulty levels. *)
Definition difficultyRank (d : Difficulty) : nat :=
  match d with easy => 1 | medium => 2 | hard => 3 end.

(** *** Vocabulary for the game store *)

(** A call of one of the store's actions on a running game. *)
Inductive Action :=
  | SelectCell (row col : nat)
  | ClearSelection
  | EnterNumber (num : Z)
  | ClearCell
  | TogglePencilMode
  | ToggleCandidate (num : Z)
  | Undo
  | RequestHint
  | DismissHint
  | Tick
  | Pause
  | Resume
  | Reset.

(** The state after the call, [clock] being what [Date.now()] returns during
    it; no state when the call raises. *)
Definition act (clock : Z) (a : Action) (s : GameStore.GameState)
  : option GameStore.GameState :=
  match a with
  | SelectCell row col => Some (GameStore.selectCell row col s)
  | ClearSelection => Some (GameStore.clearSelection s)
  | EnterNumber num => GameStore.enterNumber clock num s
  | ClearCell => GameStore.clearCell clock s
  | TogglePencilMode => Some (GameStore.togglePencilMode s)
  | ToggleCandidate num => GameStore.toggleCandidate clock num s
  | Undo => Some (GameStore.undo clock s)
  | RequestHint => Some (GameStore.requestHint s)
  | DismissHint => Some (GameStore.dismissHint s)
  | Tick => Some (GameStore.tick s)
  | Pause => Some (GameStore.pause s)
  | Resume => Some (GameStore.resume s)
  | Reset => Some (GameStore.reset clock s)
  end.

(** A sequence of calls, each with its clock reading. *)
Fixpoint play (calls : list (Z * Action)) (s : GameStore.GameState)
  : option GameStore.GameState :=
  match calls with
  | [] => Some s
  | (clock, a) :: calls' =>
      match act clock a s with
      | Some s' => play calls' s'
      | None => None
      end
  end.

(** The calls the screens make: the grid selects one of its 81 cells, the
    number pad sends a digit 1..9. *)
Definition from_ui (a : Action) : Prop :=
  match a with
  | SelectCell row col => row < 9 ∧ col < 9
  | EnterNumber num | ToggleCandidate num => (1 ≤ num ≤ 9)%Z
  | _ => True
  end.

(** A game in progress: the puzzle with its only solution and a 9x9 board on
    which the givens are the clues of the puzzle, the values are 0..9, the
    error flags mark the conflicts, the pencil marks are sets; the moves of
    the history are moves on cells that are not givens, the selection is on
    the board, and a game marked complete shows the solution. *)
Definition game_inv (s : GameStore.GameState) : Prop :=
  ∃ puzzle board solution,
    GameStore.puzzle s = Some puzzle ∧ GameStore.board s = Some board ∧
    GameStore.solution s = Some solution ∧
    wf_grid puzzle ∧ unique_solution puzzle solution ∧ wf_board board ∧
    (∀ r c, r < 9 → c < 9 →
       isGiven (bcell board r c) = negb (cell puzzle r c =? 0)%Z ∧
       (cell puzzle r c ≠ 0%Z → value (bcell board r c) = cell puzzle r c) ∧
       (0 ≤ value (bcell board r c) ≤ 9)%Z ∧
       (isError (bcell board r c) = true ↔ in_conflict board r c) ∧
       NoDup (Hints.candidates (bcell board r c))) ∧
    (∀ m, m ∈ GameStore.moveHistory s →
          GameStore.row m < 9 ∧ GameStore.col m < 9 ∧
          cell puzzle (GameStore.row m) (GameStore.col m) = 0%Z ∧
          (0 ≤ GameStore.previousValue m ≤ 9)%Z) ∧
    (∀ r c, GameStore.selectedCell s = Some (r, c) → r < 9 ∧ c < 9) ∧
    (GameStore.isComplete s = true → boardToGrid board = solution).

(** The state right after a game on [puzzle] has been started. *)
Definition fresh_game (puzzle solution : Grid) (difficulty : Difficulty)
    (daily : option string) (clock : Z) : GameStore.GameState :=
  {| GameStore.puzzle := Some puzzle;
     GameStore.board := Some (GameStore.initializeBoard puzzle);
     GameStore.solution := Some solution;
     GameStore.difficulty := difficulty;
     GameStore.selectedCell := None;
     GameStore.isPencilMode := false;
     GameStore.timer := 0;
     GameStore.isComplete := false;
     GameStore.isPaused := false;
     GameStore.moveHistory := [];
     GameStore.currentHint := None;
     GameStore.isDailyChallenge := bool_decide (daily ≠ None);
     GameStore.dailyDate := daily;
     GameStore.lastSaved := Some clock |}.

(** A game on [two_missing], and the same game with the empty cell in row 4,
    column 4 selected. *)
Definition sample_game : GameStore.GameState :=
  fresh_game two_missing sample_solution easy None 0.

Definition sample_game_selected : GameStore.GameState :=
  GameStore.selectCell 4 4 sample_game.

(** Every pencil-mark list of the board is a set. *)
Definition candidates_are_sets (board : BoardState) : Prop :=
  Forall (Forall (fun c => NoDup (Hints.candidates c))) board.

(** A board with pencil marks: the marks of [autoFillCandidates] on the board
    of [two_missing]. *)
Definition marked_board : BoardState :=
  autoFillCandidates (board_of_grid two_missing).

(** ** Properties of the grid primitives *)

Section GridLemmas.

Lemma box_range (r r' : nat) :
  r / 3 * 3 ≤ r' < r / 3 * 3 + 3 ↔ r / 3 = r' / 3.
Proof.
  pose proof (Nat.div_mod_eq r 3). pose proof (Nat.div_mod_eq r' 3).
  pose proof (Nat.mod_upper_bound r 3). pose proof (Nat.mod_upper_bound r' 3).
  lia.
Qed.

Lemma existsb_false {A} (f : A → bool) (l : list A) :
  existsb f l = false ↔ ∀ x, In x l → f x = false.
Proof.
  induction l as [|a l IH]; simpl.
  - split; [intros _ x [] | reflexivity].
  - rewrite orb_false_iff, IH. split.
    + intros [Ha Hl] x [<-|Hx]; auto.
    + intros H. split; [apply H; now left | intros x Hx; apply H; now right].
Qed.

Lemma cell_setCell_eq (g : Grid) r c v :
  wf_grid g → r < 9 → c < 9 → cell (setCell g r c v) r c = v.
Proof.
  intros [Hlen Hrows] Hr Hc. unfold cell, setCell.
  destruct (g !! r) as [row|] eqn:Hrow.
  - rewrite list_lookup_insert_eq by lia.
    rewrite list_lookup_insert_eq; [done|].
    rewrite Forall_forall in Hrows. rewrite (Hrows row); [lia|].
    apply list_elem_of_lookup. eauto.
  - apply lookup_ge_None in Hrow. lia.
Qed.

Lemma cell_setCell_ne (g : Grid) r c v r' c' :
  r ≠ r' ∨ c ≠ c' → cell (setCell g r c v) r' c' = cell g r' c'.
Proof.
  intros Hne. unfold cell, setCell.
  destruct (g !! r) as [row|] eqn:Hrow; [|done].
  destruct (decide (r = r')) as [<-|Hr].
  - rewrite list_lookup_insert_eq by (eapply lookup_lt_Some; eauto).
    rewrite Hrow. rewrite list_lookup_insert_ne by (destruct Hne; congruence).
    done.
  - by rewrite list_lookup_insert_ne.
Qed.

Lemma wf_setCell (g : Grid) r c v : wf_grid g → wf_grid (setCell g r c v).
Proof.
  intros [Hlen Hrows]. unfold setCell.
  destruct (g !! r) as [row|] eqn:Hrow; [|done].
  split; [by rewrite length_insert|].
  apply Forall_insert; [done|]. rewrite length_insert.
  rewrite Forall_forall in Hrows. apply Hrows.
  apply list_elem_of_lookup. eauto.
Qed.

Lemma setCell_cell_id (g : Grid) r c : setCell g r c (cell g r c) = g.
Proof.
  unfold setCell, cell. destruct (g !! r) as [row|] eqn:Hrow; [|done].
  destruct (row !! c) as [v|] eqn:Hv.
  - rewrite (list_insert_id row c v Hv). by apply list_insert_id.
  - apply lookup_ge_None in Hv. rewrite (list_insert_ge row c) by done.
    by apply list_insert_id.
Qed.

Lemma setCell_setCell (g : Grid) r c v w :
  setCell (setCell g r c v) r c w = setCell g r c w.
Proof.
  unfold setCell. destruct (g !! r) as [row|] eqn:Hrow.
  - rewrite list_lookup_insert_eq by (eapply lookup_lt_Some; eauto).
    rewrite list_insert_insert_eq. f_equal. apply list_insert_insert_eq.
  - by rewrite Hrow.
Qed.

Lemma wf_createEmptyGrid : wf_grid createEmptyGrid.
Proof. split; [done|]. repeat constructor. Qed.

Lemma cell_createEmptyGrid r c : cell createEmptyGrid r c = 0%Z.
Proof.
  unfold cell, createEmptyGrid.
  destruct (replicate 9 (replicate 9 0%Z) !! r) as [row|] eqn:Hrow; [|done].
  apply lookup_replicate in Hrow as [-> _].
  destruct (replicate 9 0%Z !! c) as [v|] eqn:Hv; [|done].
  by apply lookup_replicate in Hv as [-> _].
Qed.

Lemma cloneGrid_id (g : Grid) : cloneGrid g = g.
Proof. unfold cloneGrid. apply map_id. Qed.

(** Two 9x9 grids with the same cells are equal. *)
Lemma grid_ext (g h : Grid) :
  wf_grid g → wf_grid h →
  (∀ r c, r < 9 → c < 9 → cell g r c = cell h r c) → g = h.
Proof.
  intros [Hg Hgr] [Hh Hhr] Hcell.
  apply list_eq_same_length with 9; [done..|].
  intros r x y Hr Hx Hy.
  rewrite Forall_forall in Hgr, Hhr.
  assert (length x = 9) by (apply Hgr, list_elem_of_lookup; eauto).
  assert (length y = 9) by (apply Hhr, list_elem_of_lookup; eauto).
  apply list_eq_same_length with 9; [done..|].
  intros c a b Hc Ha Hb.
  specialize (Hcell r c Hr Hc). unfold cell in Hcell.
  by rewrite Hx, Hy, Ha, Hb in Hcell.
Qed.

(** [isValidPlacement] decides exactly that no related cell holds [num]. *)
Lemma isValidPlacement_spec (g : Grid) r c num :
  r < 9 → c < 9 →
  isValidPlacement g r c num = true ↔
  (num = 0%Z ∨ ∀ r' c', r' < 9 → c' < 9 → related r c r' c' → cell g r' c' ≠ num).
Proof.
  intros Hr Hc. unfold isValidPlacement, getBoxStart.
  destruct (Z.eqb_spec num 0) as [->|Hnum]; [by intuition|].
  destruct (existsb _ (seq 0 9)) eqn:Hrow at 1.
  { split; [done|]. intros [?|H]; [done|]. exfalso.
    apply existsb_exists in Hrow as (c' & Hin & Hc').
    apply in_seq in Hin. apply andb_prop in Hc' as [Hne Heq].
    apply negb_true_iff, Nat.eqb_neq in Hne. apply Z.eqb_eq in Heq.
    apply (H r c'); [lia..| |done]. split; auto. }
  destruct (existsb _ (seq 0 9)) eqn:Hcol at 1.
  { split; [done|]. intros [?|H]; [done|]. exfalso.
    apply existsb_exists in Hcol as (r' & Hin & Hr').
    apply in_seq in Hin. apply andb_prop in Hr' as [Hne Heq].
    apply negb_true_iff, Nat.eqb_neq in Hne. apply Z.eqb_eq in Heq.
    apply (H r' c); [lia..| |done]. split; auto. }
  destruct (existsb _ (seq (r / 3 * 3) 3)) eqn:Hbox.
  { split; [done|]. intros [?|H]; [done|]. exfalso.
    apply existsb_exists in Hbox as (r' & Hin & Hr').
    apply existsb_exists in Hr' as (c' & Hin' & Hc').
    apply in_seq in Hin, Hin'. apply andb_prop in Hc' as [Hne Heq].
    apply Z.eqb_eq in Heq.
    assert (r / 3 = r' / 3) by (apply box_range; lia).
    assert (c / 3 = c' / 3) by (apply box_range; lia).
    pose proof (Nat.div_mod_eq r' 3). pose proof (Nat.mod_upper_bound r' 3).
    pose proof (Nat.div_mod_eq c' 3). pose proof (Nat.mod_upper_bound c' 3).
    pose proof (Nat.Div0.div_lt_upper_bound r 3 3).
    pose proof (Nat.Div0.div_lt_upper_bound c 3 3).
    apply (H r' c'); [lia..| |done]. split; [|auto].
    apply orb_prop in Hne as [Hne|Hne];
      apply negb_true_iff, Nat.eqb_neq in Hne; auto. }
  split; [|done]. intros _. right. intros r' c' Hr' Hc' [Hne Hrel] Heq.
  rewrite existsb_false in Hrow, Hcol, Hbox.
  destruct Hrel as [<-|[<-|[Hbr Hbc]]].
  - specialize (Hrow c'). rewrite in_seq in Hrow.
    rewrite andb_false_iff, negb_false_iff, Nat.eqb_eq, Z.eqb_neq in Hrow.
    destruct Hrow; [lia| |]; intuition congruence.
  - specialize (Hcol r'). rewrite in_seq in Hcol.
    rewrite andb_false_iff, negb_false_iff, Nat.eqb_eq, Z.eqb_neq in Hcol.
    destruct Hcol; [lia| |]; intuition congruence.
  - specialize (Hbox r'). rewrite in_seq in Hbox.
    rewrite existsb_false in Hbox.
    assert (Hin : r / 3 * 3 ≤ r' < r / 3 * 3 + 3) by (apply box_range; lia).
    specialize (Hbox Hin c'). rewrite in_seq in Hbox.
    assert (Hin' : c / 3 * 3 ≤ c' < c / 3 * 3 + 3) by (apply box_range; lia).
    specialize (Hbox Hin').
    rewrite andb_false_iff, orb_false_iff, !negb_false_iff, !Nat.eqb_eq,
      Z.eqb_neq in Hbox.
    destruct Hbox as [[-> ->]|]; [lia|done].
Qed.

End GridLemmas.

(** *** The executable checks decide the constraints *)

Lemma in_all_positions r c : In (r, c) all_positions ↔ r < 9 ∧ c < 9.
Proof.
  unfold all_positions. rewrite in_flat_map. split.
  - intros (r' & Hr' & Hin). apply in_map_iff in Hin as (c' & [= <- <-] & Hc').
    apply in_seq in Hr', Hc'. lia.
  - intros [Hr Hc]. exists r. split; [apply in_seq; lia|].
    apply in_map_iff. exists c. split; [done|apply in_seq; lia].
Qed.

Lemma NoDup_all_positions : NoDup all_positions.
Proof. apply (bool_decide_unpack (NoDup all_positions)). vm_compute. exact I. Qed.

Lemma completeb_true (g : Grid) : completeb g = true ↔ complete g.
Proof.
  unfold completeb, complete. rewrite forallb_forall. split.
  - intros H r c Hr Hc.
    assert (Hin : In (r, c) all_positions) by (apply in_all_positions; lia).
    apply H in Hin. lia.
  - intros H [r c] Hin. apply in_all_positions in Hin as [Hr Hc].
    specialize (H r c Hr Hc). lia.
Qed.

Lemma no_conflictsb_true (g : Grid) : no_conflictsb g = true ↔ no_conflicts g.
Proof.
  unfold no_conflictsb, no_conflicts. rewrite forallb_forall. split.
  - intros H r c r' c' Hr Hc Hr' Hc' Hrel Hnz Heq.
    assert (Hin : In (r, c) all_positions) by (apply in_all_positions; lia).
    apply H in Hin.
    apply isValidPlacement_spec in Hin as [Hin|Hin]; [done| |done..].
    by apply (Hin r' c').
  - intros H [r c] Hin. apply in_all_positions in Hin as [Hr Hc].
    apply isValidPlacement_spec; [done..|].
    destruct (decide (cell g r c = 0%Z)); [by left|right].
    intros r' c' Hr' Hc' Hrel Heq. by apply (H r c r' c').
Qed.

Lemma wf_gridb_true (g : Grid) : wf_gridb g = true ↔ wf_grid g.
Proof.
  unfold wf_gridb, wf_grid.
  rewrite andb_true_iff, Nat.eqb_eq, forallb_forall, Forall_forall.
  split; intros [H1 H2]; (split; [done|]); intros x Hx.
  - apply Nat.eqb_eq, H2. by apply list_elem_of_In.
  - apply Nat.eqb_eq, H2. by apply list_elem_of_In.
Qed.

Lemma sample_solution_wf : wf_grid sample_solution.
Proof. apply wf_gridb_true. reflexivity. Qed.

Lemma sample_solution_complete : complete sample_solution.
Proof. apply completeb_true. reflexivity. Qed.

Lemma sample_solution_no_conflicts : no_conflicts sample_solution.
Proof. apply no_conflictsb_true. reflexivity. Qed.

(** C9: in a grid without Sudoku conflicts (in particular in a complete valid
    grid) the value of a cell is a valid placement in its own position,
    because [isValidPlacement] skips the cell itself in the row, column and
    box scans. *)
Theorem isValidPlacement_own_value (g : Grid) (r c : nat) :
  complete g → no_conflicts g → r < 9 → c < 9 →
  isValidPlacement g r c (cell g r c) = true.
Proof.
  intros Hcomp Hnc Hr Hc. apply isValidPlacement_spec; [done..|].
  right. intros r' c' Hr' Hc' Hrel Heq.
  apply (Hnc r c r' c'); try done.
  specialize (Hcomp r c Hr Hc). lia.
Qed.

Lemma isValidPlacement_own_value_witness :
  isValidPlacement sample_solution 4 7 (cell sample_solution 4 7) = true.
Proof.
  apply isValidPlacement_own_value;
    [apply sample_solution_complete | apply sample_solution_no_conflicts
    | lia | lia].
Defined.

(** ** Properties of the technique detector *)

Section SolverLemmas.

Lemma first_some_Some {A B} (f : A → option B) l y :
  first_some f l = Some y →
  ∃ l1 x l2, l = l1 ++ x :: l2 ∧ f x = Some y ∧ ∀ z, In z l1 → f z = None.
Proof.
  induction l as [|a l IH]; simpl; [done|].
  destruct (f a) as [b|] eqn:Hfa.
  - intros [= <-]. exists [], a, l. by split_and!.
  - intros (l1 & x & l2 & -> & Hx & Hl1)%IH.
    exists (a :: l1), x, l2. split_and!; [done..|].
    intros z [<-|Hz]; auto.
Qed.

Lemma first_some_In {A B} (f : A → option B) l y :
  first_some f l = Some y → ∃ x, In x l ∧ f x = Some y.
Proof.
  intros (l1 & x & l2 & -> & Hx & _)%first_some_Some.
  exists x. split; [|done]. apply in_app_iff. right. now left.
Qed.

Lemma first_some_None {A B} (f : A → option B) l :
  first_some f l = None ↔ ∀ x, In x l → f x = None.
Proof.
  induction l as [|a l IH]; simpl.
  - split; [intros _ x []|done].
  - destruct (f a) eqn:Hfa.
    + split; [done|]. intros H. specialize (H a (or_introl eq_refl)). congruence.
    + rewrite IH. split; [intros H x [<-|Hx]; auto|auto].
Qed.

Lemma lookup_map {A B} (f : A → B) (l : list A) i :
  map f l !! i = f <$> l !! i.
Proof. revert i. induction l; intros [|i]; simpl; auto. Qed.

Lemma cands_initializeCandidates (g : Grid) r c :
  r < 9 → c < 9 →
  cands (initializeCandidates g) r c =
  if (cell g r c =? 0)%Z
  then List.filter (fun num => isValidPlacement g r c num) digits else [].
Proof.
  intros Hr Hc. unfold cands, initializeCandidates.
  rewrite lookup_map, lookup_seq_lt by done. cbn [fmap option_fmap option_map].
  rewrite lookup_map, lookup_seq_lt by done. done.
Qed.

Lemma in_digits (n : Z) : In n digits ↔ (1 ≤ n ≤ 9)%Z.
Proof. unfold digits. simpl. lia. Qed.

(** Members of a candidate set are digits that can be placed. *)
Lemma cands_initializeCandidates_In (g : Grid) r c n :
  r < 9 → c < 9 → In n (cands (initializeCandidates g) r c) →
  cell g r c = 0%Z ∧ (1 ≤ n ≤ 9)%Z ∧ isValidPlacement g r c n = true.
Proof.
  intros Hr Hc. rewrite cands_initializeCandidates by done.
  destruct (Z.eqb_spec (cell g r c) 0); [|done].
  rewrite filter_In, in_digits. tauto.
Qed.

Lemma findNakedSingle_Some (g : Grid) h :
  findNakedSingle g (initializeCandidates g) = Some h →
  technique h = naked_single ∧ hint_ok g h.
Proof.
  intros ([r c] & Hin & Hf)%first_some_In.
  apply in_all_positions in Hin as [Hr Hc].
  destruct (Z.eqb_spec (cell g r c) 0) as [Hz|]; [|done].
  destruct (cands _ r c) as [|v [|? ?]] eqn:Hcs; try done.
  injection Hf as <-. split; [done|]. unfold hint_ok; simpl.
  split_and!; try done;
    eapply (cands_initializeCandidates_In g r c v); try done;
    rewrite Hcs; now left.
Qed.

Lemma filter_singleton_In {A} (f : A → bool) l x :
  List.filter f l = [x] → In x l ∧ f x = true.
Proof. intros H. apply filter_In. rewrite H. now left. Qed.

Lemma has_In (s : list Z) n : has s n = true ↔ In n s.
Proof.
  unfold has. rewrite existsb_exists. split.
  - intros (x & Hx & ->%Z.eqb_eq). done.
  - intros H. exists n. split; [done|apply Z.eqb_refl].
Qed.

Lemma findHiddenSingle_Some (g : Grid) h :
  findHiddenSingle g (initializeCandidates g) = Some h →
  technique h = hidden_single ∧ hint_ok g h.
Proof.
  intros (num & Hnum & Hf)%first_some_In. apply in_digits in Hnum.
  revert Hf. unfold or_else.
  destruct (first_some _ (seq 0 9)) as [h1|] eqn:Hrows at 1.
  { intros [= ->]. apply first_some_In in Hrows as (row & Hrow & Hf).
    apply in_seq in Hrow.
    destruct (List.filter _ _) as [|col [|? ?]] eqn:Hfil; try done.
    injection Hf as <-. apply filter_singleton_In in Hfil as [Hcol Hp].
    apply in_seq in Hcol. apply andb_prop in Hp as [Hz%Z.eqb_eq _].
    split; [done|]. unfold hint_ok; simpl. split_and!; (lia || done). }
  destruct (first_some _ (seq 0 9)) as [h1|] eqn:Hcols at 1.
  { intros [= ->]. apply first_some_In in Hcols as (col & Hcol & Hf).
    apply in_seq in Hcol.
    destruct (List.filter _ _) as [|row [|? ?]] eqn:Hfil; try done.
    injection Hf as <-. apply filter_singleton_In in Hfil as [Hrow Hp].
    apply in_seq in Hrow. apply andb_prop in Hp as [Hz%Z.eqb_eq _].
    split; [done|]. unfold hint_ok; simpl. split_and!; (lia || done). }
  intros Hf. apply first_some_In in Hf as ([boxRow boxCol] & Hbox & Hf).
  apply in_flat_map in Hbox as (br & Hbr & Hbc).
  apply in_map_iff in Hbc as (bc & [= <- <-] & Hbc). apply in_seq in Hbr, Hbc.
  destruct (List.filter _ _) as [|[row col] [|? ?]] eqn:Hfil; try done.
  injection Hf as <-. apply filter_singleton_In in Hfil as [Hcell Hp].
  apply in_flat_map in Hcell as (r & Hr & Hc).
  apply in_map_iff in Hc as (c & [= <- <-] & Hc). apply in_seq in Hr, Hc.
  apply andb_prop in Hp as [Hz%Z.eqb_eq _].
  split; [done|]. unfold hint_ok; simpl. split_and!; (lia || done).
Qed.

Lemma in_pairs_of {A} (l : list A) x y : In (x, y) (pairs_of l) → In x l ∧ In y l.
Proof.
  induction l as [|a l IH]; simpl; [done|].
  rewrite in_app_iff, in_map_iff.
  intros [(y' & [= <- <-] & Hy)|H]; [tauto|]. apply IH in H. tauto.
Qed.

Lemma in_nakedPairUnits unit r c :
  In unit nakedPairUnits → In (r, c) unit → r < 9 ∧ c < 9.
Proof.
  intros Hu Hin.
  assert (H : forallb (fun u => forallb (fun p => (fst p <? 9) && (snd p <? 9)) u)
                      nakedPairUnits = true) by (vm_compute; reflexivity).
  rewrite forallb_forall in H. specialize (H unit Hu).
  rewrite forallb_forall in H. specialize (H (r, c) Hin).
  apply andb_prop in H as [H1%Nat.ltb_lt H2%Nat.ltb_lt]. done.
Qed.

Lemma findNakedPair_Some (g : Grid) h :
  findNakedPair g (initializeCandidates g) = Some h →
  technique h = naked_pair ∧ hint_ok g h.
Proof.
  intros (unit & Hunit & Hf)%first_some_In.
  apply first_some_In in Hf as ([[r1 c1] [r2 c2]] & Hpair & Hf).
  apply in_pairs_of in Hpair as [H1 _].
  apply filter_In in H1 as [H1 Hp].
  apply andb_prop in Hp as [Hz%Z.eqb_eq Hlen%Nat.eqb_eq].
  destruct (in_nakedPairUnits unit r1 c1 Hunit H1) as [Hr1 Hc1].
  cbv zeta in Hf.
  destruct (String.eqb _ _) in Hf; [|done].
  destruct (existsb _ unit) in Hf; [|done].
  injection Hf as <-. split; [done|]. unfold hint_ok; simpl.
  split_and!; try done;
    destruct (cands _ r1 c1) as [|v l] eqn:Hcs; try done; simpl;
    eapply (cands_initializeCandidates_In g r1 c1 v); try done;
    rewrite Hcs; now left.
Qed.

(** Every hint of the detection ladder comes from one of the three
    implemented detectors, which must be among the allowed techniques. *)
Lemma findNextHint_Some (g : Grid) allowed h :
  findNextHint g allowed = Some h →
  (technique h = naked_single ∨ technique h = hidden_single
   ∨ technique h = naked_pair) ∧
  technique h ∈ allowed ∧ hint_ok g h.
Proof.
  unfold findNextHint, includes.
  destruct (bool_decide_reflect (naked_single ∈ allowed)) as [Ha1|Ha1].
  - destruct (findNakedSingle _ _) as [h1|] eqn:H1.
    { intros [= ->]. apply findNakedSingle_Some in H1 as [Ht Hok].
      rewrite Ht. auto. }
    destruct (bool_decide_reflect (hidden_single ∈ allowed)) as [Ha2|Ha2].
    + destruct (findHiddenSingle _ _) as [h2|] eqn:H2.
      { intros [= ->]. apply findHiddenSingle_Some in H2 as [Ht Hok].
        rewrite Ht. auto. }
      destruct (bool_decide_reflect (naked_pair ∈ allowed)) as [Ha3|Ha3]; [|done].
      destruct (findNakedPair _ _) as [h3|] eqn:H3; [|done].
      intros [= ->]. apply findNakedPair_Some in H3 as [Ht Hok]. rewrite Ht. auto.
    + destruct (bool_decide_reflect (naked_pair ∈ allowed)) as [Ha3|Ha3]; [|done].
      destruct (findNakedPair _ _) as [h3|] eqn:H3; [|done].
      intros [= ->]. apply findNakedPair_Some in H3 as [Ht Hok]. rewrite Ht. auto.
  - destruct (bool_decide_reflect (hidden_single ∈ allowed)) as [Ha2|Ha2].
    + destruct (findHiddenSingle _ _) as [h2|] eqn:H2.
      { intros [= ->]. apply findHiddenSingle_Some in H2 as [Ht Hok].
        rewrite Ht. auto. }
      destruct (bool_decide_reflect (naked_pair ∈ allowed)) as [Ha3|Ha3]; [|done].
      destruct (findNakedPair _ _) as [h3|] eqn:H3; [|done].
      intros [= ->]. apply findNakedPair_Some in H3 as [Ht Hok]. rewrite Ht. auto.
    + destruct (bool_decide_reflect (naked_pair ∈ allowed)) as [Ha3|Ha3]; [|done].
      destruct (findNakedPair _ _) as [h3|] eqn:H3; [|done].
      intros [= ->]. apply findNakedPair_Some in H3 as [Ht Hok]. rewrite Ht. auto.
Qed.

End SolverLemmas.

(** C4: whatever the grid and the list of allowed techniques (also a list that
    contains [pointing_pair], as the one of the hard difficulty does), a hint
    of [findNextHint] never has the technique [pointing_pair]. *)
Theorem findNextHint_never_pointing_pair (g : Grid)
    (allowedTechniques : list TechniqueName) (h : Hint) :
  findNextHint g allowedTechniques = Some h → technique h ≠ pointing_pair.
Proof.
  intros (Ht & _)%findNextHint_Some. intros Heq. rewrite Heq in Ht.
  destruct Ht as [?|[?|?]]; discriminate.
Qed.

Lemma findNextHint_never_pointing_pair_witness :
  pointing_pair ∈ difficultyTechniques hard ∧
  ∃ h, findNextHint one_missing (difficultyTechniques hard) = Some h
       ∧ technique h ≠ pointing_pair.
Proof.
  split; [apply list_elem_of_In; simpl; tauto|].
  eexists. split; [vm_compute; reflexivity|].
  apply (findNextHint_never_pointing_pair one_missing (difficultyTechniques hard)).
  vm_compute; reflexivity.
Defined.

(** *** Priority of the naked single *)

(** The candidate set of an empty cell: the digits that no related cell
    holds. *)
Lemma candidateSet_spec (g : Grid) r c n :
  r < 9 → c < 9 → cell g r c = 0%Z →
  In n (candidateSet g r c) ↔
  (1 ≤ n ≤ 9)%Z ∧
  ∀ r' c', r' < 9 → c' < 9 → related r c r' c' → cell g r' c' ≠ n.
Proof.
  intros Hr Hc Hz. unfold candidateSet.
  rewrite cands_initializeCandidates by done. rewrite Hz. cbn [Z.eqb].
  rewrite filter_In, in_digits, isValidPlacement_spec by done.
  split; [intros [Hn [->|H]]; [lia|done]|tauto].
Qed.

Lemma all_positions_split l1 r c l2 :
  all_positions = l1 ++ (r, c) :: l2 →
  ∀ r' c', r' < 9 → c' < 9 → row_major_before r' c' r c → In (r', c') l1.
Proof.
  intros Hsplit r' c' Hr' Hc' Hbefore.
  assert (Hidx : ∀ i p, all_positions !! i = Some p ↔
                        i < 81 ∧ p = (i / 9, i mod 9)).
  { intros i p. split.
    - intros Hi. assert (Hlt : i < 81).
      { apply lookup_lt_Some in Hi. exact Hi. }
      split; [done|].
      assert (Hall : forallb (fun i => bool_decide
                 (all_positions !! i = Some (i / 9, i mod 9))) (seq 0 81) = true)
        by (vm_compute; reflexivity).
      rewrite forallb_forall in Hall. specialize (Hall i).
      rewrite in_seq in Hall. apply bool_decide_eq_true in Hall; [|lia].
      congruence.
    - intros [Hlt ->].
      assert (Hall : forallb (fun i => bool_decide
                 (all_positions !! i = Some (i / 9, i mod 9))) (seq 0 81) = true)
        by (vm_compute; reflexivity).
      rewrite forallb_forall in Hall. specialize (Hall i).
      rewrite in_seq in Hall. apply bool_decide_eq_true in Hall; [done|lia]. }
  assert (H1 : all_positions !! length l1 = Some (r, c)).
  { rewrite Hsplit. by rewrite list_lookup_middle. }
  apply Hidx in H1 as [Hlen Hp].
  assert (Hr : r = length l1 / 9) by congruence.
  assert (Hc : c = length l1 mod 9) by congruence. clear Hp.
  assert (H2 : all_positions !! (r' * 9 + c') = Some (r', c')).
  { apply Hidx. split; [lia|]. f_equal.
    - rewrite Nat.div_add_l by lia. rewrite Nat.div_small by lia. lia.
    - rewrite Nat.add_comm, Nat.Div0.mod_add. symmetry. by apply Nat.mod_small. }
  assert (Hlt : r' * 9 + c' < length l1).
  { pose proof (Nat.div_mod_eq (length l1) 9).
    pose proof (Nat.mod_upper_bound (length l1) 9).
    destruct Hbefore as [?|[? ?]]; subst; lia. }
  rewrite Hsplit, lookup_app_l in H2 by done.
  apply list_elem_of_In, list_elem_of_lookup. eauto.
Qed.

Lemma findNakedSingle_first (g : Grid) :
  (∃ r c, r < 9 ∧ c < 9 ∧ single_candidate_cell g r c) →
  ∃ h r c,
    findNakedSingle g (initializeCandidates g) = Some h ∧
    technique h = naked_single ∧ targetCell h = (r, c) ∧
    r < 9 ∧ c < 9 ∧ single_candidate_cell g r c ∧
    candidateSet g r c = [targetValue h] ∧
    ∀ r' c', r' < 9 → c' < 9 → row_major_before r' c' r c →
             ¬ single_candidate_cell g r' c'.
Proof.
  intros (r0 & c0 & Hr0 & Hc0 & Hz0 & Hlen0).
  destruct (findNakedSingle g (initializeCandidates g)) as [h|] eqn:Hf.
  - unfold findNakedSingle in Hf.
    apply first_some_Some in Hf as (l1 & [r c] & l2 & Hsplit & Hf & Hbefore).
    assert (Hin : In (r, c) all_positions).
    { rewrite Hsplit. apply in_app_iff. right. now left. }
    apply in_all_positions in Hin as [Hr Hc].
    destruct (Z.eqb_spec (cell g r c) 0) as [Hz|]; [|done].
    destruct (cands _ r c) as [|v [|? ?]] eqn:Hcs; try done.
    injection Hf as <-.
    eexists. exists r, c. simpl. split_and!; try done.
    + split; [done|]. unfold candidateSet. by rewrite Hcs.
    + intros r' c' Hr' Hc' Hb [Hz' Hlen'].
      pose proof (all_positions_split _ _ _ _ Hsplit r' c' Hr' Hc' Hb) as Hin.
      apply Hbefore in Hin. simpl in Hin.
      rewrite Hz' in Hin. simpl in Hin. unfold candidateSet in Hlen'.
      destruct (cands _ r' c') as [|v' [|? ?]]; done.
  - exfalso. unfold findNakedSingle in Hf. rewrite first_some_None in Hf.
    specialize (Hf (r0, c0)). simpl in Hf. rewrite Hz0 in Hf. simpl in Hf.
    unfold candidateSet in Hlen0.
    destruct (cands _ r0 c0) as [|v' [|? ?]]; try done.
    discriminate Hf. apply in_all_positions. done.
Qed.

(** The ladder: each detector is consulted only when it is allowed and every
    detector before it found nothing. *)
Lemma findNextHint_ladder (g : Grid) allowed :
  findNextHint g allowed =
  or_else (if includes allowed naked_single
           then findNakedSingle g (initializeCandidates g) else None)
    (or_else (if includes allowed hidden_single
              then findHiddenSingle g (initializeCandidates g) else None)
             (if includes allowed naked_pair
              then findNakedPair g (initializeCandidates g) else None)).
Proof.
  unfold findNextHint, or_else.
  repeat match goal with |- context [match ?x with _ => _ end] => destruct x end;
    reflexivity.
Qed.

(** C2: the detector consults naked single, then hidden single, then naked
    pair and returns the first result.  When naked single is allowed (it is
    for [getHint], which passes the default list) and some empty cell has a
    single candidate, the hint is a naked single on the first such cell in
    row-major order, whatever the other detectors would find. *)
Theorem findNextHint_naked_single_first (g : Grid)
    (allowedTechniques : list TechniqueName) (board : BoardState) :
  naked_single ∈ allowedTechniques →
  (∃ r c, r < 9 ∧ c < 9 ∧ single_candidate_cell g r c) →
  boardToGrid board = g →
  (∃ h r c,
      findNextHint g allowedTechniques = Some h ∧
      getHint board = Some h ∧
      technique h = naked_single ∧ targetCell h = (r, c) ∧
      r < 9 ∧ c < 9 ∧ single_candidate_cell g r c ∧
      candidateSet g r c = [targetValue h] ∧
      ∀ r' c', r' < 9 → c' < 9 → row_major_before r' c' r c →
               ¬ single_candidate_cell g r' c') ∧
  findNextHint g defaultTechniques =
    or_else (findNakedSingle g (initializeCandidates g))
      (or_else (findHiddenSingle g (initializeCandidates g))
               (findNakedPair g (initializeCandidates g))).
Proof.
  intros Hallowed Hex Hboard. split; [|apply findNextHint_ladder].
  destruct (findNakedSingle_first g Hex) as (h & r & c & Hf & Hrest).
  exists h, r, c. split_and!; try apply Hrest.
  - rewrite findNextHint_ladder. unfold includes.
    rewrite bool_decide_eq_true_2 by done. by rewrite Hf.
  - unfold getHint. rewrite Hboard, findNextHint_ladder. by rewrite Hf.
Qed.

Lemma findNextHint_naked_single_first_witness :
  (∃ h r c,
      findNextHint two_missing defaultTechniques = Some h ∧
      getHint (board_of_grid two_missing) = Some h ∧
      technique h = naked_single ∧ targetCell h = (r, c) ∧
      r < 9 ∧ c < 9 ∧ single_candidate_cell two_missing r c ∧
      candidateSet two_missing r c = [targetValue h] ∧
      ∀ r' c', r' < 9 → c' < 9 → row_major_before r' c' r c →
               ¬ single_candidate_cell two_missing r' c') ∧
  findNextHint two_missing defaultTechniques =
    or_else (findNakedSingle two_missing (initializeCandidates two_missing))
      (or_else (findHiddenSingle two_missing (initializeCandidates two_missing))
               (findNakedPair two_missing (initializeCandidates two_missing))).
Proof.
  apply (findNextHint_naked_single_first two_missing defaultTechniques
           (board_of_grid two_missing)).
  - apply list_elem_of_In; simpl; tauto.
  - exists 4, 4. split; [lia|]. split; [lia|]. split; vm_compute; reflexivity.
  - vm_compute; reflexivity.
Defined.

(** *** The technique-limited solve *)

Section SolveLoop.

Variable allowed : list TechniqueName.

Lemma isSolved_emptyCells (g : Grid) : isSolved g = true ↔ emptyCells g = [].
Proof.
  unfold isSolved, emptyCells. rewrite negb_true_iff, existsb_false. split.
  - intros H.
    destruct (List.filter _ _) as [|[r c] l] eqn:Hfil; [done|].
    assert (Hin : In (r, c) (List.filter (fun '(r, c) => (cell g r c =? 0)%Z)
                                         all_positions))
      by (rewrite Hfil; now left).
    apply filter_In in Hin as [[Hr Hc]%in_all_positions Hz].
    specialize (H r). rewrite in_seq, existsb_false in H.
    specialize (H ltac:(lia) c). rewrite in_seq in H. rewrite H in Hz; [done|lia].
  - intros H r Hr%in_seq. apply existsb_false. intros c Hc%in_seq.
    destruct (cell g r c =? 0)%Z eqn:Hz; [|done].
    assert (Hin : In (r, c) (List.filter (fun '(r, c) => (cell g r c =? 0)%Z)
                                         all_positions)).
    { apply filter_In. split; [apply in_all_positions; lia|done]. }
    rewrite H in Hin. destruct Hin.
Qed.

Lemma filter_length_lt {A} (f f' : A → bool) (l : list A) x :
  (∀ y, f' y = true → f y = true) → In x l → f x = true → f' x = false →
  length (List.filter f' l) < length (List.filter f l).
Proof.
  intros Hle Hin Hfx Hf'x.
  assert (Hmono : ∀ l', length (List.filter f' l') ≤ length (List.filter f l')).
  { induction l' as [|a l' IH]; simpl; [lia|].
    destruct (f' a) eqn:Ha'; [rewrite (Hle a Ha'); simpl; lia|].
    destruct (f a); simpl; lia. }
  induction l as [|a l IH]; [destruct Hin|]. simpl.
  destruct Hin as [->|Hin].
  - rewrite Hfx, Hf'x. simpl. specialize (Hmono l). lia.
  - specialize (IH Hin). destruct (f' a) eqn:Ha'.
    + rewrite (Hle a Ha'). simpl. lia.
    + destruct (f a); simpl; lia.
Qed.

Lemma emptyCells_le_81 (g : Grid) : length (emptyCells g) ≤ 81.
Proof.
  unfold emptyCells.
  etransitivity; [apply List.filter_length_le|]. vm_compute. lia.
Qed.

(** Writing a hint fills an empty cell. *)
Lemma emptyCells_applyHint (g : Grid) h :
  wf_grid g → hint_ok g h →
  length (emptyCells (applyHint g h)) < length (emptyCells g).
Proof.
  intros Hwf (Hr & Hc & Hz & Hv). destruct (targetCell h) as [r c] eqn:Ht.
  cbn [fst snd] in *. unfold emptyCells, applyHint. rewrite Ht. cbn [fst snd].
  apply filter_length_lt with (r, c).
  - intros [r' c'] H'. destruct (decide (r = r' ∧ c = c')) as [[<- <-]|Hne].
    + rewrite cell_setCell_eq in H' by done. lia.
    + rewrite cell_setCell_ne in H' by (destruct (decide (r = r')) as [->|]; [right; intros ->; by apply Hne|by left]).
      done.
  - by apply in_all_positions.
  - lia.
  - rewrite cell_setCell_eq by done. lia.
Qed.

Lemma solveLoop_run (fuel : nat) : ∀ (g : Grid) used,
  wf_grid g → length (emptyCells g) < fuel →
  ∃ g' ts,
    hint_run allowed g ts g' ∧ wf_grid g' ∧
    length ts ≤ length (emptyCells g) ∧
    solveLoop fuel g allowed used
      = {| solved := isSolved g'; techniques := used ++ ts |} ∧
    (isSolved g' = false → findNextHint g' allowed = None).
Proof.
  induction fuel as [|fuel IH]; intros g used Hwf Hfuel; [lia|]. simpl.
  destruct (isSolved g) eqn:Hs.
  { exists g, []. rewrite app_nil_r, Hs.
    split_and!; [apply hint_run_done|done|simpl; lia|done|done]. }
  destruct (findNextHint g allowed) as [h|] eqn:Hh.
  2: { exists g, []. rewrite app_nil_r, Hs.
       split_and!; [apply hint_run_done|done|simpl; lia|done|done]. }
  pose proof (findNextHint_Some _ _ _ Hh) as (_ & _ & Hok).
  pose proof (emptyCells_applyHint g h Hwf Hok) as Hlt.
  destruct (IH (applyHint g h) (used ++ [technique h])) as (g' & ts & Hrun & Hwf' & Hlen & Heq & Hnone).
  { by apply wf_setCell. }
  { lia. }
  exists g', (technique h :: ts). split_and!; try done.
  - by econstructor.
  - simpl. lia.
  - unfold applyHint in Heq. rewrite Heq. by rewrite <- app_assoc.
Qed.

(** When the iteration cap is used up by hints, the loop gives up. *)
Lemma solveLoop_cap (n : nat) : ∀ (g : Grid) ts g' used,
  hint_run allowed g ts g' → length ts = n →
  solveLoop n g allowed used = {| solved := false; techniques := used ++ ts |}.
Proof.
  induction n as [|n IH]; intros g ts g' used Hrun Hlen.
  - destruct ts; [|done]. simpl. by rewrite app_nil_r.
  - destruct Hrun as [|g h ts g' Hs Hh Hrun]; [done|]. simpl.
    rewrite Hs, Hh. unfold applyHint in Hrun.
    rewrite (IH _ ts g') by (simpl in Hlen; done || lia).
    by rewrite <- app_assoc.
Qed.

End SolveLoop.

(** C6: on every 9x9 puzzle and for every list of allowed techniques
    [solvePuzzleWithTechniques] returns a result [{solved, techniques}] after
    at most 81 hints: [solved] is true exactly when the working copy has no
    empty cell left, and when it is false no allowed technique yields a hint on
    the working copy.  Every hint the loop writes targets an empty cell inside
    the grid and carries a digit, so no access leaves the grid.  A loop that
    uses up its iteration cap on hints returns [solved = false]; the cap is
    1000. *)
Theorem solvePuzzleWithTechniques_result (puzzle : Grid)
    (allowedTechniques : list TechniqueName) :
  wf_grid puzzle →
  (∃ g',
      hint_run allowedTechniques puzzle
               (techniques (solvePuzzleWithTechniques puzzle allowedTechniques)) g' ∧
      length (techniques (solvePuzzleWithTechniques puzzle allowedTechniques)) ≤ 81 ∧
      solved (solvePuzzleWithTechniques puzzle allowedTechniques) = isSolved g' ∧
      (isSolved g' = true ↔ ∀ r c, r < 9 → c < 9 → cell g' r c ≠ 0%Z) ∧
      (solved (solvePuzzleWithTechniques puzzle allowedTechniques) = false →
       findNextHint g' allowedTechniques = None)) ∧
  (∀ g h, findNextHint g allowedTechniques = Some h → hint_ok g h) ∧
  (∀ cap g ts g' used,
      hint_run allowedTechniques g ts g' → length ts = cap →
      solveLoop cap g allowedTechniques used
        = {| solved := false; techniques := used ++ ts |}) ∧
  maxIterations = 1000.
Proof.
  intros Hwf. split; [|split; [|split; [intros; by eapply solveLoop_cap|done]]].
  2: { intros g h Hh. by apply findNextHint_Some in Hh as (_ & _ & Hok). }
  unfold solvePuzzleWithTechniques. rewrite cloneGrid_id.
  pose proof (emptyCells_le_81 puzzle) as H81.
  destruct (solveLoop_run allowedTechniques maxIterations puzzle [] Hwf)
    as (g' & ts & Hrun & Hwf' & Hlen & Heq & Hnone).
  { unfold maxIterations. lia. }
  rewrite Heq. cbn [solved techniques app]. exists g'.
  split; [done|]. split; [lia|]. split; [done|]. split; [|done].
  - rewrite isSolved_emptyCells. unfold emptyCells. split.
    + intros Hnil r c Hr Hc Hz.
      assert (Hin : In (r, c) (List.filter (fun '(r, c) => (cell g' r c =? 0)%Z)
                                           all_positions)).
      { apply filter_In. split; [apply in_all_positions; lia|lia]. }
      rewrite Hnil in Hin. destruct Hin.
    + intros Hall. destruct (List.filter _ _) as [|[r c] l] eqn:Hfil; [done|].
      assert (Hin : In (r, c) (List.filter (fun '(r, c) => (cell g' r c =? 0)%Z)
                                           all_positions))
        by (rewrite Hfil; now left).
      apply filter_In in Hin as [[Hr Hc]%in_all_positions Hz].
      specialize (Hall r c Hr Hc). lia.
Qed.

Lemma solvePuzzleWithTechniques_result_witness :
  (∃ g',
      hint_run [naked_single] two_missing
               (techniques (solvePuzzleWithTechniques two_missing [naked_single])) g' ∧
      length (techniques (solvePuzzleWithTechniques two_missing [naked_single])) ≤ 81 ∧
      solved (solvePuzzleWithTechniques two_missing [naked_single]) = isSolved g' ∧
      (isSolved g' = true ↔ ∀ r c, r < 9 → c < 9 → cell g' r c ≠ 0%Z) ∧
      (solved (solvePuzzleWithTechniques two_missing [naked_single]) = false →
       findNextHint g' [naked_single] = None)) ∧
  (∀ g h, findNextHint g [naked_single] = Some h → hint_ok g h) ∧
  (∀ cap g ts g' used,
      hint_run [naked_single] g ts g' → length ts = cap →
      solveLoop cap g [naked_single] used
        = {| solved := false; techniques := used ++ ts |}) ∧
  maxIterations = 1000.
Proof.
  apply (solvePuzzleWithTechniques_result two_missing [naked_single]).
  apply wf_gridb_true. vm_compute. reflexivity.
Defined.

(** The detector and the solver on the sample grids. *)
Example findNextHint_one_missing :
  findNextHint one_missing defaultTechniques
  = Some {| technique := naked_single;
            description := "Cell can only contain 1";
            targetCell := (0, 0);
            targetValue := 1;
            highlightCells := [(0, 0); (0, 1); (0, 2); (0, 3); (0, 4); (0, 5)];
            highlightRegion := None |}.
Proof. vm_compute. reflexivity. Qed.

Example findHiddenSingle_two_missing :
  findHiddenSingle two_missing (initializeCandidates two_missing)
  = Some {| technique := hidden_single;
            description := "1 can only go in one place in this row";
            targetCell := (0, 0);
            targetValue := 1;
            highlightCells := getRowCells 0;
            highlightRegion := Some region_row |}.
Proof. vm_compute. reflexivity. Qed.

Example solvePuzzleWithTechniques_two_missing :
  solvePuzzleWithTechniques two_missing [naked_single]
  = {| solved := true; techniques := [naked_single; naked_single] |}.
Proof. vm_compute. reflexivity. Qed.

Example getRelatedCells_center :
  getRelatedCells 4 4
  = [(4, 0); (4, 1); (4, 2); (4, 3); (4, 5); (4, 6); (4, 7); (4, 8);
     (0, 4); (1, 4); (2, 4); (3, 4); (5, 4); (6, 4); (7, 4); (8, 4);
     (3, 3); (3, 5); (5, 3); (5, 5)].
Proof. vm_compute. reflexivity. Qed.

(** ** Comparison of a board with the solution *)

Lemma errors_of_checkAgainstSolution (board : BoardState) (solution : Grid) r c :
  In (r, c) (errors (checkAgainstSolution board solution)) ↔
  r < 9 ∧ c < 9 ∧ value (bcell board r c) ≠ 0%Z
  ∧ value (bcell board r c) ≠ cell solution r c.
Proof.
  unfold checkAgainstSolution. cbn [errors]. rewrite filter_In, in_all_positions.
  rewrite andb_true_iff, !negb_true_iff, !Z.eqb_neq. tauto.
Qed.

(** C10: [checkAgainstSolution] lists exactly the positions whose value is
    non-zero and differs from the solution, each once and in row-major order; a
    cell whose value is 0 is never listed; [correct] is true exactly when the
    list is empty; a board whose cells are all empty is correct with no
    error. *)
Theorem checkAgainstSolution_filled_only (board : BoardState) (solution : Grid) :
  (∀ r c, In (r, c) (errors (checkAgainstSolution board solution)) ↔
          r < 9 ∧ c < 9 ∧ value (bcell board r c) ≠ 0%Z
          ∧ value (bcell board r c) ≠ cell solution r c) ∧
  (∀ r c, value (bcell board r c) = 0%Z →
          ¬ In (r, c) (errors (checkAgainstSolution board solution))) ∧
  NoDup (errors (checkAgainstSolution board solution)) ∧
  (correct (checkAgainstSolution board solution) = true ↔
   errors (checkAgainstSolution board solution) = []) ∧
  ((∀ r c, r < 9 → c < 9 → value (bcell board r c) = 0%Z) →
   correct (checkAgainstSolution board solution) = true ∧
   errors (checkAgainstSolution board solution) = []).
Proof.
  split_and!.
  - apply errors_of_checkAgainstSolution.
  - intros r c Hz Hin. apply errors_of_checkAgainstSolution in Hin. tauto.
  - unfold checkAgainstSolution. cbn [errors]. apply NoDup_ListNoDup, List.NoDup_filter.
    apply NoDup_ListNoDup, NoDup_all_positions.
  - unfold checkAgainstSolution. cbn [errors correct]. rewrite Nat.eqb_eq.
    apply length_zero_iff_nil.
  - intros Hempty.
    assert (Hnil : errors (checkAgainstSolution board solution) = []).
    { destruct (errors _) as [|[r c] l] eqn:Herr; [done|].
      assert (Hin : In (r, c) (errors (checkAgainstSolution board solution)))
        by (rewrite Herr; now left).
      apply errors_of_checkAgainstSolution in Hin as (Hr & Hc & Hnz & _).
      by specialize (Hempty r c Hr Hc). }
    split; [|done]. unfold checkAgainstSolution in *. cbn [errors correct] in *.
    by rewrite Hnil.
Qed.

(** ** The exhaustive search *)

Section Search.

Lemma related_sym r c r' c' : related r c r' c' → related r' c' r c.
Proof. unfold related. intros [H1 H2]. split; [|]; intuition congruence. Qed.

Lemma findEmpty_Some (g : Grid) r c :
  findEmpty g = Some (r, c) → r < 9 ∧ c < 9 ∧ cell g r c = 0%Z.
Proof.
  unfold findEmpty. intros H. apply find_some in H as [Hin Hz].
  apply in_all_positions in Hin. apply Z.eqb_eq in Hz. tauto.
Qed.

Lemma findEmpty_None (g : Grid) :
  findEmpty g = None ↔ ∀ r c, r < 9 → c < 9 → cell g r c ≠ 0%Z.
Proof.
  unfold findEmpty. split.
  - intros H r c Hr Hc.
    pose proof (find_none _ _ H (r, c)) as Hn. simpl in Hn.
    apply Z.eqb_neq, Hn, in_all_positions. done.
  - intros H. destruct (List.find _ _) as [[r c]|] eqn:Hf; [|done].
    apply find_some in Hf as [[Hr Hc]%in_all_positions Hz%Z.eqb_eq].
    by destruct (H r c).
Qed.

Lemma findEmpty_emptyCells (g : Grid) : findEmpty g = None ↔ emptyCells g = [].
Proof.
  rewrite findEmpty_None. unfold emptyCells. split.
  - intros H. destruct (List.filter _ _) as [|[r c] l] eqn:Hfil; [done|].
    assert (Hin : In (r, c) (List.filter (fun '(r, c) => (cell g r c =? 0)%Z)
                                         all_positions))
      by (rewrite Hfil; now left).
    apply filter_In in Hin as [[Hr Hc]%in_all_positions Hz%Z.eqb_eq].
    by destruct (H r c).
  - intros H r c Hr Hc Hz.
    assert (Hin : In (r, c) (List.filter (fun '(r, c) => (cell g r c =? 0)%Z)
                                         all_positions)).
    { apply filter_In. split; [by apply in_all_positions|by apply Z.eqb_eq]. }
    rewrite H in Hin. destruct Hin.
Qed.

(** Filling an empty cell leaves fewer empty cells. *)
Lemma emptyCells_setCell (g : Grid) r c n :
  wf_grid g → r < 9 → c < 9 → cell g r c = 0%Z → n ≠ 0%Z →
  length (emptyCells (setCell g r c n)) < length (emptyCells g).
Proof.
  intros Hwf Hr Hc Hz Hn. unfold emptyCells.
  apply filter_length_lt with (r, c).
  - intros [r' c'] H'. destruct (decide (r = r' ∧ c = c')) as [[<- <-]|Hne].
    + rewrite cell_setCell_eq in H' by done. lia.
    + rewrite cell_setCell_ne in H'
        by (destruct (decide (r = r')) as [->|]; [right; intros ->; by apply Hne|by left]).
      done.
  - by apply in_all_positions.
  - lia.
  - rewrite cell_setCell_eq by done. lia.
Qed.

Lemma cell_setCell (g : Grid) r c v r' c' :
  wf_grid g → r < 9 → c < 9 →
  cell (setCell g r c v) r' c' = if decide (r = r' ∧ c = c') then v else cell g r' c'.
Proof.
  intros Hwf Hr Hc. destruct (decide _) as [[<- <-]|Hne].
  - by apply cell_setCell_eq.
  - apply cell_setCell_ne. destruct (decide (r = r')) as [->|]; [right; intros ->; by apply Hne|by left].
Qed.

(** Writing a valid digit into an empty cell keeps the grid a partial grid
    without conflicts. *)
Lemma partial_ok_setCell (g : Grid) r c n :
  partial_ok g → r < 9 → c < 9 → cell g r c = 0%Z → (1 ≤ n ≤ 9)%Z →
  isValidPlacement g r c n = true → partial_ok (setCell g r c n).
Proof.
  intros (Hwf & Hdig & Hnc) Hr Hc Hz Hn Hvalid.
  apply isValidPlacement_spec in Hvalid as [?|Hvalid]; [lia| |done..].
  split_and!.
  - by apply wf_setCell.
  - intros r' c' Hr' Hc'. rewrite cell_setCell by done.
    destruct (decide _); [lia|by apply Hdig].
  - intros r1 c1 r2 c2 Hr1 Hc1 Hr2 Hc2 Hrel. rewrite !cell_setCell by done.
    destruct (decide (r = r1 ∧ c = c1)) as [[<- <-]|H1];
      destruct (decide (r = r2 ∧ c = c2)) as [[<- <-]|H2].
    + destruct Hrel as [[?|?] _]; done.
    + intros _ Heq. by apply (Hvalid r2 c2).
    + intros Hnz Heq. apply related_sym in Hrel. by apply (Hvalid r1 c1).
    + by apply Hnc.
Qed.

Lemma solution_of_setCell (g h : Grid) r c :
  wf_grid g → r < 9 → c < 9 → cell g r c = 0%Z →
  solution_of g h ↔
  ∃ n, In n digits ∧ isValidPlacement g r c n = true
       ∧ solution_of (setCell g r c n) h.
Proof.
  intros Hwf Hr Hc Hz. split.
  - intros (Hwfh & Hcomp & Hnc & Hext). exists (cell h r c).
    pose proof (Hcomp r c Hr Hc) as Hrange. split_and!.
    + by apply in_digits.
    + apply isValidPlacement_spec; [done..|]. right.
      intros r' c' Hr' Hc' Hrel Heq.
      assert (Hh : cell h r' c' = cell g r' c') by (apply Hext; [done..|lia]).
      apply (Hnc r c r' c'); [done..|lia|congruence].
    + split_and!; try done. intros r' c' Hr' Hc'. rewrite cell_setCell by done.
      destruct (decide _) as [[<- <-]|]; [done|by apply Hext].
  - intros (n & Hn & Hvalid & Hwfh & Hcomp & Hnc & Hext).
    split_and!; try done. intros r' c' Hr' Hc' Hnz.
    specialize (Hext r' c' Hr' Hc'). rewrite cell_setCell in Hext by done.
    destruct (decide _) as [[<- <-]|]; [done|by apply Hext].
Qed.

Lemma solution_of_setCell_value (g h : Grid) r c n :
  wf_grid g → r < 9 → c < 9 → n ≠ 0%Z →
  solution_of (setCell g r c n) h → cell h r c = n.
Proof.
  intros Hwf Hr Hc Hn (_ & _ & _ & Hext).
  specialize (Hext r c Hr Hc). rewrite cell_setCell_eq in Hext by done. auto.
Qed.

Lemma NoDup_flat_map {A B} (f : A → list B) (l : list A) :
  List.NoDup l →
  (∀ x, In x l → List.NoDup (f x)) →
  (∀ x y b, In x l → In y l → In b (f x) → In b (f y) → x = y) →
  List.NoDup (flat_map f l).
Proof.
  induction l as [|a l IH]; intros Hnd Hf Hdisj; simpl; [constructor|].
  apply NoDup_cons_iff in Hnd as [Ha Hnd].
  apply NoDup_ListNoDup, NoDup_app. split_and!.
  - apply NoDup_ListNoDup, Hf. now left.
  - intros b Hb%list_elem_of_In Hb'%list_elem_of_In.
    apply in_flat_map in Hb' as (y & Hy & Hby).
    assert (a = y) by (apply (Hdisj a y b); simpl; auto). congruence.
  - apply NoDup_ListNoDup, IH; [done|..].
    + intros x Hx. apply Hf. now right.
    + intros x y b Hx Hy. apply Hdisj; now right.
Qed.

Lemma allSolutions_S (fuel : nat) (g : Grid) :
  allSolutions (S fuel) g =
  match findEmpty g with
  | Some (row, col) =>
      flat_map (fun num => if isValidPlacement g row col num
                           then allSolutions fuel (setCell g row col num)
                           else [])
               digits
  | None => [g]
  end.
Proof. reflexivity. Qed.

(** [allSolutions] lists each completion of a partial grid exactly once. *)
Lemma allSolutions_spec (fuel : nat) : ∀ g : Grid,
  partial_ok g → length (emptyCells g) < fuel →
  List.NoDup (allSolutions fuel g) ∧
  ∀ h, In h (allSolutions fuel g) ↔ solution_of g h.
Proof.
  induction fuel as [|fuel IH]; intros g Hok Hfuel; [lia|].
  rewrite allSolutions_S. destruct Hok as (Hwf & Hdig & Hnc).
  destruct (findEmpty g) as [[r c]|] eqn:Hfind.
  - apply findEmpty_Some in Hfind as (Hr & Hc & Hz).
    assert (Hsub : ∀ n, In n digits → isValidPlacement g r c n = true →
              List.NoDup (allSolutions fuel (setCell g r c n)) ∧
              ∀ h, In h (allSolutions fuel (setCell g r c n))
                   ↔ solution_of (setCell g r c n) h).
    { intros n Hn%in_digits Hvalid. apply IH.
      - by apply partial_ok_setCell.
      - pose proof (emptyCells_setCell g r c n Hwf Hr Hc Hz). lia. }
    split.
    + apply NoDup_flat_map.
      * apply NoDup_ListNoDup.
        apply (bool_decide_unpack (NoDup digits)). vm_compute. exact I.
      * intros n Hn. destruct (isValidPlacement g r c n) eqn:Hvalid;
          [by apply Hsub|constructor].
      * intros n m h Hn Hm Hhn Hhm.
        destruct (isValidPlacement g r c n) eqn:Hvn; [|destruct Hhn].
        destruct (isValidPlacement g r c m) eqn:Hvm; [|destruct Hhm].
        apply (Hsub n Hn Hvn) in Hhn. apply (Hsub m Hm Hvm) in Hhm.
        apply in_digits in Hn, Hm.
        apply solution_of_setCell_value in Hhn; [|done..|lia].
        apply solution_of_setCell_value in Hhm; [|done..|lia]. congruence.
    + intros h. rewrite in_flat_map, (solution_of_setCell g h r c) by done.
      split; intros (n & Hn & H).
      * destruct (isValidPlacement g r c n) eqn:Hvalid; [|destruct H].
        exists n. split_and!; try done. by apply Hsub.
      * destruct H as [Hvalid H]. exists n. split; [done|].
        rewrite Hvalid. by apply Hsub.
  - pose proof Hfind as Hfull. rewrite findEmpty_None in Hfull.
    split; [repeat constructor; simpl; tauto|].
    intros h. simpl. split.
    + intros [<-|[]]. split_and!; try done.
      intros r c Hr Hc. specialize (Hdig r c Hr Hc).
      specialize (Hfull r c Hr Hc). lia.
    + intros (Hwfh & _ & _ & Hext). left. apply grid_ext; [done..|].
      intros r c Hr Hc. symmetry. apply Hext; auto.
Qed.

End Search.

(** ** The random source and the shuffle *)

Section RandomSource.

Context {host : Host}.

Lemma to_uint32_range z : (0 ≤ to_uint32 z < 2 ^ 32)%Z.
Proof. unfold to_uint32. apply Z.mod_pos_bound. lia. Qed.

Lemma lxor_range a b n :
  (0 ≤ n)%Z → (0 ≤ a < 2 ^ n)%Z → (0 ≤ b < 2 ^ n)%Z → (0 ≤ Z.lxor a b < 2 ^ n)%Z.
Proof.
  intros Hn Ha Hb. split; [apply Z.lxor_nonneg; lia|].
  destruct (Z.eq_dec (Z.lxor a b) 0%Z) as [->|Hnz]; [lia|].
  assert (Hpos : (0 < n)%Z).
  { destruct (Z.eq_dec n 0%Z) as [->|]; [|lia].
    assert (a = 0%Z) as -> by lia. assert (b = 0%Z) as -> by lia. done. }
  apply Z.log2_lt_pow2; [pose proof (Z.lxor_nonneg a b); lia|].
  eapply Z.le_lt_trans; [apply Z.log2_lxor; lia|].
  apply Z.max_lub_lt.
  - destruct (Z.eq_dec a 0%Z) as [->|]; [simpl; lia|apply Z.log2_lt_pow2; lia].
  - destruct (Z.eq_dec b 0%Z) as [->|]; [simpl; lia|apply Z.log2_lt_pow2; lia].
Qed.

Lemma shiftr_range a k n :
  (0 ≤ k)%Z → (0 ≤ a < 2 ^ n)%Z → (0 ≤ Z.shiftr a k < 2 ^ n)%Z.
Proof.
  intros Hk Ha. rewrite Z.shiftr_div_pow2 by done. split.
  - apply Z.div_pos; lia.
  - eapply Z.le_lt_trans; [|apply Ha].
    apply Z.div_le_upper_bound; [lia|]. nia.
Qed.

Lemma mulberry32_range seed : in_unit_interval (fst (mulberry32 seed)).
Proof.
  unfold mulberry32. cbv zeta. simpl fst.
  set (t1 := imul _ _).
  set (t2 := Z.lxor t1 _).
  assert (H1 : (0 ≤ t1 < 2 ^ 32)%Z) by apply to_uint32_range.
  assert (H2 : (0 ≤ t2 < 2 ^ 32)%Z).
  { apply lxor_range; [lia|done|apply to_uint32_range]. }
  assert (H3 : (0 ≤ Z.lxor t2 (Z.shiftr t2 14) < 2 ^ 32)%Z).
  { apply lxor_range; [lia|done|apply shiftr_range; [lia|done]]. }
  unfold in_unit_interval, Qle, Qlt. simpl. lia.
Qed.

Lemma callRandomFn_range (w : World host) :
  draws_in_range w →
  ∃ x w', callRandomFn w = Some (x, w') ∧ in_unit_interval x ∧
          draws_in_range w'.
Proof.
  unfold draws_in_range, callRandomFn. destruct (randomFn w) as [|seed].
  - intros H. pose proof (H (mathState w)) as Hx.
    destruct (Math_random host (mathState w)) as [x m].
    eexists _, _. split; [reflexivity|]. split; [exact Hx|]. exact H.
  - intros _. pose proof (mulberry32_range seed) as H.
    destruct (mulberry32 seed) as [x seed'].
    eexists _, _. split; [reflexivity|]. split; [exact H|]. exact I.
Qed.

(** [Math.floor(x * n)] is an index below [n] when [x] is in [0,1). *)
Lemma floor_index (x : Q) (n : nat) :
  in_unit_interval x → 0 < n →
  Z.to_nat (Qfloor (x * inject_Z (Z.of_nat n))) < n.
Proof.
  intros [H0 H1] Hn.
  assert (Hk : (0 < inject_Z (Z.of_nat n))%Q).
  { unfold Qlt. simpl. lia. }
  assert (Hlo : (0 ≤ Qfloor (x * inject_Z (Z.of_nat n)))%Z).
  { change 0%Z with (Qfloor 0). apply Qfloor_resp_le.
    apply Qmult_le_0_compat; [done|]. by apply Qlt_le_weak. }
  assert (Hhi : (Qfloor (x * inject_Z (Z.of_nat n)) < Z.of_nat n)%Z).
  { rewrite Zlt_Qlt. eapply Qle_lt_trans; [apply Qfloor_le|].
    eapply Qlt_le_trans; [apply Qmult_lt_compat_r; [exact Hk|exact H1]|].
    rewrite Qmult_1_l. apply Qle_refl. }
  lia.
Qed.

Lemma insert_swap_Permutation {A} (l : list A) j (a b : A) :
  l !! j = Some b → b :: <[j := a]> l ≡ₚ a :: l.
Proof.
  revert j. induction l as [|x l IH]; intros [|j] Hj; simpl in *; try done.
  - injection Hj as ->. apply perm_swap.
  - rewrite (perm_swap x b), (IH j Hj). apply perm_swap.
Qed.

Lemma swap_Permutation {A} (l l' : list A) i j :
  swap l i j = Some l' → l' ≡ₚ l.
Proof.
  unfold swap. destruct (l !! i) as [a|] eqn:Hi; [|done].
  destruct (l !! j) as [b|] eqn:Hj; [|done]. intros [= <-].
  revert i j Hi Hj. induction l as [|x l IH]; intros [|i] [|j] Hi Hj;
    simpl in *; try done.
  - injection Hi as ->. by injection Hj as ->.
  - injection Hi as ->. by apply insert_swap_Permutation.
  - injection Hj as ->. by apply insert_swap_Permutation.
  - by rewrite (IH i j).
Qed.

Lemma shuffleLoop_Permutation {A} (i : nat) : ∀ (result : list A) (w : World host),
  i < length result → draws_in_range w →
  ∃ l' w', shuffleLoop i result w = Some (l', w') ∧ l' ≡ₚ result ∧
           draws_in_range w'.
Proof.
  induction i as [|i IH]; intros result w Hi Hw; simpl.
  - by exists result, w.
  - unfold bind at 1.
    destruct (callRandomFn_range w Hw) as (x & w1 & -> & Hx & Hw1).
    pose proof (floor_index x (S i + 1) Hx ltac:(lia)) as Hj.
    set (j := Z.to_nat _) in *.
    destruct (result !! S i) as [a|] eqn:Ha.
    2: { apply lookup_ge_None in Ha. lia. }
    destruct (result !! j) as [b|] eqn:Hb.
    2: { apply lookup_ge_None in Hb. lia. }
    unfold bind, lift. unfold swap at 1. rewrite Ha, Hb.
    assert (Hsw : swap result (S i) j = Some (<[j := a]> (<[S i := b]> result)))
      by (unfold swap; by rewrite Ha, Hb).
    destruct (IH (<[j := a]> (<[S i := b]> result)) w1) as (l' & w' & Heq & Hp & Hw').
    { rewrite !length_insert. lia. }
    { done. }
    exists l', w'. split_and!; try done.
    rewrite Hp. by eapply swap_Permutation.
Qed.

(** The shuffle returns a permutation of its argument. *)
Lemma shuffleArray_Permutation {A} (array : list A) (w : World host) :
  draws_in_range w →
  ∃ l' w', shuffleArray array w = Some (l', w') ∧ l' ≡ₚ array ∧
           draws_in_range w'.
Proof.
  intros Hw. unfold shuffleArray. destruct array as [|a array].
  - simpl. by exists [], w.
  - apply shuffleLoop_Permutation; [simpl; lia|done].
Qed.

End RandomSource.

(** ** Filling a grid *)

Section FillGrid.

Context {host : Host}.

Lemma setCell_restore (g : Grid) r c n :
  cell g r c = 0%Z → setCell (setCell g r c n) r c 0%Z = g.
Proof. intros Hz. rewrite setCell_setCell, <- Hz. apply setCell_cell_id. Qed.

(** The loop over the shuffled digits: it stops at the first digit whose
    branch fills the grid, and otherwise leaves the grid as it found it. *)
Lemma tryNumbers_spec (fuel : nat) (g : Grid) r c :
  wf_grid g → r < 9 → c < 9 → cell g r c = 0%Z →
  (∀ (g1 : Grid) (w : World host),
      wf_grid g1 → length (emptyCells g1) < fuel → draws_in_range w →
      ∃ b g' w', fillGrid fuel g1 w = Some ((b, g'), w') ∧ draws_in_range w' ∧
                 (b = true → In g' (allSolutions fuel g1)) ∧
                 (b = false → g' = g1 ∧ allSolutions fuel g1 = [])) →
  length (emptyCells g) ≤ fuel →
  ∀ (numbers : list Z) (w : World host),
    (∀ n, In n numbers → In n digits) → draws_in_range w →
    ∃ b g' w',
      tryNumbers (fillGrid fuel) r c numbers g w = Some ((b, g'), w') ∧
      draws_in_range w' ∧
      (b = true → ∃ n, In n numbers ∧ isValidPlacement g r c n = true
                       ∧ In g' (allSolutions fuel (setCell g r c n))) ∧
      (b = false → g' = g ∧
                   ∀ n, In n numbers → isValidPlacement g r c n = true →
                        allSolutions fuel (setCell g r c n) = []).
Proof.
  intros Hwf Hr Hc Hz IH Hfuel numbers.
  induction numbers as [|num numbers IHn]; intros w Hdig Hw; simpl.
  - exists false, g, w. split_and!; try done.
    all: intros _; split; [done|]; by intros n [].
  - assert (Hnum : In num digits) by (apply Hdig; now left).
    assert (Hrest : ∀ n, In n numbers → In n digits)
      by (intros n Hn; apply Hdig; now right).
    destruct (isValidPlacement g r c num) eqn:Hvalid.
    + apply in_digits in Hnum.
      destruct (IH (setCell g r c num) w) as (b & g1 & w1 & Heq & Hw1 & Ht & Hf).
      { by apply wf_setCell. }
      { pose proof (emptyCells_setCell g r c num Hwf Hr Hc Hz). lia. }
      { done. }
      unfold bind at 1. rewrite Heq. destruct b.
      * exists true, g1, w1. split_and!; try done.
        intros _. exists num. split_and!; [now left|done|by apply Ht].
      * destruct (Hf eq_refl) as [-> Hnone]. rewrite (setCell_restore g r c num Hz).
        destruct (IHn w1 Hrest Hw1) as (b & g' & w' & Heq' & Hw' & Ht' & Hf').
        exists b, g', w'. split_and!; try done.
        -- intros Hb. destruct (Ht' Hb) as (n & Hn & Hv & Hin).
           exists n. split_and!; [now right|done..].
        -- intros Hb. destruct (Hf' Hb) as [-> Hall]. split; [done|].
           intros n [<-|Hn] Hv; [done|by apply Hall].
    + destruct (IHn w Hrest Hw) as (b & g' & w' & Heq' & Hw' & Ht' & Hf').
      exists b, g', w'. split_and!; try done.
      * intros Hb. destruct (Ht' Hb) as (n & Hn & Hv & Hin).
        exists n. split_and!; [now right|done..].
      * intros Hb. destruct (Hf' Hb) as [-> Hall]. split; [done|].
        intros n [<-|Hn] Hv; [congruence|by apply Hall].
Qed.

Lemma fillGrid_S (fuel : nat) (g : Grid) :
  fillGrid (host := host) (S fuel) g =
  match findEmpty g with
  | Some (row, col) =>
      bind (shuffleArray digits)
           (fun numbers => tryNumbers (fillGrid fuel) row col numbers g)
  | None => ret (true, g)
  end.
Proof. reflexivity. Qed.

(** [fillGrid] returns: with [true] and a grid the exhaustive search reaches,
    or with [false], the grid unchanged, when the search reaches none. *)
Lemma fillGrid_spec (fuel : nat) : ∀ (g : Grid) (w : World host),
  wf_grid g → length (emptyCells g) < fuel → draws_in_range w →
  ∃ b g' w', fillGrid fuel g w = Some ((b, g'), w') ∧ draws_in_range w' ∧
             (b = true → In g' (allSolutions fuel g)) ∧
             (b = false → g' = g ∧ allSolutions fuel g = []).
Proof.
  induction fuel as [|fuel IH]; intros g w Hwf Hfuel Hw; [lia|].
  rewrite allSolutions_S, fillGrid_S.
  destruct (findEmpty g) as [[r c]|] eqn:Hfind.
  - apply findEmpty_Some in Hfind as (Hr & Hc & Hz).
    destruct (shuffleArray_Permutation digits w Hw) as (numbers & w1 & Hsh & Hperm & Hw1).
    unfold bind. rewrite Hsh.
    assert (Hsub : ∀ n, In n numbers → In n digits).
    { intros n Hn. apply list_elem_of_In. rewrite <- Hperm. by apply list_elem_of_In. }
    destruct (tryNumbers_spec fuel g r c Hwf Hr Hc Hz IH ltac:(lia) numbers w1 Hsub Hw1)
      as (b & g' & w' & Heq & Hw' & Ht & Hf).
    exists b, g', w'. split_and!; try done.
    + intros Hb. destruct (Ht Hb) as (n & Hn & Hv & Hin).
      apply in_flat_map. exists n. split; [by apply Hsub|]. by rewrite Hv.
    + intros Hb. destruct (Hf Hb) as [-> Hall]. split; [done|].
      destruct (flat_map _ digits) as [|h l] eqn:Hflat; [done|]. exfalso.
      assert (Hin : In h (h :: l)) by now left. rewrite <- Hflat in Hin.
      apply in_flat_map in Hin as (n & Hn & Hin).
      destruct (isValidPlacement g r c n) eqn:Hv; [|destruct Hin].
      rewrite Hall in Hin; [destruct Hin| |done].
      apply list_elem_of_In. rewrite Hperm. by apply list_elem_of_In.
  - exists true, g, w. split_and!; try done. intros _. now left.
Qed.

Lemma createEmptyGrid_partial_ok : partial_ok createEmptyGrid.
Proof.
  split_and!.
  - apply wf_createEmptyGrid.
  - intros r c _ _. rewrite cell_createEmptyGrid. lia.
  - intros r c r' c' _ _ _ _ _. by rewrite cell_createEmptyGrid.
Qed.

Lemma solution_of_createEmptyGrid (h : Grid) :
  solution_of createEmptyGrid h ↔ wf_grid h ∧ complete h ∧ no_conflicts h.
Proof.
  unfold solution_of, extends. split; [tauto|]. intros (? & ? & ?).
  split_and!; try done. intros r c _ _. by rewrite cell_createEmptyGrid.
Qed.

Lemma fillGrid_createEmptyGrid (fuel : nat) (w : World host) :
  81 < fuel → draws_in_range w →
  ∃ g w', fillGrid fuel createEmptyGrid w = Some ((true, g), w') ∧
          draws_in_range w' ∧ wf_grid g ∧ complete g ∧ no_conflicts g.
Proof.
  intros Hfuel81 Hw.
  assert (Hfuel : length (emptyCells createEmptyGrid) < fuel).
  { pose proof (emptyCells_le_81 createEmptyGrid). lia. }
  destruct (fillGrid_spec fuel createEmptyGrid w wf_createEmptyGrid Hfuel Hw)
    as (b & g & w' & Heq & Hw' & Ht & Hf).
  pose proof (allSolutions_spec fuel createEmptyGrid
                createEmptyGrid_partial_ok Hfuel) as [_ Hsol].
  destruct b.
  - exists g, w'. specialize (Ht eq_refl).
    apply Hsol, solution_of_createEmptyGrid in Ht as (H1 & H2 & H3).
    split; [exact Heq|]. split; [exact Hw'|]. split; [exact H1|].
    split; [exact H2|exact H3].
  - destruct (Hf eq_refl) as [_ Hnone]. exfalso.
    assert (Hin : In sample_solution (allSolutions fuel createEmptyGrid)).
    { apply Hsol, solution_of_createEmptyGrid.
      split; [apply sample_solution_wf|].
      split; [apply sample_solution_complete|apply sample_solution_no_conflicts]. }
    rewrite Hnone in Hin. destruct Hin.
Qed.

Lemma generateCompleteGrid_spec (w : World host) :
  draws_in_range w →
  ∃ g w', generateCompleteGrid w = Some (g, w') ∧ draws_in_range w' ∧
          fillGrid recursionBound createEmptyGrid w = Some ((true, g), w') ∧
          wf_grid g ∧ complete g ∧ no_conflicts g.
Proof.
  intros Hw. unfold generateCompleteGrid, bind.
  destruct (fillGrid_createEmptyGrid recursionBound w) as (g & w' & Heq & Hw' & H1 & H2 & H3).
  { unfold recursionBound. lia. }
  { exact Hw. }
  exists g, w'. rewrite Heq.
  split; [reflexivity|]. split; [exact Hw'|]. split; [reflexivity|].
  split; [exact H1|]. split; [exact H2|exact H3].
Qed.

End FillGrid.

(** ** Counting solutions *)

Section CountSolutions.

Lemma countSolutions_S (fuel : nat) (g : Grid) (count : nat) :
  countSolutions (S fuel) g count =
  if 1 <? count then Some (count, g)
  else match findEmpty g with
       | Some (row, col) => countNumbers (countSolutions fuel) row col digits g count
       | None => Some (count + 1, g)
       end.
Proof. reflexivity. Qed.

(** The loop over the digits adds the solutions of each valid branch to the
    counter, stops once the counter exceeds 1, and leaves the grid as it
    found it. *)
Lemma countNumbers_spec (fuel : nat) (g : Grid) r c :
  wf_grid g → r < 9 → c < 9 → cell g r c = 0%Z →
  (∀ (g1 : Grid) count,
      wf_grid g1 → length (emptyCells g1) < fuel → count ≤ 1 →
      countSolutions fuel g1 count
      = Some (Nat.min 2 (count + length (allSolutions fuel g1)), g1)) →
  length (emptyCells g) ≤ fuel →
  ∀ (numbers : list Z) count,
    (∀ n, In n numbers → In n digits) → count ≤ 1 →
    countNumbers (countSolutions fuel) r c numbers g count
    = Some (Nat.min 2 (count + length
              (flat_map (fun num => if isValidPlacement g r c num
                                    then allSolutions fuel (setCell g r c num)
                                    else [])
                        numbers)),
            g).
Proof.
  intros Hwf Hr Hc Hz IH Hfuel numbers.
  induction numbers as [|num numbers IHn]; intros count Hdig Hcount.
  - cbn [countNumbers flat_map length].
    replace (Nat.min 2 (count + 0)) with count by lia. done.
  - assert (Hnum : In num digits) by (apply Hdig; now left).
    assert (Hrest : ∀ n, In n numbers → In n digits)
      by (intros n Hn; apply Hdig; now right).
    cbn [countNumbers flat_map].
    destruct (isValidPlacement g r c num) eqn:Hvalid.
    + apply in_digits in Hnum. rewrite IH; [|by apply wf_setCell| |done].
      2: { pose proof (emptyCells_setCell g r c num Hwf Hr Hc Hz). lia. }
      rewrite (setCell_restore g r c num Hz), length_app.
      destruct (Nat.ltb_spec 1 (Nat.min 2 (count + length (allSolutions fuel (setCell g r c num)))))
        as [Hgt|Hle].
      * f_equal. f_equal. lia.
      * rewrite IHn by (done || lia). f_equal. f_equal. lia.
    + by rewrite IHn.
Qed.

(** [countSolutions] adds to the counter the number of grids the exhaustive
    search reaches, up to the cut at 2, and restores the grid. *)
Lemma countSolutions_spec (fuel : nat) : ∀ (g : Grid) count,
  wf_grid g → length (emptyCells g) < fuel → count ≤ 1 →
  countSolutions fuel g count
  = Some (Nat.min 2 (count + length (allSolutions fuel g)), g).
Proof.
  induction fuel as [|fuel IH]; intros g count Hwf Hfuel Hcount; [lia|].
  rewrite countSolutions_S, allSolutions_S.
  destruct (Nat.ltb_spec 1 count) as [?|_]; [lia|].
  destruct (findEmpty g) as [[r c]|] eqn:Hfind.
  - apply findEmpty_Some in Hfind as (Hr & Hc & Hz).
    apply countNumbers_spec; try done. lia.
  - cbn [length]. f_equal. f_equal. lia.
Qed.

Lemma hasUniqueSolution_spec (g : Grid) :
  wf_grid g →
  hasUniqueSolution g
  = Some (length (allSolutions recursionBound g) =? 1).
Proof.
  intros Hwf. unfold hasUniqueSolution. rewrite cloneGrid_id.
  rewrite countSolutions_spec; [|done| |lia].
  2: { pose proof (emptyCells_le_81 g). unfold recursionBound. lia. }
  f_equal. generalize (length (allSolutions recursionBound g)). intros n.
  destruct (Nat.eqb_spec n 1) as [->|Hn]; [done|].
  apply Nat.eqb_neq. lia.
Qed.

(** The meaning of the test: the puzzle has exactly one completion. *)
Lemma hasUniqueSolution_true (g : Grid) :
  partial_ok g →
  hasUniqueSolution g = Some true ↔
  ∃ h, solution_of g h ∧ ∀ h', solution_of g h' → h' = h.
Proof.
  intros Hok. pose proof Hok as (Hwf & _).
  rewrite hasUniqueSolution_spec by done.
  destruct (allSolutions_spec recursionBound g Hok) as [Hnd Hsol].
  { pose proof (emptyCells_le_81 g). unfold recursionBound. lia. }
  revert Hnd Hsol. generalize (allSolutions recursionBound g). intros L Hnd Hsol.
  split.
  - intros [= Hlen%Nat.eqb_eq]. destruct L as [|h [|? ?]]; try done.
    exists h. split; [apply Hsol; now left|].
    intros h' Hh'%Hsol. destruct Hh' as [<-|[]]. done.
  - intros (h & Hh & Huniq). f_equal. apply Nat.eqb_eq.
    destruct L as [|h1 [|h2 L]]; simpl.
    + apply Hsol in Hh. destruct Hh.
    + done.
    + exfalso. assert (h1 = h) by (apply Huniq, Hsol; simpl; auto).
      assert (h2 = h) by (apply Huniq, Hsol; simpl; auto).
      subst. apply NoDup_cons_iff in Hnd as [Hnin _]. apply Hnin. now left.
Qed.

Lemma countNumbers_mono (rec1 rec2 : Grid → nat → option (nat * Grid)) r c :
  (∀ g count res, rec1 g count = Some res → rec2 g count = Some res) →
  ∀ numbers g count res,
    countNumbers rec1 r c numbers g count = Some res →
    countNumbers rec2 r c numbers g count = Some res.
Proof.
  intros Hrec numbers. induction numbers as [|num numbers IH]; intros g count res;
    cbn [countNumbers]; [done|].
  destruct (isValidPlacement g r c num); [|apply IH].
  destruct (rec1 (setCell g r c num) count) as [[count1 g1]|] eqn:H1; [|done].
  rewrite (Hrec _ _ _ H1). destruct (1 <? count1); [done|apply IH].
Qed.

Lemma countSolutions_mono (fuel : nat) : ∀ (g : Grid) count res,
  countSolutions fuel g count = Some res →
  countSolutions (S fuel) g count = Some res.
Proof.
  induction fuel as [|fuel IH]; intros g count res; [done|].
  rewrite (countSolutions_S (S fuel)), (countSolutions_S fuel).
  destruct (1 <? count); [done|].
  destruct (findEmpty g) as [[r c]|]; [|done].
  apply countNumbers_mono. exact IH.
Qed.

Lemma countSolutions_mono_le (fuel fuel' : nat) (g : Grid) count res :
  fuel ≤ fuel' → countSolutions fuel g count = Some res →
  countSolutions fuel' g count = Some res.
Proof.
  induction 1 as [|fuel' _ IH]; [done|]. intros H. by apply countSolutions_mono, IH.
Qed.

End CountSolutions.

(** ** Carving *)

Section Carving.

Context {host : Host}.

Lemma extends_partial_ok (puzzle solution : Grid) :
  wf_grid puzzle → extends puzzle solution →
  complete solution → no_conflicts solution → partial_ok puzzle.
Proof.
  intros Hwf Hext Hcomp Hnc. split_and!; [done| |].
  - intros r c Hr Hc. destruct (decide (cell puzzle r c = 0%Z)) as [->|Hnz]; [lia|].
    rewrite <- (Hext r c Hr Hc Hnz). specialize (Hcomp r c Hr Hc). lia.
  - intros r c r' c' Hr Hc Hr' Hc' Hrel Hnz Heq.
    assert (Hnz' : cell puzzle r' c' ≠ 0%Z) by congruence.
    apply (Hnc r c r' c'); try done.
    + rewrite (Hext r c Hr Hc Hnz). done.
    + rewrite (Hext r c Hr Hc Hnz), (Hext r' c' Hr' Hc' Hnz'). done.
Qed.

Lemma filter_length_le_succ {A} `{EqDecision A} (f f' : A → bool) (l : list A) x :
  List.NoDup l → (∀ y, y ≠ x → f y = f' y) →
  length (List.filter f l) ≤ length (List.filter f' l) + 1.
Proof.
  intros Hnd Hsame.
  assert (Hrest : ∀ l', ¬ In x l' → List.filter f l' = List.filter f' l').
  { induction l' as [|a l' IH]; intros Hnin; simpl; [done|].
    rewrite (Hsame a) by (intros ->; apply Hnin; now left).
    rewrite IH by (intros Hin; apply Hnin; now right). done. }
  induction l as [|a l IH]; simpl; [lia|].
  apply NoDup_cons_iff in Hnd as [Hnin Hnd].
  destruct (decide (a = x)) as [->|Hne].
  - rewrite (Hrest l Hnin). destruct (f x), (f' x); simpl; lia.
  - rewrite (Hsame a Hne). specialize (IH Hnd). destruct (f' a); simpl; lia.
Qed.

Lemma countClues_setCell (g : Grid) r c v :
  wf_grid g → r < 9 → c < 9 →
  countClues g ≤ countClues (setCell g r c v) + 1.
Proof.
  intros Hwf Hr Hc. unfold countClues.
  apply filter_length_le_succ with (r, c).
  - apply NoDup_ListNoDup, NoDup_all_positions.
  - intros [r' c'] Hne. rewrite cell_setCell by done.
    destruct (decide _) as [[<- <-]|]; done.
Qed.

Lemma countClues_complete (g : Grid) : complete g → countClues g = 81.
Proof.
  intros Hcomp. unfold countClues.
  assert (Hall : List.filter (fun '(row, col) => negb (cell g row col =? 0)%Z)
                             all_positions = all_positions).
  { apply forallb_filter_id, forallb_forall. intros [r c] [Hr Hc]%in_all_positions.
    specialize (Hcomp r c Hr Hc). apply negb_true_iff, Z.eqb_neq. lia. }
  rewrite Hall. reflexivity.
Qed.

Lemma solution_of_self (g : Grid) :
  wf_grid g → complete g → no_conflicts g → unique_solution g g.
Proof.
  intros Hwf Hcomp Hnc. split.
  - split_and!; (done || by intros r c _ _ _).
  - intros h (Hwfh & _ & _ & Hext). apply grid_ext; [done..|].
    intros r c Hr Hc. apply Hext; [done..|]. specialize (Hcomp r c Hr Hc). lia.
Qed.

Lemma removeLoop_spec (solution : Grid) (target : nat) (positions : list Position) :
  (∀ r c, In (r, c) positions → r < 9 ∧ c < 9) →
  ∀ (puzzle : Grid) removed,
    carved solution puzzle removed → removed ≤ target →
    ∃ puzzle' removed',
      removeLoop positions target puzzle removed = Some (puzzle', removed') ∧
      carved solution puzzle' removed' ∧ removed' ≤ target.
Proof.
  induction positions as [|[r c] positions IH]; intros Hpos puzzle removed Hinv Hrem.
  - by exists puzzle, removed.
  - cbn [removeLoop]. destruct (Nat.leb_spec target removed) as [_|Hlt].
    { by exists puzzle, removed. }
    destruct (Hpos r c ltac:(now left)) as [Hr Hc].
    assert (Hpos' : ∀ r c, In (r, c) positions → r < 9 ∧ c < 9)
      by (intros; apply Hpos; now right).
    destruct Hinv as (Hwf & Hwfs & Hcomp & Hnc & Hext & [Hsol Huniq] & Hcount).
    set (puzzle1 := setCell puzzle r c 0%Z).
    assert (Hwf1 : wf_grid puzzle1) by by apply wf_setCell.
    assert (Hext1 : extends puzzle1 solution).
    { intros r' c' Hr' Hc'. unfold puzzle1. rewrite cell_setCell by done.
      destruct (decide _); [done|by apply Hext]. }
    rewrite (hasUniqueSolution_spec puzzle1 Hwf1).
    destruct (length (allSolutions recursionBound puzzle1) =? 1) eqn:Hu;
      cbn [negb].
    + apply IH; [done| |lia]. split_and!; try done.
      * split; [by split_and!|].
        pose proof (extends_partial_ok _ _ Hwf1 Hext1 Hcomp Hnc) as Hok1.
        assert (Htrue : hasUniqueSolution puzzle1 = Some true)
          by (rewrite hasUniqueSolution_spec by done; by rewrite Hu).
        apply (hasUniqueSolution_true puzzle1 Hok1) in Htrue as (h & Hh & Hhu).
        intros h' Hh'. rewrite (Hhu h' Hh'). symmetry. apply Hhu. by split_and!.
      * pose proof (countClues_setCell puzzle r c 0%Z Hwf Hr Hc). fold puzzle1 in H.
        lia.
    + unfold puzzle1. rewrite setCell_setCell, setCell_cell_id.
      apply IH; [done| |lia]. by split_and!.
Qed.

Lemma in_range_Permutation (positions : list Position) :
  positions ≡ₚ all_positions → ∀ r c, In (r, c) positions → r < 9 ∧ c < 9.
Proof.
  intros Hperm r c Hin. apply in_all_positions, list_elem_of_In.
  rewrite <- Hperm. by apply list_elem_of_In.
Qed.

Lemma removeCells_spec (solution : Grid) (difficulty : Difficulty) (w : World host) :
  wf_grid solution → complete solution → no_conflicts solution →
  draws_in_range w →
  ∃ puzzle removed w',
    removeCells solution difficulty w = Some ((puzzle, removed), w') ∧
    draws_in_range w' ∧ carved solution puzzle removed ∧
    removed ≤ targetRemoved difficulty.
Proof.
  intros Hwf Hcomp Hnc Hw. unfold removeCells, bind. rewrite cloneGrid_id.
  destruct (shuffleArray_Permutation all_positions w Hw)
    as (positions & w1 & -> & Hperm & Hw1).
  destruct (removeLoop_spec solution (targetRemoved difficulty) positions
              (in_range_Permutation positions Hperm) solution 0)
    as (puzzle & removed & Heq & Hinv & Hrem).
  { split_and!; try done.
    all: first [ by intros r c _ _ _ | by apply solution_of_self
               | rewrite countClues_complete by done; lia ]. }
  { lia. }
  exists puzzle, removed, w1. unfold lift. rewrite Heq. by split_and!.
Qed.

Lemma generateAttempts_spec (difficulty : Difficulty) (fuel : nat) :
  ∀ attempts (w : World host), draws_in_range w →
  ∃ r w', generateAttempts fuel attempts difficulty w = Some (r, w') ∧
          draws_in_range w' ∧
          match r with
          | Some (puzzle, solution) => generated difficulty puzzle solution
          | None => True
          end.
Proof.
  induction fuel as [|fuel IH]; intros attempts w Hw.
  - by exists None, w.
  - cbn [generateAttempts]. unfold bind at 1.
    destruct (generateCompleteGrid_spec w Hw)
      as (solution & w1 & -> & Hw1 & _ & Hwf & Hcomp & Hnc).
    unfold bind at 1.
    destruct (removeCells_spec solution difficulty w1 Hwf Hcomp Hnc Hw1)
      as (puzzle & removed & w2 & -> & Hw2 & Hinv & Hrem).
    destruct (_ || _).
    { exists (Some (puzzle, solution)), w2. split_and!; try done. by exists removed. }
    destruct (verifyDifficulty puzzle difficulty).
    { exists (Some (puzzle, solution)), w2. split_and!; try done. by exists removed. }
    by apply IH.
Qed.

Lemma generatePuzzle_spec (difficulty : Difficulty) (w : World host) :
  draws_in_range w →
  ∃ puzzle solution w',
    generatePuzzle difficulty w = Some ((puzzle, solution), w') ∧
    draws_in_range w' ∧ generated difficulty puzzle solution.
Proof.
  intros Hw. unfold generatePuzzle. unfold bind at 1.
  destruct (generateAttempts_spec difficulty maxAttempts 0 w Hw)
    as ([[puzzle solution]|] & w1 & -> & Hw1 & Hgen).
  - by exists puzzle, solution, w1.
  - unfold bind at 1.
    destruct (generateCompleteGrid_spec w1 Hw1)
      as (solution & w2 & -> & Hw2 & _ & Hwf & Hcomp & Hnc).
    unfold bind at 1.
    destruct (removeCells_spec solution difficulty w2 Hwf Hcomp Hnc Hw2)
      as (puzzle & removed & w3 & -> & Hw3 & Hinv & Hrem).
    exists puzzle, solution, w3. split_and!; try done. by exists removed.
Qed.

End Carving.

(** ** The bound on the recursion does not matter *)

Section Fuel.

Context {host : Host}.

Lemma tryNumbers_mono (rec1 rec2 : Grid → Gen host (bool * Grid)) r c :
  (∀ g w res, rec1 g w = Some res → rec2 g w = Some res) →
  ∀ numbers g w res,
    tryNumbers rec1 r c numbers g w = Some res →
    tryNumbers rec2 r c numbers g w = Some res.
Proof.
  intros Hrec numbers. induction numbers as [|num numbers IH]; intros g w res;
    cbn [tryNumbers]; [done|].
  destruct (isValidPlacement g r c num); [|apply IH].
  unfold bind. destruct (rec1 (setCell g r c num) w) as [[[b g1] w1]|] eqn:H1; [|done].
  rewrite (Hrec _ _ _ H1). destruct b; [done|apply IH].
Qed.

Lemma fillGrid_mono (fuel : nat) : ∀ (g : Grid) (w : World host) res,
  fillGrid fuel g w = Some res → fillGrid (S fuel) g w = Some res.
Proof.
  induction fuel as [|fuel IH]; intros g w res; [done|].
  rewrite (fillGrid_S (S fuel)), (fillGrid_S fuel).
  destruct (findEmpty g) as [[r c]|]; [|done].
  unfold bind. destruct (shuffleArray digits w) as [[numbers w1]|]; [|done].
  apply tryNumbers_mono. exact IH.
Qed.

Lemma fillGrid_mono_le (fuel fuel' : nat) (g : Grid) (w : World host) res :
  fuel ≤ fuel' → fillGrid fuel g w = Some res → fillGrid fuel' g w = Some res.
Proof.
  induction 1 as [|fuel' _ IH]; [done|]. intros H. by apply fillGrid_mono, IH.
Qed.

End Fuel.

(** ** The generator: complete grids, puzzles, clue counts *)

(** C5: [generateCompleteGrid] returns, whatever the random source draws: the
    backtracking fill of the empty grid returns [true], for every bound on
    the depth of the recursion above 81, and leaves a 9x9 grid in which every
    cell holds a digit 1..9 and no two equal digits share a row, a column or
    a box. *)
Theorem generateCompleteGrid_total {host : Host} (w : World host) :
  draws_in_range w →
  ∃ g w',
    generateCompleteGrid w = Some (g, w') ∧
    (∀ fuel, 81 < fuel →
             fillGrid fuel createEmptyGrid w = Some ((true, g), w')) ∧
    wf_grid g ∧ complete g ∧ no_conflicts g.
Proof.
  intros Hw.
  destruct (generateCompleteGrid_spec w Hw) as (g & w' & Hgen & _ & Hfill & Hg).
  exists g, w'. split; [exact Hgen|]. split; [|exact Hg].
  intros fuel Hfuel. apply (fillGrid_mono_le recursionBound); [|exact Hfill].
  unfold recursionBound. lia.
Qed.

Lemma draws_in_range_sample_world : draws_in_range sample_world.
Proof. intros m. apply mulberry32_range. Qed.

Lemma generateCompleteGrid_total_witness :
  ∃ g w',
    generateCompleteGrid sample_world = Some (g, w') ∧
    (∀ fuel, 81 < fuel →
             fillGrid fuel createEmptyGrid sample_world = Some ((true, g), w')) ∧
    wf_grid g ∧ complete g ∧ no_conflicts g.
Proof.
  apply (generateCompleteGrid_total sample_world).
  apply draws_in_range_sample_world.
Defined.

(** C1: [generatePuzzle] returns a pair [(puzzle, solution)]: the puzzle
    agrees with the solution on each of its non-zero cells, the solution is a
    completion of the puzzle that satisfies the row, column and box
    constraints, every such completion is the solution, and [countSolutions]
    counts exactly one solution of the puzzle (for every bound on the depth
    of its recursion above 81) and leaves the puzzle as it was. *)
Theorem generatePuzzle_unique_solution {host : Host} (difficulty : Difficulty)
    (w : World host) :
  draws_in_range w →
  ∃ puzzle solution w',
    generatePuzzle difficulty w = Some ((puzzle, solution), w') ∧
    wf_grid puzzle ∧
    (∀ r c, r < 9 → c < 9 → cell puzzle r c ≠ 0%Z →
            cell puzzle r c = cell solution r c) ∧
    solution_of puzzle solution ∧
    (∀ h, solution_of puzzle h → h = solution) ∧
    (∀ fuel, 81 < fuel → countSolutions fuel puzzle 0 = Some (1, puzzle)) ∧
    hasUniqueSolution puzzle = Some true.
Proof.
  intros Hw.
  destruct (generatePuzzle_spec difficulty w Hw)
    as (puzzle & solution & w' & Heq & _ & removed & Hcarved & _).
  destruct Hcarved as (Hwf & Hwfs & Hcomp & Hnc & Hext & [Hsol Huniq] & _).
  exists puzzle, solution, w'.
  pose proof (extends_partial_ok _ _ Hwf Hext Hcomp Hnc) as Hok.
  assert (Htrue : hasUniqueSolution puzzle = Some true).
  { apply hasUniqueSolution_true; [done|]. by exists solution. }
  split; [exact Heq|]. split; [exact Hwf|].
  split; [intros r c Hr Hc Hnz; symmetry; by apply Hext|].
  split; [exact Hsol|]. split; [exact Huniq|]. split; [|exact Htrue].
  intros fuel Hfuel. apply (countSolutions_mono_le recursionBound);
    [unfold recursionBound; lia|].
  rewrite hasUniqueSolution_spec in Htrue by done.
  rewrite countSolutions_spec; [|done| |lia].
  2: { pose proof (emptyCells_le_81 puzzle). unfold recursionBound. lia. }
  revert Htrue. generalize (length (allSolutions recursionBound puzzle)).
  intros n Hn. assert (Hn1 : n = 1) by (apply Nat.eqb_eq; congruence).
  rewrite Hn1. reflexivity.
Qed.

Lemma generatePuzzle_unique_solution_witness :
  ∃ puzzle solution w',
    generatePuzzle hard sample_world = Some ((puzzle, solution), w') ∧
    wf_grid puzzle ∧
    (∀ r c, r < 9 → c < 9 → cell puzzle r c ≠ 0%Z →
            cell puzzle r c = cell solution r c) ∧
    solution_of puzzle solution ∧
    (∀ h, solution_of puzzle h → h = solution) ∧
    (∀ fuel, 81 < fuel → countSolutions fuel puzzle 0 = Some (1, puzzle)) ∧
    hasUniqueSolution puzzle = Some true.
Proof.
  apply (generatePuzzle_unique_solution hard sample_world).
  apply draws_in_range_sample_world.
Defined.

(** C7: the carve step removes at most [81 - floor((min + max) / 2)] cells
    (39, 46 and 53 for easy, medium and hard), so a puzzle returned by
    [generatePuzzle] (by any of its return statements) has at least 42, 35
    or 28 clues, which is at least the minimum of the configured range. *)
Theorem generatePuzzle_clue_count {host : Host} (difficulty : Difficulty)
    (w : World host) :
  draws_in_range w →
  targetRemoved difficulty = 81 - leastClues difficulty ∧
  (∀ solution (w0 : World host),
      wf_grid solution → complete solution → no_conflicts solution →
      draws_in_range w0 →
      ∃ puzzle removed w1,
        removeCells solution difficulty w0 = Some ((puzzle, removed), w1) ∧
        removed ≤ targetRemoved difficulty ∧
        81 - removed ≤ countClues puzzle) ∧
  ∃ puzzle solution w',
    generatePuzzle difficulty w = Some ((puzzle, solution), w') ∧
    leastClues difficulty ≤ countClues puzzle ∧
    min (targetClues difficulty) ≤ countClues puzzle.
Proof.
  intros Hw. split; [by destruct difficulty|]. split.
  - intros solution w0 Hwf Hcomp Hnc Hw0.
    destruct (removeCells_spec solution difficulty w0 Hwf Hcomp Hnc Hw0)
      as (puzzle & removed & w1 & Heq & _ & Hcarved & Hrem).
    exists puzzle, removed, w1. split; [exact Heq|]. split; [exact Hrem|].
    destruct Hcarved as (_ & _ & _ & _ & _ & _ & Hcount). lia.
  - destruct (generatePuzzle_spec difficulty w Hw)
      as (puzzle & solution & w' & Heq & _ & removed & Hcarved & Hrem).
    exists puzzle, solution, w'. split; [exact Heq|].
    destruct Hcarved as (_ & _ & _ & _ & _ & _ & Hcount).
    assert (Ht : targetRemoved difficulty = 81 - leastClues difficulty)
      by by destruct difficulty.
    assert (Hmin : min (targetClues difficulty) ≤ leastClues difficulty)
      by (destruct difficulty; simpl; lia).
    assert (Hleast : leastClues difficulty ≤ 81) by (destruct difficulty; simpl; lia).
    lia.
Qed.

Lemma generatePuzzle_clue_count_witness :
  targetRemoved medium = 81 - leastClues medium ∧
  (∀ solution (w0 : World sample_host),
      wf_grid solution → complete solution → no_conflicts solution →
      draws_in_range w0 →
      ∃ puzzle removed w1,
        removeCells solution medium w0 = Some ((puzzle, removed), w1) ∧
        removed ≤ targetRemoved medium ∧
        81 - removed ≤ countClues puzzle) ∧
  ∃ puzzle solution w',
    generatePuzzle medium sample_world = Some ((puzzle, solution), w') ∧
    leastClues medium ≤ countClues puzzle ∧
    min (targetClues medium) ≤ countClues puzzle.
Proof.
  apply (generatePuzzle_clue_count medium sample_world).
  apply draws_in_range_sample_world.
Defined.

(** ** The daily puzzle *)

Section SeededRuns.

Context {host : Host}.

Lemma seeded_frame_ret {A} (a : A) : seeded_frame (ret (host := host) a).
Proof. intros seed w1 w2 H1 H2. simpl. split_and!; try done. by exists seed. Qed.

Lemma seeded_frame_fail {A} : seeded_frame (fail (host := host) (A := A)).
Proof. by intros seed w1 w2 H1 H2. Qed.

Lemma seeded_frame_lift {A} (o : option A) : seeded_frame (lift (host := host) o).
Proof.
  intros seed w1 w2 H1 H2. unfold lift. destruct o; [|done].
  split_and!; try done. by exists seed.
Qed.

Lemma seeded_frame_bind {A B} (c : Gen host A) (k : A → Gen host B) :
  seeded_frame c → (∀ a, seeded_frame (k a)) → seeded_frame (bind c k).
Proof.
  intros Hc Hk seed w1 w2 H1 H2. unfold bind. specialize (Hc seed w1 w2 H1 H2).
  destruct (c w1) as [[a1 w1']|], (c w2) as [[a2 w2']|]; try done.
  destruct Hc as (<- & (seed' & Hs1 & Hs2) & Hm1 & Hn1 & Hm2 & Hn2).
  specialize (Hk a1 seed' w1' w2' Hs1 Hs2).
  destruct (k a1 w1') as [[b1 w1'']|], (k a1 w2') as [[b2 w2'']|]; try done.
  destruct Hk as (<- & Hs & Hm1' & Hn1' & Hm2' & Hn2').
  split_and!; try done; congruence.
Qed.

Lemma seeded_frame_callRandomFn : seeded_frame (callRandomFn (host := host)).
Proof.
  intros seed w1 w2 H1 H2. unfold callRandomFn. rewrite H1, H2.
  destruct (mulberry32 seed) as [x seed']. simpl. split_and!; try done.
  by exists seed'.
Qed.

Lemma seeded_frame_shuffleLoop {A} (i : nat) : ∀ result : list A,
  seeded_frame (shuffleLoop (host := host) i result).
Proof.
  induction i as [|i IH]; intros result; cbn [shuffleLoop].
  - apply seeded_frame_ret.
  - apply seeded_frame_bind; [apply seeded_frame_callRandomFn|]. intros x.
    apply seeded_frame_bind; [apply seeded_frame_lift|]. intros l. apply IH.
Qed.

Lemma seeded_frame_shuffleArray {A} (array : list A) :
  seeded_frame (shuffleArray (host := host) array).
Proof. apply seeded_frame_shuffleLoop. Qed.

Lemma seeded_frame_tryNumbers (rec : Grid → Gen host (bool * Grid)) r c :
  (∀ g, seeded_frame (rec g)) →
  ∀ numbers g, seeded_frame (tryNumbers rec r c numbers g).
Proof.
  intros Hrec numbers. induction numbers as [|num numbers IH]; intros g;
    cbn [tryNumbers].
  - apply seeded_frame_ret.
  - destruct (isValidPlacement g r c num); [|apply IH].
    apply seeded_frame_bind; [apply Hrec|]. intros [[] g1].
    + apply seeded_frame_ret.
    + apply IH.
Qed.

Lemma seeded_frame_fillGrid (fuel : nat) : ∀ g : Grid,
  seeded_frame (fillGrid (host := host) fuel g).
Proof.
  induction fuel as [|fuel IH]; intros g; [apply seeded_frame_fail|].
  rewrite fillGrid_S. destruct (findEmpty g) as [[r c]|]; [|apply seeded_frame_ret].
  apply seeded_frame_bind; [apply seeded_frame_shuffleArray|]. intros numbers.
  by apply seeded_frame_tryNumbers.
Qed.

Lemma seeded_frame_generateCompleteGrid :
  seeded_frame (generateCompleteGrid (host := host)).
Proof.
  unfold generateCompleteGrid.
  apply seeded_frame_bind; [apply seeded_frame_fillGrid|]. intros [b g].
  apply seeded_frame_ret.
Qed.

Lemma seeded_frame_removeCells (solution : Grid) (difficulty : Difficulty) :
  seeded_frame (removeCells (host := host) solution difficulty).
Proof.
  unfold removeCells.
  apply seeded_frame_bind; [apply seeded_frame_shuffleArray|]. intros positions.
  apply seeded_frame_lift.
Qed.

Lemma seeded_frame_generateAttempts (difficulty : Difficulty) (fuel : nat) :
  ∀ attempts, seeded_frame (generateAttempts (host := host) fuel attempts difficulty).
Proof.
  induction fuel as [|fuel IH]; intros attempts; cbn [generateAttempts].
  - apply seeded_frame_ret.
  - apply seeded_frame_bind; [apply seeded_frame_generateCompleteGrid|].
    intros solution.
    apply seeded_frame_bind; [apply seeded_frame_removeCells|]. intros [puzzle removed].
    destruct (_ || _); [apply seeded_frame_ret|].
    destruct (verifyDifficulty puzzle difficulty); [apply seeded_frame_ret|apply IH].
Qed.

Lemma seeded_frame_generatePuzzle (difficulty : Difficulty) :
  seeded_frame (generatePuzzle (host := host) difficulty).
Proof.
  unfold generatePuzzle.
  apply seeded_frame_bind; [apply seeded_frame_generateAttempts|].
  intros [ps|]; [apply seeded_frame_ret|].
  apply seeded_frame_bind; [apply seeded_frame_generateCompleteGrid|].
  intros solution.
  apply seeded_frame_bind; [apply seeded_frame_removeCells|]. intros [puzzle removed].
  apply seeded_frame_ret.
Qed.

End SeededRuns.

Section DateStrings.

Lemma is_digit_not_dash (ch : ascii) :
  is_digit ch = true → Ascii.eqb ch "-" = false.
Proof.
  intros Hd. destruct (Ascii.eqb_spec ch "-") as [->|]; [|done].
  vm_compute in Hd. discriminate Hd.
Qed.

Lemma split_on_digits (a : string) :
  all_digits a = true → split_on "-" a = [a].
Proof.
  unfold all_digits. induction a as [|ch a IH]; cbn [list_ascii_of_string forallb split_on];
    [done|].
  intros [Hch Ha]%andb_prop. rewrite (is_digit_not_dash ch Hch), (IH Ha). done.
Qed.

Lemma split_on_digits_dash (a rest : string) :
  all_digits a = true →
  split_on "-" (a +:+ String "-" rest) = a :: split_on "-" rest.
Proof.
  unfold all_digits. induction a as [|ch a IH];
    cbn [list_ascii_of_string forallb].
  - intros _. reflexivity.
  - intros [Hch Ha]%andb_prop.
    change (String ch a +:+ String "-" rest) with (String ch (a +:+ String "-" rest)).
    cbn [split_on]. rewrite (is_digit_not_dash ch Hch), (IH Ha). done.
Qed.

Lemma number_of_digits_Some (a : string) : ∀ acc,
  all_digits a = true → ∃ v, number_of_digits a acc = Some v.
Proof.
  unfold all_digits. induction a as [|ch a IH]; intros acc;
    cbn [list_ascii_of_string forallb number_of_digits].
  - by exists acc.
  - intros [Hch Ha]%andb_prop. rewrite Hch. by apply IH.
Qed.

Lemma Number_digits (a : string) : all_digits a = true → ∃ v, Number a = Some v.
Proof.
  intros Ha. unfold Number.
  destruct (number_of_digits_Some a 0%Z Ha) as [v ->]. by eexists.
Qed.

(** The three components of a date string are read as numbers. *)
Lemma date_form_parse (s : string) :
  is_date_form s →
  s ≠ EmptyString ∧
  ∃ year month day,
    map Number (split_on "-" s) = [Some year; Some month; Some day].
Proof.
  intros (ys & ms & ds & -> & Hys & Hlen & Hms & _ & Hds & _).
  split; [by destruct ys|].
  destruct (Number_digits ys Hys) as [year Hyear].
  destruct (Number_digits ms Hms) as [month Hmonth].
  destruct (Number_digits ds Hds) as [day Hday].
  exists year, month, day.
  change (ys +:+ "-" +:+ ms +:+ "-" +:+ ds)
    with (ys +:+ String "-" (ms +:+ String "-" ds)).
  rewrite (split_on_digits_dash ys _ Hys), (split_on_digits_dash ms _ Hms),
    (split_on_digits ds Hds).
  cbn [map]. by rewrite Hyear, Hmonth, Hday.
Qed.

End DateStrings.

(** C3: for a date string in the form YYYY-MM-DD, [generateDailyPuzzle]
    returns the same puzzle, solution, difficulty and date from any two
    worlds (whatever the state of [Math.random], the clock and the current
    [randomFn]): it is the run of [generatePuzzle] with the random function
    seeded by [year * 10000 + month * 100 + day] of the date, at the
    difficulty given by its day of the week (Monday, Tuesday: easy;
    Wednesday, Thursday: medium; Friday to Sunday: hard); afterwards
    [randomFn] is [Math.random] again and nothing else has changed. *)
Theorem generateDailyPuzzle_deterministic {host : Host} (dateStr : string)
    (w1 w2 : World host) :
  is_date_form dateStr →
  ∃ year month day daily,
    map Number (split_on "-" dateStr) = [Some year; Some month; Some day] ∧
    generateDailyPuzzle (Some dateStr) w1
      = Some (daily, with_randomFn MathRandomFn w1) ∧
    generateDailyPuzzle (Some dateStr) w2
      = Some (daily, with_randomFn MathRandomFn w2) ∧
    date daily = dateStr ∧
    difficulty daily
      = difficultyOfDay (getDay host (newDate host year (month - 1) day)) ∧
    (∃ w', generatePuzzle (difficulty daily)
             (with_randomFn
                (SeededFn (seedOfDate (newDate host year (month - 1) day))) w1)
           = Some ((puzzle daily, solution daily), w')) ∧
    seedOfDate (newDate host year (month - 1) day)
      = (getFullYear host (newDate host year (month - 1) day) * 10000
         + (getMonth host (newDate host year (month - 1) day) + 1) * 100
         + getDate host (newDate host year (month - 1) day))%Z ∧
    difficultyOfDay 1 = easy ∧ difficultyOfDay 2 = easy ∧
    difficultyOfDay 3 = medium ∧ difficultyOfDay 4 = medium ∧
    difficultyOfDay 5 = hard ∧ difficultyOfDay 6 = hard ∧
    difficultyOfDay 0 = hard.
Proof.
  intros (Hne & year & month & day & Hparse)%date_form_parse.
  set (targetDate := newDate host year (month - 1) day).
  set (seed := seedOfDate targetDate).
  set (d := difficultyOfDay (getDay host targetDate)).
  destruct (generatePuzzle_spec d (with_randomFn (SeededFn seed) w1) I)
    as (puzzle & solution & w1' & Hrun1 & _ & _).
  destruct (generatePuzzle_spec d (with_randomFn (SeededFn seed) w2) I)
    as (puzzle2 & solution2 & w2' & Hrun2 & _ & _).
  pose proof (seeded_frame_generatePuzzle d seed
                (with_randomFn (SeededFn seed) w1)
                (with_randomFn (SeededFn seed) w2) eq_refl eq_refl) as Hframe.
  rewrite Hrun1, Hrun2 in Hframe.
  destruct Hframe as ([= <- <-] & _ & Hm1 & Hn1 & Hm2 & Hn2).
  assert (Hdaily : ∀ w w' : World host,
             generatePuzzle d (with_randomFn (SeededFn seed) w)
               = Some ((puzzle, solution), w') →
             mathState w' = mathState w → now w' = now w →
             generateDailyPuzzle (Some dateStr) w
             = Some ({| puzzle := puzzle; solution := solution; difficulty := d;
                        date := dateStr |}, with_randomFn MathRandomFn w)).
  { intros w w' Hrun Hm Hn. unfold generateDailyPuzzle.
    destruct dateStr as [|ch rest]; [done|]. rewrite Hparse.
    unfold bind, ret, setRandomFunction, resetRandomFunction.
    fold targetDate. fold seed. fold d.
    change {| randomFn := SeededFn seed; mathState := mathState w; now := now w |}
      with (with_randomFn (SeededFn seed) w).
    rewrite Hrun. unfold with_randomFn. by rewrite Hm, Hn. }
  exists year, month, day,
    {| puzzle := puzzle; solution := solution; difficulty := d; date := dateStr |}.
  split; [exact Hparse|].
  split; [by apply (Hdaily w1 w1')|].
  split; [by apply (Hdaily w2 w2')|].
  split; [reflexivity|]. split; [reflexivity|].
  split; [by exists w1'|]. split; [reflexivity|].
  by split_and!.
Qed.

Lemma generateDailyPuzzle_deterministic_witness :
  ∃ year month day daily,
    map Number (split_on "-" "2024-03-15") = [Some year; Some month; Some day] ∧
    generateDailyPuzzle (Some "2024-03-15") sample_world
      = Some (daily, with_randomFn MathRandomFn sample_world) ∧
    generateDailyPuzzle (Some "2024-03-15") other_sample_world
      = Some (daily, with_randomFn MathRandomFn other_sample_world) ∧
    date daily = "2024-03-15" ∧
    difficulty daily
      = difficultyOfDay (getDay sample_host
                           (newDate sample_host year (month - 1) day)) ∧
    (∃ w', generatePuzzle (difficulty daily)
             (with_randomFn
                (SeededFn (seedOfDate (newDate sample_host year (month - 1) day)))
                sample_world)
           = Some ((puzzle daily, solution daily), w')) ∧
    seedOfDate (newDate sample_host year (month - 1) day)
      = (getFullYear sample_host (newDate sample_host year (month - 1) day) * 10000
         + (getMonth sample_host (newDate sample_host year (month - 1) day) + 1) * 100
         + getDate sample_host (newDate sample_host year (month - 1) day))%Z ∧
    difficultyOfDay 1 = easy ∧ difficultyOfDay 2 = easy ∧
    difficultyOfDay 3 = medium ∧ difficultyOfDay 4 = medium ∧
    difficultyOfDay 5 = hard ∧ difficultyOfDay 6 = hard ∧
    difficultyOfDay 0 = hard.
Proof.
  apply (generateDailyPuzzle_deterministic "2024-03-15" sample_world
           other_sample_world).
  exists "2024", "03", "15". split_and!; reflexivity.
Defined.

(** The daily puzzle of 2024-03-15, a Friday, on the sample host: the seed,
    the difficulty, the number of clues, and the two checks the generator
    itself runs on a puzzle. *)
Example seedOfDate_2024_03_15 :
  seedOfDate (newDate sample_host 2024 2 15) = 20240315%Z ∧
  getDay sample_host (newDate sample_host 2024 2 15) = 5%Z.
Proof. vm_compute. split; reflexivity. Qed.

Example generateDailyPuzzle_2024_03_15 :
  option_map (fun r => (difficulty (fst r), date (fst r),
                        countClues (puzzle (fst r)),
                        hasUniqueSolution (puzzle (fst r)),
                        verifyDifficulty (puzzle (fst r)) hard))
             (generateDailyPuzzle (Some "2024-03-15") sample_world)
  = Some (hard, "2024-03-15", 28, Some true, true).
Proof. vm_compute. reflexivity. Qed.

(** The first number drawn from the generator seeded with 20240315. *)
Example mulberry32_first_draw :
  fst (mulberry32 20240315) = Qmake 0x560d0825 (2 ^ 32).
Proof. vm_compute. reflexivity. Qed.

(** [new Date(y, m, d)] reads the years 0..99 as 1900..1999 and carries days
    past the end of a month into the next month, and the seed follows the
    [Date]. *)
Example seedOfDate_two_digit_year :
  seedOfDate (newDate sample_host 50 0 1) = 19500101%Z ∧
  seedOfDate (newDate sample_host 2024 1 30) = 20240301%Z.
Proof. vm_compute. split; reflexivity. Qed.

(** ** The highlight functions on the store *)

Section StoreLemmas.

Import ObjectStore.

Lemma ebind_Some {A B} (m : Eff A) (k : A → Eff B) h a h' :
  m h = Some (a, h') → ebind m k h = k a h'.
Proof. unfold ebind. by intros ->. Qed.

Lemma cell_at_app n h ext l cs : cell_at n h l cs → cell_at n (h ++ ext) l cs.
Proof.
  intros (Hl & s & Hs & Hcell & Hset). split; [done|]. exists s.
  split_and!; [done|by apply lookup_app_l_Some..].
Qed.

Lemma cell_at_weaken n m h l cs : m ≤ n → cell_at n h l cs → cell_at m h l cs.
Proof.
  intros Hmn (Hl & s & Hs & Hcell & Hset). split; [lia|]. exists s.
  split_and!; [lia|done..].
Qed.

Lemma row_at_app n h ext l cells : row_at n h l cells → row_at n (h ++ ext) l cells.
Proof. intros [Hl Hrow]. split; [done|by apply lookup_app_l_Some]. Qed.

Lemma row_at_weaken n m h l cells : m ≤ n → row_at n h l cells → row_at m h l cells.
Proof. intros Hmn [Hl Hrow]. split; [lia|done]. Qed.

Lemma copyCellUnhighlighted_spec n h l cs :
  cell_at n h l cs →
  copyCellUnhighlighted l h
  = Some (S (length h),
          h ++ [ObjSet (Hints.candidates cs);
                ObjCell (value cs) (isGiven cs) (isError cs) (length h) false]) ∧
  cell_at (length h)
          (h ++ [ObjSet (Hints.candidates cs);
                 ObjCell (value cs) (isGiven cs) (isError cs) (length h) false])
          (S (length h)) (unhighlight cs).
Proof.
  intros (Hl & s & Hs & Hcell & Hset). split.
  - unfold copyCellUnhighlighted. rewrite Hcell.
    unfold ebind, getSet, alloc. rewrite Hset. cbn [fst snd].
    rewrite length_app, <- app_assoc. cbn [length app]. do 3 f_equal. lia.
  - split; [lia|]. exists (length h). split; [lia|]. split.
    + rewrite lookup_app_r by lia.
      replace (S (length h) - length h) with 1 by lia. reflexivity.
    + rewrite lookup_app_r by lia. rewrite Nat.sub_diag. reflexivity.
Qed.

(** Copying the cells of a row: the new cells are fresh, pairwise distinct,
    and hold the same state with the highlight cleared. *)
Lemma mapM_copyCell_spec n (cells : list nat) (row : list CellState) :
  ∀ h, Forall2 (cell_at n h) cells row →
  ∃ cells' ext,
    mapM copyCellUnhighlighted cells h = Some (cells', h ++ ext) ∧
    Forall2 (cell_at (length h) (h ++ ext)) cells' (map unhighlight row) ∧
    Forall (fun l => length h ≤ l < length (h ++ ext)) cells' ∧
    NoDup cells'.
Proof.
  revert row. induction cells as [|l cells IH]; intros row h Hrep.
  - apply Forall2_nil_inv_l in Hrep as ->. exists [], [].
    rewrite app_nil_r. split_and!; [done|constructor..].
  - apply Forall2_cons_inv_l in Hrep as (cs & row' & Hcs & Hrest & ->).
    destruct (copyCellUnhighlighted_spec n h l cs Hcs) as [Hcopy Hnew].
    set (e1 := [ObjSet (Hints.candidates cs);
                ObjCell (value cs) (isGiven cs) (isError cs) (length h) false]) in *.
    destruct (IH row' (h ++ e1)) as (cells' & ext & Hmap & Hrep' & Hbounds & Hnd).
    { eapply Forall2_impl; [exact Hrest|]. intros; by apply cell_at_app. }
    assert (Hlen1 : length (h ++ e1) = length h + 2)
      by (rewrite length_app; reflexivity).
    exists (S (length h) :: cells'), (e1 ++ ext).
    cbn [mapM]. unfold ebind at 1. rewrite Hcopy.
    unfold ebind at 1. rewrite Hmap. rewrite <- app_assoc. cbn [eret].
    split_and!.
    + reflexivity.
    + cbn [map]. constructor.
      * rewrite app_assoc. by apply cell_at_app.
      * rewrite app_assoc. eapply Forall2_impl; [exact Hrep'|].
        intros l' cs' H'. eapply cell_at_weaken; [|exact H']. lia.
    + constructor.
      * rewrite app_assoc, length_app, Hlen1. lia.
      * rewrite app_assoc. eapply Forall_impl; [exact Hbounds|].
        intros l' [H1 H2]. cbn beta in *. lia.
    + apply NoDup_cons. split; [|done]. intros Hin.
      rewrite Forall_forall in Hbounds. specialize (Hbounds _ Hin). lia.
Qed.

Lemma mapM_copyRow_spec n (rows : list nat) :
  ∀ (cells : list (list nat)) (b : BoardState) h,
    Forall2 (row_at n h) rows cells →
    Forall2 (Forall2 (cell_at n h)) cells b →
    ∃ rows' cells' ext,
      mapM copyRowUnhighlighted rows h = Some (rows', h ++ ext) ∧
      Forall2 (row_at (length h) (h ++ ext)) rows' cells' ∧
      Forall2 (Forall2 (cell_at (length h) (h ++ ext))) cells'
              (map (map unhighlight) b) ∧
      Forall (fun l => length h ≤ l < length (h ++ ext)) (concat cells') ∧
      NoDup (concat cells').
Proof.
  induction rows as [|rl rows IH]; intros cells b h Hrows Hcells.
  - apply Forall2_nil_inv_l in Hrows as ->.
    apply Forall2_nil_inv_l in Hcells as ->. exists [], [], [].
    rewrite app_nil_r. split_and!; [done|constructor..].
  - apply Forall2_cons_inv_l in Hrows as (cls & cells0 & [Hrl Hrow] & Hrows & ->).
    apply Forall2_cons_inv_l in Hcells as (row & b0 & Hrep & Hcells & ->).
    destruct (mapM_copyCell_spec n cls row h Hrep)
      as (cls' & e1 & Hmap & Hrep' & Hbounds & Hnd).
    set (h1 := h ++ e1) in *.
    set (h2 := h1 ++ [ObjArray cls']).
    destruct (IH cells0 b0 h2) as (rows' & cells' & ext & Hmap' & Hrows' & Hcells' & Hb' & Hnd').
    { eapply Forall2_impl; [exact Hrows|]. intros. unfold h2, h1.
      by do 2 apply row_at_app. }
    { eapply Forall2_impl; [exact Hcells|]. intros ? ? H.
      eapply Forall2_impl; [exact H|]. intros. unfold h2, h1.
      by do 2 apply cell_at_app. }
    assert (Hlen2 : length h2 = S (length h1))
      by (unfold h2; rewrite length_app; cbn [length]; lia).
    assert (Hlen1 : length h ≤ length h1)
      by (unfold h1; rewrite length_app; lia).
    exists (length h1 :: rows'), (cls' :: cells'), (e1 ++ [ObjArray cls'] ++ ext).
    assert (Heq : h ++ e1 ++ [ObjArray cls'] ++ ext = h2 ++ ext).
    { unfold h2, h1. by rewrite <- !app_assoc. }
    rewrite Heq. split_and!.
    + cbn [mapM].
      assert (Hcopy : copyRowUnhighlighted rl h = Some (length h1, h2)).
      { unfold copyRowUnhighlighted.
        rewrite (ebind_Some _ _ h cls h) by (unfold getArray; by rewrite Hrow).
        rewrite (ebind_Some _ _ h cls' h1) by exact Hmap. reflexivity. }
      rewrite (ebind_Some _ _ h _ h2 Hcopy).
      rewrite (ebind_Some _ _ h2 _ (h2 ++ ext) Hmap'). reflexivity.
    + constructor.
      * split; [done|]. apply lookup_app_l_Some. unfold h2.
        rewrite lookup_app_r by lia. by rewrite Nat.sub_diag.
      * eapply Forall2_impl; [exact Hrows'|]. intros l' c' H'.
        eapply row_at_weaken; [|exact H']. lia.
    + cbn [map]. constructor.
      * eapply Forall2_impl; [exact Hrep'|]. intros l' cs' H'. fold h1 in H'.
        unfold h2. by do 2 apply cell_at_app.
      * eapply Forall2_impl; [exact Hcells'|]. intros ? ? H.
        eapply Forall2_impl; [exact H|]. intros l' cs' H'.
        eapply cell_at_weaken; [|exact H']. lia.
    + cbn [concat]. apply Forall_app. split.
      * eapply Forall_impl; [exact Hbounds|]. intros l' [H1 H2]. cbn beta in *.
        fold h1 in H2. rewrite length_app. lia.
      * eapply Forall_impl; [exact Hb'|]. intros l' [H1 H2]. cbn beta in *. lia.
    + cbn [concat]. apply NoDup_app. split_and!; [done| |done].
      intros l' H1 H2. rewrite Forall_forall in Hbounds, Hb'.
      specialize (Hbounds _ H1). specialize (Hb' _ H2). fold h1 in Hbounds. lia.
Qed.

(** Copying a board: the caller's store is a prefix of the new store, and the
    copy consists of new objects only. *)
Lemma copyBoardUnhighlighted_spec n h board rows cells (b : BoardState) :
  board_at n h board rows cells b →
  ∃ board' rows' cells' ext,
    copyBoardUnhighlighted board h = Some (board', h ++ ext) ∧
    board_at (length h) (h ++ ext) board' rows' cells' (map (map unhighlight) b) ∧
    NoDup (concat cells').
Proof.
  intros (Hb & Hboard & Hrows & Hcells).
  destruct (mapM_copyRow_spec n rows cells b h Hrows Hcells)
    as (rows' & cells' & ext & Hmap & Hrows' & Hcells' & Hbounds & Hnd).
  exists (length (h ++ ext)), rows', cells', (ext ++ [ObjArray rows']).
  split_and!; [|split_and!|done].
  - unfold copyBoardUnhighlighted.
    rewrite (ebind_Some _ _ h rows h) by (unfold getArray; by rewrite Hboard).
    rewrite (ebind_Some _ _ h rows' (h ++ ext) Hmap).
    unfold alloc. by rewrite <- app_assoc.
  - rewrite length_app. lia.
  - rewrite app_assoc, lookup_app_r by done. by rewrite Nat.sub_diag.
  - rewrite app_assoc. eapply Forall2_impl; [exact Hrows'|]. intros.
    by apply row_at_app.
  - rewrite app_assoc. eapply Forall2_impl; [exact Hcells'|]. intros ? ? H.
    eapply Forall2_impl; [exact H|]. intros. by apply cell_at_app.
Qed.

(** *** Setting the flag of one cell *)

Lemma concat_NoDup_position {A} (m : list (list A)) i j i' j' a a' x :
  NoDup (concat m) →
  m !! i = Some a → a !! j = Some x →
  m !! i' = Some a' → a' !! j' = Some x →
  i = i' ∧ j = j'.
Proof.
  revert i i'. induction m as [|a0 m IH]; intros i i' Hnd Hi Hj Hi' Hj'; [done|].
  cbn [concat] in Hnd. apply NoDup_app in Hnd as (Hnd0 & Hdisj & Hnd').
  assert (Hin : ∀ k b y, m !! k = Some b → b !! y = Some x → x ∈ concat m).
  { intros k b y Hk Hy. apply list_elem_of_In, in_concat. exists b.
    split; apply list_elem_of_In, list_elem_of_lookup; eauto. }
  destruct i as [|i], i' as [|i']; simpl in Hi, Hi'.
  - injection Hi as ->. injection Hi' as ->. split; [done|].
    apply (NoDup_lookup a' j j' x); assumption.
  - injection Hi as ->. exfalso. apply (Hdisj x).
    + apply list_elem_of_lookup; eauto.
    + by eapply Hin.
  - injection Hi' as ->. exfalso. apply (Hdisj x).
    + apply list_elem_of_lookup; eauto.
    + by eapply Hin.
  - destruct (IH i i' Hnd' Hi Hj Hi' Hj') as [-> ->]. done.
Qed.

Lemma cell_at_insert_ne n h l cs l0 v g e s hl hl' :
  h !! l0 = Some (ObjCell v g e s hl) → l ≠ l0 →
  cell_at n h l cs → cell_at n (<[l0 := ObjCell v g e s hl']> h) l cs.
Proof.
  intros H0 Hne (Hl & s' & Hs' & Hcell & Hset). split; [done|]. exists s'.
  split_and!; [done|by rewrite list_lookup_insert_ne|].
  rewrite list_lookup_insert_ne; [done|]. intros <-. congruence.
Qed.

Lemma highlight_lookup (b : BoardState) row col brow cs :
  b !! row = Some brow → brow !! col = Some cs →
  highlight b row col
  = <[row := <[col := {| value := value cs; isGiven := isGiven cs;
                         isError := isError cs;
                         Hints.candidates := Hints.candidates cs;
                         isHighlighted := true |}]> brow]> b.
Proof. intros Hrow Hcol. unfold highlight. by rewrite Hrow, Hcol. Qed.

Lemma wf_board_highlight (b : BoardState) row col :
  wf_board b → wf_board (highlight b row col).
Proof.
  intros [Hlen Hrows]. unfold highlight.
  destruct (b !! row) as [brow|] eqn:Hrow; [|done].
  destruct (brow !! col) as [cs|] eqn:Hcol; [|done].
  split; [by rewrite length_insert|].
  apply Forall_insert; [done|]. rewrite length_insert.
  rewrite Forall_forall in Hrows. apply Hrows, list_elem_of_lookup. eauto.
Qed.

Lemma highlight_step n h board rows cells (b : BoardState) row col :
  board_at n h board rows cells b → wf_board b → NoDup (concat cells) →
  row < 9 → col < 9 →
  ∃ h',
    ebind (getArray board) (fun rs =>
    ebind (element rs row) (fun r =>
    ebind (getArray r) (fun cls =>
    ebind (element cls col) (fun c => setIsHighlighted c true)))) h
    = Some (tt, h') ∧
    length h' = length h ∧ (∀ l, l < n → h' !! l = h !! l) ∧
    board_at n h' board rows cells (highlight b row col).
Proof.
  intros (Hb & Hboard & Hrows & Hcells) [Hlen Hwf] Hnd Hrow Hcol.
  pose proof (Forall2_length _ _ _ Hcells) as Hlc.
  pose proof (Forall2_length _ _ _ Hrows) as Hlr.
  destruct (lookup_lt_is_Some_2 b row) as [brow Hbrow]; [lia|].
  destruct (lookup_lt_is_Some_2 cells row) as [cls Hcls]; [lia|].
  destruct (lookup_lt_is_Some_2 rows row) as [rl Hrl]; [lia|].
  pose proof (Forall2_lookup_lr _ _ _ _ _ _ Hcells Hcls Hbrow) as Hrep.
  pose proof (Forall2_lookup_lr _ _ _ _ _ _ Hrows Hrl Hcls) as [Hrln Hrlo].
  assert (Hlb : length brow = 9).
  { rewrite Forall_forall in Hwf. apply Hwf, list_elem_of_lookup. eauto. }
  pose proof (Forall2_length _ _ _ Hrep) as Hlcl.
  destruct (lookup_lt_is_Some_2 brow col) as [cs Hcs]; [lia|].
  destruct (lookup_lt_is_Some_2 cls col) as [cl Hcl]; [lia|].
  pose proof (Forall2_lookup_lr _ _ _ _ _ _ Hrep Hcl Hcs) as Hcell.
  pose proof Hcell as (Hcln & s & Hs & Hobj & Hset).
  eexists. split_and!.
  - rewrite (ebind_Some _ _ h rows h) by (unfold getArray; by rewrite Hboard).
    rewrite (ebind_Some _ _ h rl h) by (unfold element; by rewrite Hrl).
    rewrite (ebind_Some _ _ h cls h) by (unfold getArray; by rewrite Hrlo).
    rewrite (ebind_Some _ _ h cl h) by (unfold element; by rewrite Hcl).
    unfold setIsHighlighted. rewrite Hobj. reflexivity.
  - by rewrite length_insert.
  - intros l Hl. apply list_lookup_insert_ne. lia.
  - split_and!.
    + done.
    + rewrite list_lookup_insert_ne; [done|]. intros <-. congruence.
    + eapply Forall2_impl; [exact Hrows|]. intros l c [Hln Hlo]. split; [done|].
      rewrite list_lookup_insert_ne; [done|]. intros <-. congruence.
    + rewrite (highlight_lookup b row col brow cs Hbrow Hcs).
      apply Forall2_same_length_lookup. split; [by rewrite length_insert|].
      intros i cls_i brow_i Hi Hbi.
      apply list_lookup_insert_Some in Hbi as [(<- & <- & _)|[Hne Hbi]].
      * rewrite Hcls in Hi. injection Hi as <-.
        apply Forall2_same_length_lookup. split; [by rewrite length_insert|].
        intros j l cs_j Hj Hcsj.
        apply list_lookup_insert_Some in Hcsj as [(<- & <- & _)|[Hnej Hcsj]].
        -- rewrite Hcl in Hj. injection Hj as <-. split; [done|]. exists s.
           split_and!; [done|by rewrite list_lookup_insert_eq by (by eapply lookup_lt_Some)|].
           rewrite list_lookup_insert_ne; [done|]. intros <-. congruence.
        -- apply (cell_at_insert_ne _ _ _ _ _ _ _ _ _ _ _ Hobj).
           ++ intros ->.
              destruct (concat_NoDup_position cells row j row col cls cls cl
                          Hnd Hcls Hj Hcls Hcl) as [_ ->]. done.
           ++ by eapply Forall2_lookup_lr.
      * pose proof (Forall2_lookup_lr _ _ _ _ _ _ Hcells Hi Hbi) as Hrep_i.
        apply Forall2_same_length_lookup. split; [by eapply Forall2_length|].
        intros j l cs_j Hj Hcsj.
        apply (cell_at_insert_ne _ _ _ _ _ _ _ _ _ _ _ Hobj).
        -- intros ->.
           destruct (concat_NoDup_position cells i j row col cls_i cls cl
                       Hnd Hi Hj Hcls Hcl) as [-> _]. done.
        -- by eapply Forall2_lookup_lr.
Qed.

(** The pure counterpart of one turn of the loop over [hint.highlightCells]. *)
Lemma forEach_highlight_spec n board rows cells (positions : list Position) :
  ∀ h (b : BoardState),
    board_at n h board rows cells b → wf_board b → NoDup (concat cells) →
    ∃ h',
      forEach (fun '(row, col) =>
                 if (row <? 9) && (col <? 9) then
                   ebind (getArray board) (fun rs =>
                   ebind (element rs row) (fun r =>
                   ebind (getArray r) (fun cls =>
                   ebind (element cls col) (fun c => setIsHighlighted c true))))
                 else eret tt)
              positions h
      = Some (tt, h') ∧
      length h' = length h ∧ (∀ l, l < n → h' !! l = h !! l) ∧
      board_at n h' board rows cells
               (fold_left (fun b '(row, col) =>
                             if (row <? 9) && (col <? 9)
                             then highlight b row col else b)
                          positions b).
Proof.
  induction positions as [|[row col] positions IH]; intros h b Hrep Hwf Hnd.
  - exists h. by split_and!.
  - cbn [forEach fold_left].
    destruct ((row <? 9) && (col <? 9)) eqn:Htest.
    + apply andb_prop in Htest as [Hrow%Nat.ltb_lt Hcol%Nat.ltb_lt].
      destruct (highlight_step n h board rows cells b row col Hrep Hwf Hnd Hrow Hcol)
        as (h1 & Hstep & Hlen1 & Hold1 & Hrep1).
      destruct (IH h1 (highlight b row col) Hrep1 (wf_board_highlight b row col Hwf) Hnd)
        as (h' & Hrun & Hlen' & Hold' & Hrep').
      exists h'. split_and!.
      * rewrite (ebind_Some _ _ h tt h1 Hstep). exact Hrun.
      * congruence.
      * intros l Hl. rewrite Hold' by done. by apply Hold1.
      * exact Hrep'.
    + destruct (IH h b Hrep Hwf Hnd) as (h' & Hrun & Hlen' & Hold' & Hrep').
      exists h'. split_and!; try done.
Qed.

Lemma prefix_of_agree (h h' : Store) :
  length h ≤ length h' → (∀ l, l < length h → h' !! l = h !! l) →
  h' = h ++ drop (length h) h'.
Proof.
  intros Hlen Hagree. rewrite <- (take_drop (length h) h') at 1. f_equal.
  apply list_eq. intros i. destruct (decide (i < length h)) as [Hi|Hi].
  - rewrite lookup_take_lt by done. by apply Hagree.
  - rewrite lookup_take_ge by lia. symmetry. apply lookup_ge_None. lia.
Qed.

Lemma wf_board_unhighlight (b : BoardState) :
  wf_board b → wf_board (map (map unhighlight) b).
Proof.
  intros [Hlen Hrows]. split; [by rewrite length_map|].
  apply Forall_forall. intros row Hrow%list_elem_of_In.
  apply in_map_iff in Hrow as (row0 & <- & Hin). rewrite length_map.
  rewrite Forall_forall in Hrows. by apply Hrows, list_elem_of_In.
Qed.

Lemma board_at_app n h ext board rows cells (b : BoardState) :
  board_at n h board rows cells b → board_at n (h ++ ext) board rows cells b.
Proof.
  intros (Hb & Hboard & Hrows & Hcells). split_and!; [done|by apply lookup_app_l_Some| |].
  - eapply Forall2_impl; [exact Hrows|]. intros. by apply row_at_app.
  - eapply Forall2_impl; [exact Hcells|]. intros ? ? H.
    eapply Forall2_impl; [exact H|]. intros. by apply cell_at_app.
Qed.

(** [applyHintHighlights] on the store: the caller's store is a prefix of the
    new one, and the board returned is made of new objects and holds the
    state computed by the function on values. *)
Lemma applyHintHighlights_store h board rows cells (b : BoardState) hint :
  board_at 0 h board rows cells b → wf_board b →
  ∃ board' rows' cells' ext,
    ObjectStore.applyHintHighlights board hint h = Some (board', h ++ ext) ∧
    board_at (length h) (h ++ ext) board' rows' cells'
             (Hints.applyHintHighlights b hint) ∧
    board_at 0 (h ++ ext) board rows cells b.
Proof.
  intros Hrep Hwf.
  destruct (copyBoardUnhighlighted_spec 0 h board rows cells b Hrep)
    as (board' & rows' & cells' & ext & Hcopy & Hrep' & Hnd).
  destruct (forEach_highlight_spec (length h) board' rows' cells'
              (highlightCells hint) (h ++ ext) (map (map unhighlight) b)
              Hrep' (wf_board_unhighlight b Hwf) Hnd)
    as (h' & Hrun & Hlen & Hold & Hfinal).
  assert (Hh' : h' = h ++ drop (length h) h').
  { apply prefix_of_agree.
    - rewrite Hlen, length_app. lia.
    - intros l Hl. rewrite Hold by done. by apply lookup_app_l. }
  exists board', rows', cells', (drop (length h) h'). rewrite <- Hh'.
  split_and!.
  - unfold ObjectStore.applyHintHighlights.
    rewrite (ebind_Some _ _ h board' (h ++ ext) Hcopy).
    erewrite ebind_Some; [reflexivity|]. exact Hrun.
  - exact Hfinal.
  - rewrite Hh'. by apply board_at_app.
Qed.

Lemma clearHighlights_store h board rows cells (b : BoardState) :
  board_at 0 h board rows cells b →
  ∃ board' rows' cells' ext,
    ObjectStore.clearHighlights board h = Some (board', h ++ ext) ∧
    board_at (length h) (h ++ ext) board' rows' cells' (Hints.clearHighlights b) ∧
    board_at 0 (h ++ ext) board rows cells b.
Proof.
  intros Hrep.
  destruct (copyBoardUnhighlighted_spec 0 h board rows cells b Hrep)
    as (board' & rows' & cells' & ext & Hcopy & Hrep' & Hnd).
  exists board', rows', cells', ext. split_and!; [done..|].
  by apply board_at_app.
Qed.

End StoreLemmas.

(** *** The highlight functions on values *)

Section HighlightValues.

Lemma bcell_unhighlight (b : BoardState) r c :
  bcell (map (map unhighlight) b) r c = unhighlight (bcell b r c).
Proof.
  unfold bcell. rewrite lookup_map. destruct (b !! r) as [row|]; [|done].
  cbn [fmap option_fmap option_map]. rewrite lookup_map.
  by destruct (row !! c).
Qed.

Lemma bcell_highlight (b : BoardState) r c r' c' :
  same_data (bcell (highlight b r c) r' c') (bcell b r' c') ∧
  (wf_board b → r < 9 → c < 9 →
   isHighlighted (bcell (highlight b r c) r' c')
   = if decide (r = r' ∧ c = c') then true else isHighlighted (bcell b r' c')).
Proof.
  unfold highlight. destruct (b !! r) as [row|] eqn:Hrow.
  2: { split; [done|]. intros [Hlen _] Hr _. apply lookup_ge_None in Hrow. lia. }
  destruct (row !! c) as [cs|] eqn:Hcs.
  2: { split; [done|]. intros [_ Hrows] _ Hc. apply lookup_ge_None in Hcs.
       rewrite Forall_forall in Hrows.
       assert (length row = 9) by (apply Hrows, list_elem_of_lookup; eauto). lia. }
  assert (Hr : r < length b) by (by eapply lookup_lt_Some).
  assert (Hc : c < length row) by (by eapply lookup_lt_Some).
  unfold bcell. destruct (decide (r = r')) as [<-|Hner].
  - rewrite list_lookup_insert_eq by done. rewrite Hrow.
    destruct (decide (c = c')) as [<-|Hnec].
    + rewrite list_lookup_insert_eq by done. rewrite Hcs. split; [done|].
      intros _ _ _. by rewrite decide_True.
    + rewrite list_lookup_insert_ne by done. split; [done|].
      intros _ _ _. rewrite decide_False by (intros [? ?]; congruence). done.
  - rewrite list_lookup_insert_ne by done. split; [done|].
    intros _ _ _. rewrite decide_False by (intros [? ?]; congruence). done.
Qed.

Lemma fold_highlight_spec (positions : list Position) : ∀ (b : BoardState) r c,
  wf_board b → r < 9 → c < 9 →
  same_data (bcell (fold_left (fun b '(row, col) =>
                                 if (row <? 9) && (col <? 9)
                                 then highlight b row col else b)
                              positions b) r c)
            (bcell b r c) ∧
  (isHighlighted (bcell (fold_left (fun b '(row, col) =>
                                      if (row <? 9) && (col <? 9)
                                      then highlight b row col else b)
                                   positions b) r c) = true
   ↔ In (r, c) positions ∨ isHighlighted (bcell b r c) = true).
Proof.
  induction positions as [|[row col] positions IH]; intros b r c Hwf Hr Hc.
  - cbn [fold_left In]. split; [done|tauto].
  - cbn [fold_left]. destruct ((row <? 9) && (col <? 9)) eqn:Htest.
    + apply andb_prop in Htest as [Hrow%Nat.ltb_lt Hcol%Nat.ltb_lt].
      destruct (IH (highlight b row col) r c (wf_board_highlight b row col Hwf) Hr Hc)
        as [Hdata Hflag].
      destruct (bcell_highlight b row col r c) as [Hdata1 Hflag1].
      specialize (Hflag1 Hwf Hrow Hcol). split.
      * destruct Hdata as (? & ? & ? & ?), Hdata1 as (? & ? & ? & ?).
        unfold same_data. split_and!; congruence.
      * rewrite Hflag, Hflag1. cbn [In].
        destruct (decide (row = r ∧ col = c)) as [[-> ->]|Hne].
        -- tauto.
        -- split; [tauto|]. intros [[[= -> ->]|?]|?]; tauto.
    + destruct (IH b r c Hwf Hr Hc) as [Hdata Hflag]. split; [done|].
      rewrite Hflag. cbn [In]. split; [tauto|].
      intros [[[= -> ->]|?]|?]; [|tauto..].
      apply Nat.ltb_lt in Hr, Hc. rewrite Hr, Hc in Htest. done.
Qed.

Lemma shared_store_board_at :
  ObjectStore.board_at 0 shared_store 3 (replicate 9 2)
                       (replicate 9 (replicate 9 1)) lit_board.
Proof.
  split; [lia|]. split; [reflexivity|]. split.
  - apply Forall2_replicate. split; [lia|reflexivity].
  - apply Forall2_replicate, Forall2_replicate. split; [lia|].
    exists 0. split; [lia|]. split; reflexivity.
Qed.

Lemma wf_board_lit_board : wf_board lit_board.
Proof. split; [reflexivity|]. repeat constructor. Qed.

End HighlightValues.

(** C8, as the code has it: run on a store that holds a 9x9 board (whatever
    objects the board shares), [applyHintHighlights] and [clearHighlights]
    leave every object of the caller's store as it was and return a board
    made of objects allocated by the call.  The new board holds, in every
    cell, the value, [isGiven], [isError] and the candidates of the caller's
    cell.  After [clearHighlights] no cell is highlighted; after
    [applyHintHighlights] a cell is highlighted exactly when the hint's
    [highlightCells] names it: the highlight of any other cell is cleared. *)
Theorem highlights_fresh_board (h : ObjectStore.Store) (board : nat)
    (rows : list nat) (cells : list (list nat)) (b : BoardState) (hint : Hint) :
  ObjectStore.board_at 0 h board rows cells b → wf_board b →
  (∃ board' rows' cells' ext,
      ObjectStore.applyHintHighlights board hint h = Some (board', h ++ ext) ∧
      ObjectStore.board_at (length h) (h ++ ext) board' rows' cells'
                           (Hints.applyHintHighlights b hint) ∧
      ObjectStore.board_at 0 (h ++ ext) board rows cells b) ∧
  (∃ board' rows' cells' ext,
      ObjectStore.clearHighlights board h = Some (board', h ++ ext) ∧
      ObjectStore.board_at (length h) (h ++ ext) board' rows' cells'
                           (Hints.clearHighlights b) ∧
      ObjectStore.board_at 0 (h ++ ext) board rows cells b) ∧
  (∀ r c, r < 9 → c < 9 →
      same_data (bcell (Hints.applyHintHighlights b hint) r c) (bcell b r c) ∧
      (isHighlighted (bcell (Hints.applyHintHighlights b hint) r c) = true
       ↔ In (r, c) (highlightCells hint)) ∧
      same_data (bcell (Hints.clearHighlights b) r c) (bcell b r c) ∧
      isHighlighted (bcell (Hints.clearHighlights b) r c) = false).
Proof.
  intros Hrep Hwf. split; [by apply applyHintHighlights_store|].
  split; [by apply clearHighlights_store|].
  intros r c Hr Hc.
  destruct (fold_highlight_spec (highlightCells hint) (map (map unhighlight) b) r c
              (wf_board_unhighlight b Hwf) Hr Hc) as [Hdata Hflag].
  rewrite bcell_unhighlight in Hdata, Hflag.
  unfold Hints.applyHintHighlights, Hints.clearHighlights.
  rewrite bcell_unhighlight. split_and!.
  - exact Hdata.
  - rewrite Hflag. cbn [unhighlight isHighlighted]. split; [|tauto].
    intros [?|?]; [done|discriminate].
  - done.
  - done.
Qed.

Lemma highlights_fresh_board_witness :
  (∃ board' rows' cells' ext,
      ObjectStore.applyHintHighlights 3 center_hint shared_store
        = Some (board', shared_store ++ ext) ∧
      ObjectStore.board_at (length shared_store) (shared_store ++ ext)
                           board' rows' cells'
                           (Hints.applyHintHighlights lit_board center_hint) ∧
      ObjectStore.board_at 0 (shared_store ++ ext) 3 (replicate 9 2)
                           (replicate 9 (replicate 9 1)) lit_board) ∧
  (∃ board' rows' cells' ext,
      ObjectStore.clearHighlights 3 shared_store
        = Some (board', shared_store ++ ext) ∧
      ObjectStore.board_at (length shared_store) (shared_store ++ ext)
                           board' rows' cells' (Hints.clearHighlights lit_board) ∧
      ObjectStore.board_at 0 (shared_store ++ ext) 3 (replicate 9 2)
                           (replicate 9 (replicate 9 1)) lit_board) ∧
  (∀ r c, r < 9 → c < 9 →
      same_data (bcell (Hints.applyHintHighlights lit_board center_hint) r c)
                (bcell lit_board r c) ∧
      (isHighlighted (bcell (Hints.applyHintHighlights lit_board center_hint) r c)
         = true
       ↔ In (r, c) (highlightCells center_hint)) ∧
      same_data (bcell (Hints.clearHighlights lit_board) r c) (bcell lit_board r c) ∧
      isHighlighted (bcell (Hints.clearHighlights lit_board) r c) = false).
Proof.
  apply (highlights_fresh_board shared_store 3 (replicate 9 2)
           (replicate 9 (replicate 9 1)) lit_board center_hint).
  - apply shared_store_board_at.
  - apply wf_board_lit_board.
Defined.

(** The claim as stated fails: the cell in row 0, column 0 of [lit_board] is
    highlighted and is not named by [center_hint], yet [applyHintHighlights]
    returns a board in which it is not highlighted. *)
Lemma applyHintHighlights_clears_unnamed_cell :
  ¬ In (0, 0) (highlightCells center_hint) ∧
  isHighlighted (bcell lit_board 0 0) = true ∧
  isHighlighted (bcell (Hints.applyHintHighlights lit_board center_hint) 0 0)
    = false.
Proof.
  split; [|split; reflexivity]. intros [[=]|[]].
Qed.

(** ** Related cells, board validation and selection highlights *)

Section BoardLemmas.

Lemma relatedb_related r c r' c' : relatedb r c r' c' = true ↔ related r c r' c'.
Proof.
  unfold relatedb, related.
  rewrite andb_true_iff, !orb_true_iff, andb_true_iff, !negb_true_iff,
    !Nat.eqb_neq, !Nat.eqb_eq.
  tauto.
Qed.

Lemma relatedCells_ok_all :
  forallb (fun '(row, col) => relatedCells_ok row col (getRelatedCells row col))
          all_positions = true.
Proof. vm_compute. reflexivity. Qed.

Lemma relatedCells_ok_spec row col l :
  relatedCells_ok row col l = true →
  (∀ r c, (r, c) ∈ l ↔ r < 9 ∧ c < 9 ∧ related row col r c) ∧
  NoDup l ∧ length l = 20.
Proof.
  unfold relatedCells_ok. rewrite !andb_true_iff.
  intros [[[Hin Hall] Hnd] Hlen].
  split; [|split; [by apply bool_decide_eq_true in Hnd | by apply Nat.eqb_eq]].
  rewrite forallb_forall in Hin, Hall.
  intros r c. split.
  - intros Hrc. apply list_elem_of_In in Hrc. specialize (Hin _ Hrc). cbv beta iota in Hin.
    rewrite !andb_true_iff, relatedb_related, !Nat.ltb_lt in Hin. tauto.
  - intros (Hr & Hc & Hrel).
    assert (Hpos : In (r, c) all_positions) by (apply in_all_positions; lia).
    specialize (Hall _ Hpos). cbv beta iota in Hall.
    apply relatedb_related in Hrel. rewrite Hrel in Hall. cbn in Hall.
    by apply bool_decide_eq_true in Hall.
Qed.

Lemma getRelatedCells_spec row col :
  row < 9 → col < 9 →
  (∀ r c, (r, c) ∈ getRelatedCells row col ↔ r < 9 ∧ c < 9 ∧ related row col r c) ∧
  NoDup (getRelatedCells row col) ∧ length (getRelatedCells row col) = 20.
Proof.
  intros Hr Hc. apply relatedCells_ok_spec.
  pose proof relatedCells_ok_all as H. rewrite forallb_forall in H.
  apply (H (row, col)). apply in_all_positions. lia.
Qed.

Lemma existsb_pointwise {A} (f g : A → bool) (l : list A) :
  (∀ x, f x = g x) → existsb f l = existsb g l.
Proof. intros H. induction l as [|a l IH]; cbn; [done|]. by rewrite H, IH. Qed.

Lemma wf_board_lookup (b : BoardState) r c :
  wf_board b → r < 9 → c < 9 →
  ∃ brow cs, b !! r = Some brow ∧ brow !! c = Some cs ∧ length brow = 9.
Proof.
  intros [Hlen Hrows] Hr Hc.
  destruct (b !! r) as [brow|] eqn:Hrow.
  2: { apply lookup_ge_None in Hrow. lia. }
  rewrite Forall_forall in Hrows.
  assert (length brow = 9) by (apply Hrows, list_elem_of_lookup; eauto).
  destruct (brow !! c) as [cs|] eqn:Hcs.
  2: { apply lookup_ge_None in Hcs. lia. }
  eauto.
Qed.

Lemma board_ext (b b' : BoardState) :
  wf_board b → wf_board b' →
  (∀ r c, r < 9 → c < 9 → bcell b r c = bcell b' r c) → b = b'.
Proof.
  intros [Hg Hgr] [Hh Hhr] Hcell.
  apply list_eq_same_length with 9; [done..|].
  intros r x y Hr Hx Hy.
  rewrite Forall_forall in Hgr, Hhr.
  assert (length x = 9) by (apply Hgr, list_elem_of_lookup; eauto).
  assert (length y = 9) by (apply Hhr, list_elem_of_lookup; eauto).
  apply list_eq_same_length with 9; [done..|].
  intros c a a' Hc Ha Ha'.
  specialize (Hcell r c Hr Hc). unfold bcell in Hcell.
  by rewrite Hx, Hy, Ha, Ha' in Hcell.
Qed.

Lemma wf_board_updCell (b : BoardState) r c f :
  wf_board b → wf_board (updCell b r c f).
Proof.
  intros [Hlen Hrows]. unfold updCell.
  destruct (b !! r) as [brow|] eqn:Hrow; [|done].
  destruct (brow !! c) as [cs|] eqn:Hcol; [|done].
  split; [by rewrite length_insert|].
  apply Forall_insert; [done|]. rewrite length_insert.
  rewrite Forall_forall in Hrows. apply Hrows, list_elem_of_lookup. eauto.
Qed.

Lemma bcell_updCell (b : BoardState) r c f r' c' :
  wf_board b → r < 9 → c < 9 →
  bcell (updCell b r c f) r' c'
  = if decide (r = r' ∧ c = c') then f (bcell b r' c') else bcell b r' c'.
Proof.
  intros Hwf Hr Hc.
  destruct (wf_board_lookup b r c Hwf Hr Hc) as (brow & cs & Hrow & Hcs & Hlen).
  unfold updCell. rewrite Hrow, Hcs.
  assert (Hr' : r < length b) by (by eapply lookup_lt_Some).
  assert (Hc' : c < length brow) by (by eapply lookup_lt_Some).
  unfold bcell. destruct (decide (r = r')) as [<-|Hner].
  - rewrite list_lookup_insert_eq by done. rewrite Hrow.
    destruct (decide (c = c')) as [<-|Hnec].
    + rewrite list_lookup_insert_eq by done. rewrite Hcs.
      by rewrite decide_True.
    + rewrite list_lookup_insert_ne by done.
      by rewrite decide_False by (intros [? ?]; congruence).
  - rewrite list_lookup_insert_ne by done.
    by rewrite decide_False by (intros [? ?]; congruence).
Qed.

Lemma keeps_refl (b : BoardState) : wf_board b → keeps b b.
Proof. intros Hwf. split; [done|]. intros r c _ _. done. Qed.

Lemma keeps_trans (b1 b2 b3 : BoardState) : keeps b1 b2 → keeps b2 b3 → keeps b1 b3.
Proof.
  intros [Hwf2 H12] [Hwf3 H23]. split; [done|]. intros r c Hr Hc.
  destruct (H23 r c Hr Hc) as (-> & -> & -> & ->).
  destruct (H12 r c Hr Hc) as (-> & -> & -> & ->). done.
Qed.

Lemma keeps_withIsError (b : BoardState) r c flag :
  wf_board b → r < 9 → c < 9 →
  keeps b (updCell b r c (withIsError flag)) ∧
  ∀ r' c', isError (bcell (updCell b r c (withIsError flag)) r' c')
           = if decide (r = r' ∧ c = c') then flag else isError (bcell b r' c').
Proof.
  intros Hwf Hr Hc. split.
  - split; [by apply wf_board_updCell|]. intros r' c' _ _.
    rewrite bcell_updCell by done. by destruct (decide _).
  - intros r' c'. rewrite bcell_updCell by done. by destruct (decide _).
Qed.

(** A loop whose body only sets error flags: the flags at the end are the
    flags at the start and those the passes set. *)
Lemma fold_marks {A} (step : BoardState → A → BoardState)
    (hit : A → nat → nat → bool) (b0 : BoardState) (l : list A) :
  (∀ b x, keeps b0 b → In x l →
          keeps b0 (step b x) ∧
          ∀ r c, r < 9 → c < 9 →
                 isError (bcell (step b x) r c)
                 = isError (bcell b r c) || hit x r c) →
  ∀ b, keeps b0 b →
       keeps b0 (fold_left step l b) ∧
       ∀ r c, r < 9 → c < 9 →
              isError (bcell (fold_left step l b) r c)
              = isError (bcell b r c) || existsb (fun x => hit x r c) l.
Proof.
  induction l as [|x l IH]; intros Hstep b Hb; cbn [fold_left existsb].
  - split; [done|]. intros r c _ _. by rewrite orb_false_r.
  - destruct (Hstep b x Hb (or_introl eq_refl)) as [Hk Hflag].
    destruct (IH (fun b y Hb Hy => Hstep b y Hb (or_intror Hy)) _ Hk) as [Hk' Hflag'].
    split; [done|]. intros r c Hr Hc.
    rewrite Hflag', Hflag by done. by rewrite orb_assoc.
Qed.

(** The cells flagged by the pass of [validateBoard] for the cell
    [(row, col)] and its related cell [(r, c)]. *)
Lemma validate_inner (b0 : BoardState) row col :
  row < 9 → col < 9 →
  ∀ b, keeps b0 b →
    keeps b0
      (fold_left (fun b '(r, c) =>
                    if (value (bcell b r c) =? value (bcell b0 row col))%Z
                    then updCell (updCell b row col (withIsError true))
                                 r c (withIsError true)
                    else b)
                 (getRelatedCells row col) b) ∧
    ∀ r0 c0, r0 < 9 → c0 < 9 →
      isError (bcell (fold_left (fun b '(r, c) =>
                    if (value (bcell b r c) =? value (bcell b0 row col))%Z
                    then updCell (updCell b row col (withIsError true))
                                 r c (withIsError true)
                    else b)
                 (getRelatedCells row col) b) r0 c0)
      = isError (bcell b r0 c0)
        || existsb (fun '(r, c) =>
                      (value (bcell b0 r c) =? value (bcell b0 row col))%Z
                      && (bool_decide (row = r0 ∧ col = c0)
                          || bool_decide (r = r0 ∧ c = c0)))
                   (getRelatedCells row col).
Proof.
  intros Hrow Hcol b Hb.
  pose proof (fold_marks
    (fun b '(r, c) =>
       if (value (bcell b r c) =? value (bcell b0 row col))%Z
       then updCell (updCell b row col (withIsError true)) r c (withIsError true)
       else b)
    (fun '(r, c) r0 c0 =>
       (value (bcell b0 r c) =? value (bcell b0 row col))%Z
       && (bool_decide (row = r0 ∧ col = c0) || bool_decide (r = r0 ∧ c = c0)))
    b0 (getRelatedCells row col)) as H.
  destruct (H) with (b := b) as [Hk Hflag]; [|done|].
  - clear b Hb H. intros b [r c] Hb Hin.
    apply list_elem_of_In, getRelatedCells_spec in Hin as (Hr & Hc & _); [|done..].
    destruct Hb as [Hwf Hsame].
    destruct (Hsame r c Hr Hc) as (-> & _).
    destruct (value (bcell b0 r c) =? value (bcell b0 row col))%Z.
    + destruct (keeps_withIsError b row col true Hwf Hrow Hcol) as [[Hwf1 Hk1] Hf1].
      destruct (keeps_withIsError _ r c true Hwf1 Hr Hc) as [Hk2 Hf2].
      split.
      * eapply keeps_trans; [|exact Hk2]. eapply keeps_trans; [|split; eassumption].
        by split.
      * intros r0 c0 _ _. rewrite Hf2, Hf1. cbn [andb].
        repeat case_decide; repeat case_bool_decide; try tauto;
          by rewrite ?orb_true_r, ?orb_false_r.
    + split; [by split|]. intros r0 c0 _ _. by rewrite orb_false_r.
  - split; [done|]. intros r0 c0 Hr0 Hc0. rewrite Hflag by done. f_equal.
    apply existsb_pointwise. by intros [r c].
Qed.

Lemma copy_board_id (board : BoardState) :
  map (fun row : list CellState => map (fun cs => cs) row) board = board.
Proof.
  induction board as [|row board IH]; cbn; [done|].
  rewrite IH. f_equal. induction row as [|cs row IHr]; cbn; [done|]. by rewrite IHr.
Qed.

(** The loop of [validateBoard] that resets the flags. *)
Lemma validate_reset (b0 : BoardState) (l : list Position) :
  (∀ r c, In (r, c) l → r < 9 ∧ c < 9) →
  ∀ b, keeps b0 b →
    keeps b0 (fold_left (fun b '(row, col) => updCell b row col (withIsError false))
                        l b) ∧
    ∀ r c, isError (bcell (fold_left (fun b '(row, col) =>
                                        updCell b row col (withIsError false))
                                     l b) r c)
           = isError (bcell b r c) && negb (bool_decide ((r, c) ∈ l)).
Proof.
  induction l as [|[row col] l IH]; intros Hl b Hb; cbn [fold_left].
  - split; [done|]. intros r c. rewrite bool_decide_false by apply not_elem_of_nil.
    by rewrite andb_true_r.
  - destruct (Hl row col (or_introl eq_refl)) as [Hrow Hcol].
    destruct Hb as [Hwf Hsame].
    destruct (keeps_withIsError b row col false Hwf Hrow Hcol) as [Hk Hf].
    destruct (IH (fun r c H => Hl r c (or_intror H))
                 (updCell b row col (withIsError false))) as [Hk' Hf'].
    { eapply keeps_trans; [by split|done]. }
    split; [done|]. intros r c. rewrite Hf', Hf.
    destruct (decide ((r, c) ∈ l)) as [Hin|Hin].
    + rewrite !bool_decide_true; [by rewrite !andb_false_r|by right|done].
    + rewrite (bool_decide_false _ Hin). rewrite andb_true_r.
      case_decide as Heq.
      * destruct Heq as [-> ->]. rewrite bool_decide_true by left.
        by rewrite andb_false_r.
      * rewrite bool_decide_false; [by rewrite andb_true_r|].
        intros [[= -> ->]|?]%elem_of_cons; tauto.
Qed.

(** The loop of [validateBoard] that looks for conflicts. *)
Lemma validate_marks (b0 : BoardState) :
  ∀ b, keeps b0 b →
    keeps b0
      (fold_left
         (fun b '(row, col) =>
            let value := value (bcell b row col) in
            if negb (value =? 0)%Z then
              fold_left (fun b '(r, c) =>
                           if (Hints.value (bcell b r c) =? value)%Z
                           then updCell (updCell b row col (withIsError true))
                                        r c (withIsError true)
                           else b)
                        (getRelatedCells row col) b
            else b)
         all_positions b) ∧
    ∀ r0 c0, r0 < 9 → c0 < 9 →
      isError (bcell
        (fold_left
           (fun b '(row, col) =>
              let value := value (bcell b row col) in
              if negb (value =? 0)%Z then
                fold_left (fun b '(r, c) =>
                             if (Hints.value (bcell b r c) =? value)%Z
                             then updCell (updCell b row col (withIsError true))
                                          r c (withIsError true)
                             else b)
                          (getRelatedCells row col) b
              else b)
           all_positions b) r0 c0)
      = isError (bcell b r0 c0)
        || existsb
             (fun '(row, col) =>
                negb (value (bcell b0 row col) =? 0)%Z
                && existsb (fun '(r, c) =>
                              (value (bcell b0 r c) =? value (bcell b0 row col))%Z
                              && (bool_decide (row = r0 ∧ col = c0)
                                  || bool_decide (r = r0 ∧ c = c0)))
                           (getRelatedCells row col))
             all_positions.
Proof.
  intros b Hb.
  pose proof (fold_marks
    (fun b '(row, col) =>
       let value := value (bcell b row col) in
       if negb (value =? 0)%Z then
         fold_left (fun b '(r, c) =>
                      if (Hints.value (bcell b r c) =? value)%Z
                      then updCell (updCell b row col (withIsError true))
                                   r c (withIsError true)
                      else b)
                   (getRelatedCells row col) b
       else b)
    (fun '(row, col) r0 c0 =>
       negb (value (bcell b0 row col) =? 0)%Z
       && existsb (fun '(r, c) =>
                     (value (bcell b0 r c) =? value (bcell b0 row col))%Z
                     && (bool_decide (row = r0 ∧ col = c0)
                         || bool_decide (r = r0 ∧ c = c0)))
                  (getRelatedCells row col))
    b0 all_positions) as H.
  destruct H with (b := b) as [Hk Hflag]; [|done|].
  - clear b Hb H. intros b [row col] Hb Hin.
    apply in_all_positions in Hin as [Hrow Hcol].
    cbv zeta.
    destruct (proj2 Hb row col Hrow Hcol) as (-> & _).
    destruct (value (bcell b0 row col) =? 0)%Z; cbn [negb andb].
    + split; [done|]. intros r c _ _. by rewrite orb_false_r.
    + apply (validate_inner b0 row col Hrow Hcol b Hb).
  - split; [done|]. intros r0 c0 Hr0 Hc0. by rewrite Hflag.
Qed.

Lemma validateBoard_spec (board : BoardState) :
  wf_board board →
  keeps board (validateBoard board) ∧
  ∀ r c, r < 9 → c < 9 →
    isError (bcell (validateBoard board) r c) = true ↔ in_conflict board r c.
Proof.
  intros Hwf. unfold validateBoard. rewrite copy_board_id.
  destruct (validate_reset board all_positions
              (fun r c H => proj1 (in_all_positions r c) H) board (keeps_refl _ Hwf))
    as [Hk1 Hf1].
  set (b1 := fold_left (fun b '(row, col) => updCell b row col (withIsError false))
                       all_positions board) in *.
  destruct (validate_marks b1 b1 (keeps_refl _ (proj1 Hk1))) as [Hk2 Hf2].
  split; [by eapply keeps_trans|].
  intros r0 c0 Hr0 Hc0. rewrite Hf2, Hf1 by done.
  rewrite bool_decide_true
    by (apply list_elem_of_In, in_all_positions; lia).
  rewrite andb_false_r, orb_false_l, existsb_exists.
  assert (Hval : ∀ r c, r < 9 → c < 9 →
                        value (bcell b1 r c) = value (bcell board r c))
    by (intros r c Hr Hc; apply (proj2 Hk1 r c Hr Hc)).
  unfold in_conflict. split.
  - intros ([row col] & Hin & Hhit).
    apply in_all_positions in Hin as [Hrow Hcol].
    apply andb_true_iff in Hhit as [Hnz Hhit].
    apply negb_true_iff, Z.eqb_neq in Hnz.
    apply existsb_exists in Hhit as ([r c] & Hin & Hhit).
    apply list_elem_of_In, getRelatedCells_spec in Hin as (Hr & Hc & Hrel); [|done..].
    apply andb_true_iff in Hhit as [Heq Hwho]. apply Z.eqb_eq in Heq.
    rewrite (Hval r c), (Hval row col) in Heq by done.
    rewrite (Hval row col) in Hnz by done.
    apply orb_true_iff in Hwho as [Hwho|Hwho]; apply bool_decide_eq_true in Hwho;
      destruct Hwho as [<- <-].
    + split; [done|]. exists r, c. split; [done|]. split; [done|]. by split.
    + split; [congruence|]. exists row, col.
      split; [done|]. split; [done|]. split; [by apply related_sym|done].
  - intros (Hnz & r & c & Hr & Hc & Hrel & Heq).
    exists (r0, c0). split; [apply in_all_positions; lia|].
    apply andb_true_iff. split.
    { apply negb_true_iff, Z.eqb_neq. by rewrite Hval. }
    apply existsb_exists. exists (r, c). split.
    { apply list_elem_of_In, getRelatedCells_spec; done. }
    apply andb_true_iff. split.
    { apply Z.eqb_eq. by rewrite !Hval. }
    rewrite (bool_decide_true (r0 = r0 ∧ c0 = c0)) by done. done.
Qed.

Lemma wf_boardb_true (b : BoardState) : wf_boardb b = true → wf_board b.
Proof.
  unfold wf_boardb, wf_board. rewrite andb_true_iff, Nat.eqb_eq, forallb_forall.
  intros [Hlen Hrows]. split; [done|]. apply Forall_forall. intros row Hrow.
  apply Nat.eqb_eq, Hrows. by apply list_elem_of_In.
Qed.

Lemma cell_boardToGrid (b : BoardState) r c :
  cell (boardToGrid b) r c = value (bcell b r c).
Proof.
  unfold cell, boardToGrid, bcell. rewrite lookup_map.
  destruct (b !! r) as [row|]; cbn; [|done].
  rewrite lookup_map. by destruct (row !! c).
Qed.

Lemma wf_boardToGrid (b : BoardState) : wf_board b → wf_grid (boardToGrid b).
Proof.
  intros [Hlen Hrows]. unfold boardToGrid. split; [by rewrite length_map|].
  apply Forall_forall. intros row Hrow. apply list_elem_of_In in Hrow.
  apply in_map_iff in Hrow as (brow & <- & Hin). rewrite length_map.
  rewrite Forall_forall in Hrows. by apply Hrows, list_elem_of_In.
Qed.

Lemma highlight_same_list_all :
  forallb (fun '(row, col) =>
             bool_decide (getRelatedCellsForHighlight (Some (row, col))
                          = getRelatedCells row col))
          all_positions = true.
Proof. vm_compute. reflexivity. Qed.

Lemma set_add_spec (p q : Position) (s : list Position) :
  q ∈ set_add p s ↔ q ∈ s ∨ q = p.
Proof.
  unfold set_add. case_bool_decide as Hin.
  - split; [by left|]. intros [?| ->]; done.
  - rewrite elem_of_app, list_elem_of_singleton. done.
Qed.

Lemma set_add_NoDup (p : Position) (s : list Position) :
  NoDup s → NoDup (set_add p s).
Proof.
  intros Hnd. unfold set_add. case_bool_decide as Hin; [done|].
  apply NoDup_app. split; [done|]. split; [|apply NoDup_singleton].
  intros x Hx ->%list_elem_of_singleton. done.
Qed.

(** A loop that adds to a set the elements of a list that pass a test. *)
Lemma fold_set_add (test : Position → bool) (l : list Position) :
  ∀ s, NoDup s →
    NoDup (fold_left (fun s p => if test p then set_add p s else s) l s) ∧
    ∀ q, q ∈ fold_left (fun s p => if test p then set_add p s else s) l s
         ↔ q ∈ s ∨ (In q l ∧ test q = true).
Proof.
  induction l as [|p l IH]; intros s Hnd; cbn [fold_left].
  - split; [done|]. intros q. split; [by left|]. by intros [?|[[] _]].
  - destruct (IH (if test p then set_add p s else s)) as [Hnd' Hin].
    { destruct (test p); [by apply set_add_NoDup|done]. }
    split; [done|]. intros q. rewrite Hin. cbn [In].
    destruct (test p) eqn:Hp.
    + rewrite set_add_spec. split.
      * intros [[?| ->]|[? ?]]; [by left|right|right]; split; auto.
      * intros [?|[[<-|?] ?]]; [left; by left|left; by right|right; by split].
    + split.
      * intros [?|[? ?]]; [by left|right]; split; auto.
      * intros [?|[[<-|?] ?]]; [by left|congruence|right; by split].
Qed.

Lemma lookup_mapi2 {A B} (f : nat → nat → A → B) (m : list (list A)) r c :
  (mapi2 f m !! r) ≫= (fun row => row !! c)
  = f r c <$> ((m !! r) ≫= (fun row => row !! c)).
Proof.
  unfold mapi2. rewrite list_lookup_imap.
  destruct (m !! r) as [row|]; cbn; [|done].
  by rewrite list_lookup_imap.
Qed.

Lemma bcell_mapi2 (f : nat → nat → CellState → CellState) (b : BoardState) r c :
  wf_board b → r < 9 → c < 9 →
  bcell (mapi2 f b) r c = f r c (bcell b r c).
Proof.
  intros Hwf Hr Hc.
  destruct (wf_board_lookup b r c Hwf Hr Hc) as (brow & cs & Hrow & Hcs & _).
  pose proof (lookup_mapi2 f b r c) as H. rewrite Hrow in H. cbn in H.
  rewrite Hcs in H. cbn in H.
  unfold bcell. rewrite Hrow, Hcs.
  destruct (mapi2 f b !! r) as [row'|]; cbn in H; [|done].
  by rewrite H.
Qed.

Lemma wf_board_mapi2 (f : nat → nat → CellState → CellState) (b : BoardState) :
  wf_board b → wf_board (mapi2 f b).
Proof.
  intros [Hlen Hrows]. unfold mapi2. split; [by rewrite length_imap|].
  apply Forall_forall. intros row Hrow.
  apply list_elem_of_lookup in Hrow as [i Hi].
  rewrite list_lookup_imap in Hi.
  destruct (b !! i) as [brow|] eqn:Hb; cbn in Hi; [|done].
  injection Hi as <-. rewrite length_imap.
  rewrite Forall_forall in Hrows. apply Hrows, list_elem_of_lookup. eauto.
Qed.

Lemma boardToGrid_mapi2 (f : nat → nat → CellState → CellState) (b : BoardState) :
  wf_board b →
  (∀ r c cs, value (f r c cs) = value cs) →
  boardToGrid (mapi2 f b) = boardToGrid b.
Proof.
  intros Hwf Hf.
  apply grid_ext; [by apply wf_boardToGrid, wf_board_mapi2
                  |by apply wf_boardToGrid|].
  intros r c Hr Hc. rewrite !cell_boardToGrid, bcell_mapi2 by done. apply Hf.
Qed.

Lemma isBoardComplete_validated (board : BoardState) :
  wf_board board →
  isBoardComplete (validateBoard board) = true ↔
  (∀ r c, r < 9 → c < 9 → value (bcell board r c) ≠ 0%Z) ∧
  no_conflicts (boardToGrid board).
Proof.
  intros Hwf. destruct (validateBoard_spec board Hwf) as [[Hwf' Hsame] Hflag].
  unfold isBoardComplete. rewrite negb_true_iff, existsb_false.
  split.
  - intros Hall.
    assert (Hcell : ∀ r c, r < 9 → c < 9 →
              value (bcell board r c) ≠ 0%Z ∧ ¬ in_conflict board r c).
    { intros r c Hr Hc.
      assert (Hin : In (r, c) all_positions) by (apply in_all_positions; lia).
      specialize (Hall _ Hin). cbv beta iota in Hall.
      apply orb_false_iff in Hall as [Hv He].
      rewrite (proj1 (Hsame r c Hr Hc)) in Hv. apply Z.eqb_neq in Hv.
      split; [done|]. rewrite <- Hflag by done. by rewrite He. }
    split; [intros r c Hr Hc; by apply Hcell|].
    intros r c r' c' Hr Hc Hr' Hc' Hrel Hnz Heq.
    rewrite !cell_boardToGrid in *.
    apply (proj2 (Hcell r c Hr Hc)). split; [done|]. by exists r', c'.
  - intros [Hfull Hnc] [r c] Hin. apply in_all_positions in Hin as [Hr Hc].
    apply orb_false_iff. split.
    + rewrite (proj1 (Hsame r c Hr Hc)). by apply Z.eqb_neq, Hfull.
    + apply not_true_is_false. rewrite Hflag by done.
      intros (Hnz & r' & c' & Hr' & Hc' & Hrel & Heq).
      apply (Hnc r c r' c' Hr Hc Hr' Hc' Hrel); rewrite !cell_boardToGrid; done.
Qed.


End BoardLemmas.

(** X1: for a cell of the grid, [getRelatedCells] lists exactly the other
    cells of the grid that share its row, its column or its 3x3 box: each of
    them once, 20 in all, and never the cell itself. *)
Theorem getRelatedCells_exact (row col : nat) :
  row < 9 → col < 9 →
  (∀ r c, (r, c) ∈ getRelatedCells row col ↔ r < 9 ∧ c < 9 ∧ related row col r c) ∧
  ((row, col) ∉ getRelatedCells row col) ∧
  NoDup (getRelatedCells row col) ∧
  length (getRelatedCells row col) = 20.
Proof.
  intros Hrow Hcol.
  destruct (getRelatedCells_spec row col Hrow Hcol) as (Hin & Hnd & Hlen).
  split; [done|]. split; [|done].
  intros (_ & _ & [[Hne|Hne] _])%Hin; done.
Qed.

Lemma getRelatedCells_exact_witness :
  (∀ r c, (r, c) ∈ getRelatedCells 4 7 ↔ r < 9 ∧ c < 9 ∧ related 4 7 r c) ∧
  ((4, 7) ∉ getRelatedCells 4 7) ∧
  NoDup (getRelatedCells 4 7) ∧
  length (getRelatedCells 4 7) = 20.
Proof. apply (getRelatedCells_exact 4 7); lia. Defined.

(** X2: [isValidPlacement] accepts a number for a cell of the grid exactly
    when the number is 0 or no other cell of the row, the column or the box
    holds it; what the cell itself holds plays no part. *)
Theorem isValidPlacement_iff (grid : Grid) (row col : nat) (num : Z) :
  wf_grid grid → row < 9 → col < 9 →
  (isValidPlacement grid row col num = true ↔
   num = 0%Z ∨
   ∀ r c, r < 9 → c < 9 → related row col r c → cell grid r c ≠ num) ∧
  (∀ v, isValidPlacement (setCell grid row col v) row col num
        = isValidPlacement grid row col num).
Proof.
  intros _ Hrow Hcol. split; [by apply isValidPlacement_spec|].
  intros v. apply eq_true_iff_eq.
  rewrite !isValidPlacement_spec by done.
  split; (intros [H|H]; [by left|right]); intros r c Hr Hc Hrel.
  - rewrite <- (cell_setCell_ne grid row col v r c) by apply Hrel. by apply H.
  - rewrite cell_setCell_ne by apply Hrel. by apply H.
Qed.

Lemma isValidPlacement_iff_witness :
  (isValidPlacement one_missing 0 0 1%Z = true ↔
   1%Z = 0%Z ∨
   ∀ r c, r < 9 → c < 9 → related 0 0 r c → cell one_missing r c ≠ 1%Z) ∧
  (∀ v, isValidPlacement (setCell one_missing 0 0 v) 0 0 1%Z
        = isValidPlacement one_missing 0 0 1%Z).
Proof.
  apply (isValidPlacement_iff one_missing 0 0 1%Z); [|lia|lia].
  apply wf_gridb_true. vm_compute. reflexivity.
Defined.

(** X3: [validateBoard] returns a 9x9 board that differs from its argument in
    the error flags only, and flags exactly the filled cells whose value is
    also held by another cell of the same row, column or box; flags set
    before the call do not survive. *)
Theorem validateBoard_flags_conflicts (board : BoardState) :
  wf_board board →
  wf_board (validateBoard board) ∧
  ∀ r c, r < 9 → c < 9 →
    value (bcell (validateBoard board) r c) = value (bcell board r c) ∧
    isGiven (bcell (validateBoard board) r c) = isGiven (bcell board r c) ∧
    Hints.candidates (bcell (validateBoard board) r c)
      = Hints.candidates (bcell board r c) ∧
    isHighlighted (bcell (validateBoard board) r c)
      = isHighlighted (bcell board r c) ∧
    (isError (bcell (validateBoard board) r c) = true ↔ in_conflict board r c).
Proof.
  intros Hwf. destruct (validateBoard_spec board Hwf) as [[Hwf' Hsame] Hflag].
  split; [done|]. intros r c Hr Hc.
  destruct (Hsame r c Hr Hc) as (? & ? & ? & ?). repeat (split; [done|]).
  by apply Hflag.
Qed.

Lemma validateBoard_flags_conflicts_witness :
  wf_board (validateBoard clash_board) ∧
  ∀ r c, r < 9 → c < 9 →
    value (bcell (validateBoard clash_board) r c) = value (bcell clash_board r c) ∧
    isGiven (bcell (validateBoard clash_board) r c)
      = isGiven (bcell clash_board r c) ∧
    Hints.candidates (bcell (validateBoard clash_board) r c)
      = Hints.candidates (bcell clash_board r c) ∧
    isHighlighted (bcell (validateBoard clash_board) r c)
      = isHighlighted (bcell clash_board r c) ∧
    (isError (bcell (validateBoard clash_board) r c) = true
     ↔ in_conflict clash_board r c).
Proof.
  apply (validateBoard_flags_conflicts clash_board).
  apply wf_boardb_true. vm_compute. reflexivity.
Defined.

(** X4: validating a board a second time changes nothing. *)
Theorem validateBoard_idempotent (board : BoardState) :
  wf_board board →
  validateBoard (validateBoard board) = validateBoard board.
Proof.
  intros Hwf.
  destruct (validateBoard_spec board Hwf) as [[Hwf1 Hsame1] Hflag1].
  destruct (validateBoard_spec _ Hwf1) as [[Hwf2 Hsame2] Hflag2].
  apply board_ext; [done..|]. intros r c Hr Hc.
  destruct (Hsame2 r c Hr Hc) as (Hv & Hg & Hc' & Hh).
  assert (He : isError (bcell (validateBoard (validateBoard board)) r c)
               = isError (bcell (validateBoard board) r c)).
  { apply eq_true_iff_eq. rewrite Hflag2, Hflag1 by done.
    unfold in_conflict.
    destruct (Hsame1 r c Hr Hc) as (-> & _).
    split; intros (Hnz & r' & c' & Hr' & Hc'' & Hrel & Heq); (split; [done|]);
      exists r', c'; (split; [done|]); (split; [done|]); (split; [done|]).
    - by rewrite <- (proj1 (Hsame1 r' c' Hr' Hc'')).
    - by rewrite (proj1 (Hsame1 r' c' Hr' Hc'')). }
  destruct (bcell (validateBoard (validateBoard board)) r c),
    (bcell (validateBoard board) r c).
  cbn in *. congruence.
Qed.

Lemma validateBoard_idempotent_witness :
  validateBoard (validateBoard clash_board) = validateBoard clash_board.
Proof.
  apply (validateBoard_idempotent clash_board).
  apply wf_boardb_true. vm_compute. reflexivity.
Defined.

(** X5: after [validateBoard], [isBoardComplete] holds exactly when no cell of
    the board is empty and no two cells of a row, a column or a box hold the
    same value. *)
Theorem isBoardComplete_validateBoard (board : BoardState) :
  wf_board board →
  isBoardComplete (validateBoard board) = true ↔
  (∀ r c, r < 9 → c < 9 → value (bcell board r c) ≠ 0%Z) ∧
  no_conflicts (boardToGrid board).
Proof. apply isBoardComplete_validated. Qed.

Lemma isBoardComplete_validateBoard_witness :
  isBoardComplete (validateBoard (board_of_grid sample_solution)) = true ↔
  (∀ r c, r < 9 → c < 9 →
          value (bcell (board_of_grid sample_solution) r c) ≠ 0%Z) ∧
  no_conflicts (boardToGrid (board_of_grid sample_solution)).
Proof.
  apply (isBoardComplete_validateBoard (board_of_grid sample_solution)).
  apply wf_boardb_true. vm_compute. reflexivity.
Defined.

(** X6: the set of [getRelatedCellsForHighlight] for a selected cell of the
    grid holds the same cells, in the same insertion order, as the list of
    [getRelatedCells]: the 20 other cells of the row, the column and the box,
    without the selected cell; with no selection the set is empty. *)
Theorem getRelatedCellsForHighlight_getRelatedCells (row col : nat) :
  row < 9 → col < 9 →
  getRelatedCellsForHighlight (Some (row, col)) = getRelatedCells row col ∧
  (∀ r c, (r, c) ∈ getRelatedCellsForHighlight (Some (row, col))
          ↔ r < 9 ∧ c < 9 ∧ related row col r c) ∧
  ((row, col) ∉ getRelatedCellsForHighlight (Some (row, col))) ∧
  getRelatedCellsForHighlight None = [].
Proof.
  intros Hrow Hcol.
  assert (Heq : getRelatedCellsForHighlight (Some (row, col))
                = getRelatedCells row col).
  { pose proof highlight_same_list_all as H. rewrite forallb_forall in H.
    specialize (H (row, col)). cbv beta iota in H.
    eapply bool_decide_eq_true_1, H, in_all_positions. lia. }
  destruct (getRelatedCells_spec row col Hrow Hcol) as (Hin & _ & _).
  rewrite Heq. split; [done|]. split; [done|]. split; [|done].
  intros (_ & _ & [[Hne|Hne] _])%Hin; done.
Qed.

Lemma getRelatedCellsForHighlight_getRelatedCells_witness :
  getRelatedCellsForHighlight (Some (0, 8)) = getRelatedCells 0 8 ∧
  (∀ r c, (r, c) ∈ getRelatedCellsForHighlight (Some (0, 8))
          ↔ r < 9 ∧ c < 9 ∧ related 0 8 r c) ∧
  ((0, 8) ∉ getRelatedCellsForHighlight (Some (0, 8))) ∧
  getRelatedCellsForHighlight None = [].
Proof. apply (getRelatedCellsForHighlight_getRelatedCells 0 8); lia. Defined.

(** X7: for a selected cell that holds a number, [getSameNumberCells] holds
    exactly the other cells of the board with that number, each once; it is
    empty when the selected cell is empty and when nothing is selected. *)
Theorem getSameNumberCells_members (board : BoardState) (row col : nat) :
  wf_board board → row < 9 → col < 9 →
  (∀ r c, (r, c) ∈ getSameNumberCells board (Some (row, col)) ↔
          r < 9 ∧ c < 9 ∧ (r ≠ row ∨ c ≠ col) ∧
          value (bcell board row col) ≠ 0%Z ∧
          value (bcell board r c) = value (bcell board row col)) ∧
  NoDup (getSameNumberCells board (Some (row, col))) ∧
  (value (bcell board row col) = 0%Z →
   getSameNumberCells board (Some (row, col)) = []) ∧
  getSameNumberCells board None = [].
Proof.
  intros Hwf Hrow Hcol. unfold getSameNumberCells.
  destruct (value (bcell board row col) =? 0)%Z eqn:Hz.
  - apply Z.eqb_eq in Hz. split; [|split; [apply NoDup_nil_2|done]].
    intros r c. split; [by intros ?%elem_of_nil|]. intros (_ & _ & _ & ? & _). done.
  - apply Z.eqb_neq in Hz.
    destruct (fold_set_add
                (fun '(r, c) =>
                   (value (bcell board r c) =? value (bcell board row col))%Z
                   && (negb (r =? row) || negb (c =? col)))
                all_positions [] (NoDup_nil_2 (A := Position))) as [Hnd Hin].
    assert (Hfold :
      fold_left (fun s '(r, c) =>
                   if (value (bcell board r c) =? value (bcell board row col))%Z
                      && (negb (r =? row) || negb (c =? col))
                   then set_add (r, c) s else s) all_positions []
      = fold_left (fun s p =>
                     if (let '(r, c) := p in
                         (value (bcell board r c) =? value (bcell board row col))%Z
                         && (negb (r =? row) || negb (c =? col)))
                     then set_add p s else s) all_positions []).
    { generalize (@nil Position). generalize all_positions.
      induction l as [|[r c] l IH]; intros s; cbn [fold_left]; [done|]. apply IH. }
    rewrite Hfold.
    split; [|split; [exact Hnd|split; [intros H; contradiction|reflexivity]]].
    intros r c. rewrite (Hin (r, c)). cbv beta iota.
    rewrite in_all_positions, andb_true_iff, orb_true_iff, !negb_true_iff,
      !Nat.eqb_neq, Z.eqb_eq.
    split.
    + intros [Hnil|[[Hr Hc] [Hv Hne]]].
      { exfalso. clear -Hnil. inversion Hnil. }
      clear Hin Hfold Hnd. repeat (split; [assumption|]). assumption.
    + intros (Hr & Hc & Hne & _ & Hv). right. clear Hin Hfold Hnd.
      split; split; assumption.
Qed.

Lemma getSameNumberCells_members_witness :
  (∀ r c, (r, c) ∈ getSameNumberCells clash_board (Some (0, 0)) ↔
          r < 9 ∧ c < 9 ∧ (r ≠ 0 ∨ c ≠ 0) ∧
          value (bcell clash_board 0 0) ≠ 0%Z ∧
          value (bcell clash_board r c) = value (bcell clash_board 0 0)) ∧
  NoDup (getSameNumberCells clash_board (Some (0, 0))) ∧
  (value (bcell clash_board 0 0) = 0%Z →
   getSameNumberCells clash_board (Some (0, 0)) = []) ∧
  getSameNumberCells clash_board None = [].
Proof.
  apply (getSameNumberCells_members clash_board 0 0); [|lia|lia].
  apply wf_boardb_true. vm_compute. reflexivity.
Defined.

(** X8: [autoFillCandidates] changes pencil marks only.  An empty cell that is
    not a given gets as marks exactly the digits 1..9 that no other cell of
    its row, column or box holds; every other cell loses its marks.  The
    values are untouched, so the hint for the board stays the same. *)
Theorem autoFillCandidates_marks (board : BoardState) :
  wf_board board →
  wf_board (autoFillCandidates board) ∧
  boardToGrid (autoFillCandidates board) = boardToGrid board ∧
  getHint (autoFillCandidates board) = getHint board ∧
  ∀ r c, r < 9 → c < 9 →
    value (bcell (autoFillCandidates board) r c) = value (bcell board r c) ∧
    isGiven (bcell (autoFillCandidates board) r c) = isGiven (bcell board r c) ∧
    isError (bcell (autoFillCandidates board) r c) = isError (bcell board r c) ∧
    isHighlighted (bcell (autoFillCandidates board) r c)
      = isHighlighted (bcell board r c) ∧
    ∀ n, n ∈ Hints.candidates (bcell (autoFillCandidates board) r c) ↔
         value (bcell board r c) = 0%Z ∧ isGiven (bcell board r c) = false ∧
         (1 ≤ n ≤ 9)%Z ∧
         ∀ r' c', r' < 9 → c' < 9 → related r c r' c' →
                  value (bcell board r' c') ≠ n.
Proof.
  intros Hwf.
  assert (Hgrid : boardToGrid (autoFillCandidates board) = boardToGrid board)
    by (by apply boardToGrid_mapi2).
  split; [by apply wf_board_mapi2|]. split; [done|].
  split; [unfold getHint; by rewrite Hgrid|].
  intros r c Hr Hc. unfold autoFillCandidates.
  rewrite bcell_mapi2 by done. cbn [value isGiven isError isHighlighted Hints.candidates].
  repeat (split; [done|]). intros n.
  destruct (value (bcell board r c) =? 0)%Z eqn:Hz; cbn [andb].
  2: { apply Z.eqb_neq in Hz. split; [by intros ?%elem_of_nil|]. tauto. }
  apply Z.eqb_eq in Hz.
  destruct (isGiven (bcell board r c)); cbn [negb].
  { split; [by intros ?%elem_of_nil|]. intros (_ & ? & _). done. }
  rewrite list_elem_of_In.
  change (cands (getCandidatesForBoard (boardToGrid board)) r c)
    with (candidateSet (boardToGrid board) r c).
  rewrite candidateSet_spec by (rewrite ?cell_boardToGrid; done).
  split.
  - intros [Hn Hrel]. repeat (split; [done|]). intros r' c' Hr' Hc' Hr'c'.
    rewrite <- cell_boardToGrid. by apply Hrel.
  - intros (_ & _ & Hn & Hrel). split; [done|]. intros r' c' Hr' Hc' Hr'c'.
    rewrite cell_boardToGrid. by apply Hrel.
Qed.

Lemma autoFillCandidates_marks_witness :
  wf_board (autoFillCandidates clash_board) ∧
  boardToGrid (autoFillCandidates clash_board) = boardToGrid clash_board ∧
  getHint (autoFillCandidates clash_board) = getHint clash_board ∧
  ∀ r c, r < 9 → c < 9 →
    value (bcell (autoFillCandidates clash_board) r c)
      = value (bcell clash_board r c) ∧
    isGiven (bcell (autoFillCandidates clash_board) r c)
      = isGiven (bcell clash_board r c) ∧
    isError (bcell (autoFillCandidates clash_board) r c)
      = isError (bcell clash_board r c) ∧
    isHighlighted (bcell (autoFillCandidates clash_board) r c)
      = isHighlighted (bcell clash_board r c) ∧
    ∀ n, n ∈ Hints.candidates (bcell (autoFillCandidates clash_board) r c) ↔
         value (bcell clash_board r c) = 0%Z ∧
         isGiven (bcell clash_board r c) = false ∧
         (1 ≤ n ≤ 9)%Z ∧
         ∀ r' c', r' < 9 → c' < 9 → related r c r' c' →
                  value (bcell clash_board r' c') ≠ n.
Proof.
  apply (autoFillCandidates_marks clash_board).
  apply wf_boardb_true. vm_compute. reflexivity.
Defined.

(** ** Hints and solutions

    A hint of a single (naked or hidden) names the value that every solution
    of the grid has in the target cell. *)

Section Units.

Lemma unitb_true (unit : list Position) : unitb unit = true → is_unit unit.
Proof.
  unfold unitb, is_unit. rewrite !andb_true_iff, Nat.eqb_eq, !forallb_forall.
  intros [[[Hlen Hnd] Hin] Hrel]. apply bool_decide_eq_true_1 in Hnd.
  split; [done|]. split; [done|]. split.
  - intros r c Hrc. specialize (Hin _ Hrc). cbv beta iota in Hin.
    apply andb_true_iff in Hin. by rewrite !Nat.ltb_lt in Hin.
  - intros r c r' c' Hrc Hrc'. specialize (Hrel _ Hrc). cbv beta iota in Hrel.
    rewrite forallb_forall in Hrel. specialize (Hrel _ Hrc'). cbv beta iota in Hrel.
    apply orb_true_iff in Hrel as [Heq|Hrel].
    + left. by apply bool_decide_eq_true_1 in Heq.
    + right. by apply relatedb_related.
Qed.

Lemma rows_are_units :
  forallb (fun row => unitb (getRowCells row)) (seq 0 9) = true.
Proof. vm_compute. reflexivity. Qed.

Lemma cols_are_units :
  forallb (fun col => unitb (getColCells col)) (seq 0 9) = true.
Proof. vm_compute. reflexivity. Qed.

Lemma boxes_are_units :
  forallb (fun boxRow =>
             forallb (fun boxCol => unitb (boxAt (boxRow * 3) (boxCol * 3)))
                     (seq 0 3))
          (seq 0 3) = true.
Proof. vm_compute. reflexivity. Qed.

Lemma is_unit_row row : row < 9 → is_unit (getRowCells row).
Proof.
  intros Hrow. apply unitb_true.
  pose proof rows_are_units as H. rewrite forallb_forall in H.
  apply H, in_seq. lia.
Qed.

Lemma is_unit_col col : col < 9 → is_unit (getColCells col).
Proof.
  intros Hcol. apply unitb_true.
  pose proof cols_are_units as H. rewrite forallb_forall in H.
  apply H, in_seq. lia.
Qed.

Lemma is_unit_box boxRow boxCol :
  boxRow < 3 → boxCol < 3 → is_unit (boxAt (boxRow * 3) (boxCol * 3)).
Proof.
  intros Hr Hc. apply unitb_true.
  pose proof boxes_are_units as H. rewrite forallb_forall in H.
  specialize (H boxRow). rewrite in_seq, forallb_forall in H.
  apply H; [lia|]. apply in_seq. lia.
Qed.

Lemma filter_map_comm {A B} (f : B → bool) (k : A → B) (l : list A) :
  List.filter f (map k l) = map k (List.filter (fun x => f (k x)) l).
Proof.
  induction l as [|a l IH]; cbn; [done|]. destruct (f (k a)); cbn; by rewrite IH.
Qed.

End Units.

Section HintSoundness.

Variables g h : Grid.
Hypothesis Hsol : solution_of g h.

(** The value of a solution in an empty cell is one of the cell's
    candidates. *)
Lemma solution_candidate r c :
  r < 9 → c < 9 → cell g r c = 0%Z → In (cell h r c) (candidateSet g r c).
Proof.
  intros Hr Hc Hz. destruct Hsol as (Hwfh & Hcomp & Hnc & Hext).
  apply candidateSet_spec; [done..|]. split; [by apply Hcomp|].
  intros r' c' Hr' Hc' Hrel Heq.
  pose proof (Hcomp r c Hr Hc) as Hv.
  assert (Hnz : cell g r' c' ≠ 0%Z) by lia.
  specialize (Hext r' c' Hr' Hc' Hnz).
  apply (Hnc r c r' c' Hr Hc Hr' Hc' Hrel); [lia|congruence].
Qed.

(** In a solution every digit occurs in every unit. *)
Lemma unit_has_digit (unit : list Position) (num : Z) :
  is_unit unit → In num digits →
  ∃ r c, In (r, c) unit ∧ cell h r c = num.
Proof.
  intros (Hlen & Hnd & Hrange & Hrel) Hnum.
  destruct Hsol as (Hwfh & Hcomp & Hnc & Hext).
  assert (Hvals : List.NoDup (map (fun '(r, c) => cell h r c) unit)).
  { apply NoDup_ListNoDup.
    apply (NoDup_fmap_2_strong (fun '(r, c) => cell h r c)); [|done].
    intros [r c] [r' c'] Hp%list_elem_of_In Hq%list_elem_of_In Heq.
    destruct (Hrel r c r' c' Hp Hq) as [?|Hrelated]; [done|].
    destruct (Hrange r c Hp) as [Hr Hc]. destruct (Hrange r' c' Hq) as [Hr' Hc'].
    pose proof (Hcomp r c Hr Hc).
    exfalso. apply (Hnc r c r' c' Hr Hc Hr' Hc' Hrelated); [lia|done]. }
  assert (Hincl : incl (map (fun '(r, c) => cell h r c) unit) digits).
  { intros v ([r c] & <- & Hin)%in_map_iff. apply in_digits.
    destruct (Hrange r c Hin). by apply Hcomp. }
  assert (Hall : incl digits (map (fun '(r, c) => cell h r c) unit)).
  { apply NoDup_length_incl; [done| |done]. rewrite length_map, Hlen. done. }
  apply Hall, in_map_iff in Hnum as ([r c] & Heq & Hin). eauto.
Qed.

(** A digit with one place left in a unit: every solution has it there. *)
Lemma hidden_single_unit (unit : list Position) (num : Z) r c :
  is_unit unit → In num digits →
  List.filter (fun '(r, c) => (cell g r c =? 0)%Z
                              && has (cands (initializeCandidates g) r c) num)
              unit = [(r, c)] →
  cell h r c = num.
Proof.
  intros Hunit Hnum Hfil.
  destruct (unit_has_digit unit num Hunit Hnum) as (r1 & c1 & Hin1 & Hv1).
  pose proof Hunit as (_ & _ & Hrange & Hrel).
  pose proof (filter_singleton_In _ _ _ Hfil) as [Hin Hp].
  apply andb_true_iff in Hp as [Hz%Z.eqb_eq Hhas%has_In].
  destruct (Hrange r c Hin) as [Hr Hc].
  destruct (Hrange r1 c1 Hin1) as [Hr1 Hc1].
  apply cands_initializeCandidates_In in Hhas as (_ & Hn & Hvalid); [|done..].
  apply isValidPlacement_spec in Hvalid as [->|Hfree]; [lia| |done..].
  destruct (Z.eq_dec (cell g r1 c1) 0%Z) as [Hz1|Hnz1].
  - assert (Hpass : In (r1, c1)
        (List.filter (fun '(r, c) => (cell g r c =? 0)%Z
                                     && has (cands (initializeCandidates g) r c) num)
                     unit)).
    { apply filter_In. split; [done|]. apply andb_true_iff.
      split; [by apply Z.eqb_eq|]. apply has_In.
      rewrite <- Hv1. by apply solution_candidate. }
    rewrite Hfil in Hpass. destruct Hpass as [[= <- <-]|[]]. done.
  - destruct Hsol as (_ & _ & _ & Hext).
    specialize (Hext r1 c1 Hr1 Hc1 Hnz1).
    destruct (Hrel r c r1 c1 Hin Hin1) as [[= <- <-]|Hrelated]; [done|].
    exfalso. apply (Hfree r1 c1 Hr1 Hc1 Hrelated). congruence.
Qed.

Lemma findNakedSingle_sound hint :
  findNakedSingle g (initializeCandidates g) = Some hint →
  cell h (fst (targetCell hint)) (snd (targetCell hint)) = targetValue hint.
Proof.
  intros ([r c] & Hin & Hf)%first_some_In.
  apply in_all_positions in Hin as [Hr Hc].
  destruct (Z.eqb_spec (cell g r c) 0) as [Hz|]; [|done].
  destruct (cands _ r c) as [|v [|? ?]] eqn:Hcs; try done.
  injection Hf as <-. cbn [targetCell targetValue fst snd].
  pose proof (solution_candidate r c Hr Hc Hz) as Hcand.
  unfold candidateSet in Hcand. rewrite Hcs in Hcand.
  by destruct Hcand as [->|[]].
Qed.

Lemma findHiddenSingle_sound hint :
  findHiddenSingle g (initializeCandidates g) = Some hint →
  cell h (fst (targetCell hint)) (snd (targetCell hint)) = targetValue hint.
Proof.
  intros (num & Hnum & Hf)%first_some_In.
  revert Hf. unfold or_else.
  destruct (first_some _ (seq 0 9)) as [h1|] eqn:Hrows at 1.
  { intros [= ->]. apply first_some_In in Hrows as (row & Hrow & Hf).
    apply in_seq in Hrow.
    destruct (List.filter _ _) as [|col [|? ?]] eqn:Hfil; try done.
    injection Hf as <-. cbn [targetCell targetValue fst snd].
    apply (hidden_single_unit (getRowCells row) num row col);
      [apply is_unit_row; lia|done|].
    unfold getRowCells. rewrite filter_map_comm. cbv beta iota.
    by rewrite Hfil. }
  destruct (first_some _ (seq 0 9)) as [h1|] eqn:Hcols at 1.
  { intros [= ->]. apply first_some_In in Hcols as (col & Hcol & Hf).
    apply in_seq in Hcol.
    destruct (List.filter _ _) as [|row [|? ?]] eqn:Hfil; try done.
    injection Hf as <-. cbn [targetCell targetValue fst snd].
    apply (hidden_single_unit (getColCells col) num row col);
      [apply is_unit_col; lia|done|].
    unfold getColCells. rewrite filter_map_comm. cbv beta iota.
    by rewrite Hfil. }
  intros Hf. apply first_some_In in Hf as ([boxRow boxCol] & Hbox & Hf).
  apply in_flat_map in Hbox as (br & Hbr & Hbc).
  apply in_map_iff in Hbc as (bc & [= <- <-] & Hbc). apply in_seq in Hbr, Hbc.
  destruct (List.filter _ _) as [|[row col] [|? ?]] eqn:Hfil; try done.
  injection Hf as <-. cbn [targetCell targetValue fst snd].
  apply (hidden_single_unit (boxAt (br * 3) (bc * 3)) num row col);
    [apply is_unit_box; lia|done|exact Hfil].
Qed.

Lemma findNextHint_sound allowed hint :
  findNextHint g allowed = Some hint →
  technique hint ≠ naked_pair →
  cell h (fst (targetCell hint)) (snd (targetCell hint)) = targetValue hint.
Proof.
  rewrite findNextHint_ladder. unfold or_else. intros Hf Hne.
  destruct (if includes allowed naked_single then _ else None) as [h1|] eqn:H1.
  { injection Hf as ->. destruct (includes allowed naked_single); [|done].
    by apply findNakedSingle_sound. }
  destruct (if includes allowed hidden_single then _ else None) as [h2|] eqn:H2.
  { injection Hf as ->. destruct (includes allowed hidden_single); [|done].
    by apply findHiddenSingle_sound. }
  destruct (includes allowed naked_pair); [|done].
  apply findNakedPair_Some in Hf as [Ht _]. done.
Qed.

End HintSoundness.

(** ** Runs of the technique solver *)

Section SolveRuns.

Lemma extendsb_true (g h : Grid) : extendsb g h = true → extends g h.
Proof.
  unfold extendsb, extends. rewrite forallb_forall. intros H r c Hr Hc Hnz.
  assert (Hin : In (r, c) all_positions) by (apply in_all_positions; lia).
  specialize (H _ Hin). cbv beta iota in H.
  apply orb_true_iff in H as [Hz%Z.eqb_eq|Heq%Z.eqb_eq]; done.
Qed.

Lemma sample_solution_of_one_missing : solution_of one_missing sample_solution.
Proof.
  split; [apply sample_solution_wf|]. split; [apply sample_solution_complete|].
  split; [apply sample_solution_no_conflicts|].
  apply extendsb_true. vm_compute. reflexivity.
Qed.

Lemma sample_solution_of_two_missing : solution_of two_missing sample_solution.
Proof.
  split; [apply sample_solution_wf|]. split; [apply sample_solution_complete|].
  split; [apply sample_solution_no_conflicts|].
  apply extendsb_true. vm_compute. reflexivity.
Qed.

Lemma isSolved_full (g : Grid) :
  isSolved g = true ↔ ∀ r c, r < 9 → c < 9 → cell g r c ≠ 0%Z.
Proof.
  rewrite isSolved_emptyCells. unfold emptyCells. split.
  - intros Hnil r c Hr Hc Hz.
    assert (Hin : In (r, c) (List.filter (fun '(r, c) => (cell g r c =? 0)%Z)
                                         all_positions)).
    { apply filter_In. split; [apply in_all_positions; lia|by apply Z.eqb_eq]. }
    rewrite Hnil in Hin. destruct Hin.
  - intros Hfull.
    destruct (List.filter _ _) as [|[r c] l] eqn:Hfil; [done|].
    assert (Hin : In (r, c) (List.filter (fun '(r, c) => (cell g r c =? 0)%Z)
                                         all_positions))
      by (rewrite Hfil; now left).
    apply filter_In in Hin as [[Hr Hc]%in_all_positions Hz%Z.eqb_eq].
    by destruct (Hfull r c Hr Hc).
Qed.

Lemma filter_length_one_less {A} (f f' : A → bool) (l : list A) x :
  List.NoDup l → In x l → f x = true → f' x = false →
  (∀ y, y ≠ x → f' y = f y) →
  S (length (List.filter f' l)) = length (List.filter f l).
Proof.
  intros Hnd Hin Hfx Hf'x Hsame.
  assert (Hout : ∀ l', ¬ In x l' →
                       length (List.filter f' l') = length (List.filter f l')).
  { induction l' as [|a l' IH]; intros Hx; cbn; [done|].
    rewrite Hsame by (intros ->; apply Hx; now left).
    destruct (f a); cbn; rewrite IH; try done; intros ?; apply Hx; now right. }
  induction l as [|a l IH]; [destruct Hin|].
  apply List.NoDup_cons_iff in Hnd as [Ha Hnd]. cbn.
  destruct Hin as [->|Hin].
  - rewrite Hfx, Hf'x. cbn. by rewrite Hout.
  - assert (a ≠ x) by (intros ->; done).
    rewrite Hsame by done. destruct (f a); cbn; by rewrite IH.
Qed.

(** A hint fills exactly one empty cell. *)
Lemma emptyCells_applyHint_exact (g : Grid) (h : Hint) :
  wf_grid g → hint_ok g h →
  S (length (emptyCells (applyHint g h))) = length (emptyCells g).
Proof.
  intros Hwf (Hr & Hc & Hz & Hv). destruct (targetCell h) as [r c] eqn:Ht.
  cbn [fst snd] in *. unfold emptyCells, applyHint. rewrite Ht. cbn [fst snd].
  apply filter_length_one_less with (r, c).
  - apply NoDup_ListNoDup, NoDup_all_positions.
  - by apply in_all_positions.
  - by apply Z.eqb_eq.
  - rewrite cell_setCell_eq by done. apply Z.eqb_neq. lia.
  - intros [r' c'] Hne. rewrite cell_setCell_ne; [done|].
    destruct (decide (r = r')) as [->|]; [right; intros ->; by apply Hne|by left].
Qed.

Lemma hint_run_count (allowed : list TechniqueName) (g : Grid) ts g' :
  hint_run allowed g ts g' → wf_grid g →
  (∀ t, t ∈ ts → t ∈ allowed ∧ t ≠ pointing_pair) ∧
  length (emptyCells g') + length ts = length (emptyCells g).
Proof.
  induction 1 as [g|g h ts g' Hs Hh Hrun IH]; intros Hwf.
  - split; [by intros t ?%elem_of_nil|]. cbn. lia.
  - pose proof (findNextHint_Some _ _ _ Hh) as (Hkind & Hallowed & Hok).
    destruct IH as [IHt IHlen]; [by apply wf_setCell|].
    pose proof (emptyCells_applyHint_exact g h Hwf Hok).
    split; [|cbn; lia].
    intros t [->|Ht]%elem_of_cons; [|by apply IHt].
    split; [done|]. destruct Hkind as [->|[->| ->]]; done.
Qed.

(** A run of single hints stays below every solution. *)
Lemma hint_run_solution (allowed : list TechniqueName) (g : Grid) ts g' (h : Grid) :
  naked_pair ∉ allowed →
  hint_run allowed g ts g' → wf_grid g → solution_of g h → solution_of g' h.
Proof.
  intros Hno. induction 1 as [g|g hint ts g' Hs Hh Hrun IH]; intros Hwf Hsol; [done|].
  pose proof (findNextHint_Some _ _ _ Hh) as (_ & Hallowed & Hr & Hc & Hz & Hv).
  apply IH; [by apply wf_setCell|].
  assert (Hval : cell h (fst (targetCell hint)) (snd (targetCell hint))
                 = targetValue hint).
  { apply (findNextHint_sound g h Hsol allowed); [done|].
    intros Heq. rewrite Heq in Hallowed. done. }
  destruct Hsol as (Hwfh & Hcomp & Hnc & Hext).
  split; [done|]. split; [done|]. split; [done|].
  intros r c Hr' Hc'. unfold applyHint. rewrite cell_setCell by done.
  case_decide as Heq; [|by apply Hext].
  destruct Heq as [<- <-]. by intros _.
Qed.

Lemma solveLoop_S (fuel : nat) (g : Grid) (allowed used : list TechniqueName) :
  solveLoop (S fuel) g allowed used
  = if isSolved g then {| solved := true; techniques := used |}
    else match findNextHint g allowed with
         | None => {| solved := false; techniques := used |}
         | Some hint =>
             solveLoop fuel
                       (setCell g (fst (targetCell hint)) (snd (targetCell hint))
                                (targetValue hint))
                       allowed (used ++ [technique hint])
         end.
Proof. reflexivity. Qed.

Lemma solvePuzzleWithTechniques_run (puzzle : Grid) (allowed : list TechniqueName) :
  wf_grid puzzle →
  ∃ g', hint_run allowed puzzle
                 (techniques (solvePuzzleWithTechniques puzzle allowed)) g' ∧
        wf_grid g' ∧
        solved (solvePuzzleWithTechniques puzzle allowed) = isSolved g'.
Proof.
  intros Hwf. unfold solvePuzzleWithTechniques. rewrite cloneGrid_id.
  destruct (solveLoop_run allowed maxIterations puzzle [] Hwf)
    as (g' & ts & Hrun & Hwf' & _ & Heq & _).
  { pose proof (emptyCells_le_81 puzzle). unfold maxIterations. lia. }
  exists g'. rewrite Heq. cbn [techniques solved app]. done.
Qed.

(** The detector with more techniques finds the hints of the detector with
    fewer, as long as the added ones come later in the ladder. *)
Lemma solveLoop_more (A B : list TechniqueName) :
  (∀ g h, findNextHint g A = Some h → findNextHint g B = Some h) →
  ∀ fuel g used,
    solved (solveLoop fuel g A used) = true →
    solveLoop fuel g B used = solveLoop fuel g A used.
Proof.
  intros Hmore. induction fuel as [|fuel IH]; intros g used; cbn [solveLoop].
  - done.
  - destruct (isSolved g); [done|].
    destruct (findNextHint g A) as [h|] eqn:Hh; [|done].
    rewrite (Hmore g h Hh). apply IH.
Qed.

Lemma findNextHint_levels (d d' : Difficulty) (g : Grid) (h : Hint) :
  difficultyRank d ≤ difficultyRank d' →
  findNextHint g (difficultyTechniques d) = Some h →
  findNextHint g (difficultyTechniques d') = Some h.
Proof.
  intros Hle. rewrite !findNextHint_ladder.
  destruct d, d'; cbn in Hle; try lia; try done; unfold or_else;
    repeat match goal with
      | |- context [includes ?l ?t] =>
          let b := eval vm_compute in (includes l t) in
          change (includes l t) with b
      end;
    cbv beta iota.
  all: repeat match goal with
         | |- context [match ?x with Some _ => _ | None => _ end] =>
             destruct x; try done
         end.
Qed.

End SolveRuns.

(** X9: the candidate set that [getCandidatesForBoard] computes for a cell of
    a 9x9 grid is empty when the cell is filled; for an empty cell it holds
    exactly the digits 1..9 that no other cell of the row, the column or the
    box holds.  The value of every solution of the grid in an empty cell is
    one of the cell's candidates. *)
Theorem getCandidatesForBoard_sets (grid : Grid) (r c : nat) :
  wf_grid grid → r < 9 → c < 9 →
  (∀ n, n ∈ cands (getCandidatesForBoard grid) r c ↔
        cell grid r c = 0%Z ∧ (1 ≤ n ≤ 9)%Z ∧
        ∀ r' c', r' < 9 → c' < 9 → related r c r' c' → cell grid r' c' ≠ n) ∧
  (cell grid r c ≠ 0%Z → cands (getCandidatesForBoard grid) r c = []) ∧
  NoDup (cands (getCandidatesForBoard grid) r c) ∧
  (∀ solution, solution_of grid solution → cell grid r c = 0%Z →
               cell solution r c ∈ cands (getCandidatesForBoard grid) r c).
Proof.
  intros Hwf Hr Hc. unfold getCandidatesForBoard.
  split; [|split; [|split]].
  - intros n. rewrite list_elem_of_In. split.
    + intros Hin.
      pose proof (cands_initializeCandidates_In grid r c n Hr Hc Hin) as (Hz & _).
      split; [done|]. by apply (candidateSet_spec grid r c n Hr Hc Hz).
    + intros (Hz & Hrest). by apply (candidateSet_spec grid r c n Hr Hc Hz).
  - intros Hnz. rewrite cands_initializeCandidates by done.
    apply Z.eqb_neq in Hnz. by rewrite Hnz.
  - rewrite cands_initializeCandidates by done.
    destruct (cell grid r c =? 0)%Z; [|apply NoDup_nil_2].
    apply NoDup_ListNoDup, List.NoDup_filter, NoDup_ListNoDup.
    apply (bool_decide_eq_true_1 (NoDup digits)). reflexivity.
  - intros solution Hsol Hz. apply list_elem_of_In.
    by apply (solution_candidate grid solution Hsol r c).
Qed.

Lemma getCandidatesForBoard_sets_witness :
  (∀ n, n ∈ cands (getCandidatesForBoard one_missing) 0 0 ↔
        cell one_missing 0 0 = 0%Z ∧ (1 ≤ n ≤ 9)%Z ∧
        ∀ r' c', r' < 9 → c' < 9 → related 0 0 r' c' →
                 cell one_missing r' c' ≠ n) ∧
  (cell one_missing 0 0 ≠ 0%Z → cands (getCandidatesForBoard one_missing) 0 0 = []) ∧
  NoDup (cands (getCandidatesForBoard one_missing) 0 0) ∧
  (∀ solution, solution_of one_missing solution → cell one_missing 0 0 = 0%Z →
               cell solution 0 0 ∈ cands (getCandidatesForBoard one_missing) 0 0).
Proof.
  apply (getCandidatesForBoard_sets one_missing 0 0); [|lia|lia].
  apply wf_gridb_true. vm_compute. reflexivity.
Defined.

(** X10: a hint of the technique naked single or hidden single is right: in
    every solution of the grid the target cell holds the target value.  (A
    naked-pair hint names the first candidate of its first cell, for which
    this need not hold.) *)
Theorem single_hint_agrees_with_solution (grid : Grid)
    (allowedTechniques : list TechniqueName) (hint : Hint) (solution : Grid) :
  wf_grid grid → solution_of grid solution →
  findNextHint grid allowedTechniques = Some hint →
  technique hint = naked_single ∨ technique hint = hidden_single →
  cell solution (fst (targetCell hint)) (snd (targetCell hint)) = targetValue hint.
Proof.
  intros _ Hsol Hh Hkind.
  apply (findNextHint_sound grid solution Hsol allowedTechniques hint Hh).
  destruct Hkind as [-> | ->]; done.
Qed.

Lemma single_hint_agrees_with_solution_witness :
  cell sample_solution (fst (targetCell corner_hint)) (snd (targetCell corner_hint))
  = targetValue corner_hint.
Proof.
  apply (single_hint_agrees_with_solution one_missing defaultTechniques
           corner_hint sample_solution).
  - apply wf_gridb_true. vm_compute. reflexivity.
  - apply sample_solution_of_one_missing.
  - vm_compute. reflexivity.
  - left. reflexivity.
Defined.

(** X11: when [solvePuzzleWithTechniques] solves a 9x9 puzzle without the
    technique naked pair, the grid it has filled in is the only solution the
    puzzle can have: every solution of the puzzle is equal to it.  So a
    puzzle that [verifyDifficulty] accepts as easy or medium has at most one
    solution. *)
Theorem singles_solve_is_the_solution (puzzle : Grid)
    (allowedTechniques : list TechniqueName) :
  wf_grid puzzle → naked_pair ∉ allowedTechniques →
  solved (solvePuzzleWithTechniques puzzle allowedTechniques) = true →
  ∃ g',
    hint_run allowedTechniques puzzle
             (techniques (solvePuzzleWithTechniques puzzle allowedTechniques)) g' ∧
    (∀ r c, r < 9 → c < 9 → cell g' r c ≠ 0%Z) ∧
    (∀ h, solution_of puzzle h → h = g') ∧
    (∀ difficulty, allowedTechniques = difficultyTechniques difficulty →
                   verifyDifficulty puzzle difficulty = true).
Proof.
  intros Hwf Hno Hsolved.
  destruct (solvePuzzleWithTechniques_run puzzle allowedTechniques Hwf)
    as (g' & Hrun & Hwf' & Heq).
  rewrite Hsolved in Heq. symmetry in Heq.
  pose proof (proj1 (isSolved_full g') Heq) as Hfull. clear Heq.
  exists g'. split; [done|]. split; [done|]. split.
  - intros h Hsol.
    pose proof (hint_run_solution _ _ _ _ h Hno Hrun Hwf Hsol)
      as (Hwfh & _ & _ & Hext).
    apply grid_ext; [done..|]. intros r c Hr Hc. apply Hext; [done..|].
    by apply Hfull.
  - intros difficulty ->. exact Hsolved.
Qed.

Lemma singles_solve_is_the_solution_witness :
  ∃ g',
    hint_run [naked_single; hidden_single] two_missing
             (techniques (solvePuzzleWithTechniques two_missing
                            [naked_single; hidden_single])) g' ∧
    (∀ r c, r < 9 → c < 9 → cell g' r c ≠ 0%Z) ∧
    (∀ h, solution_of two_missing h → h = g') ∧
    (∀ difficulty,
        [naked_single; hidden_single] = difficultyTechniques difficulty →
        verifyDifficulty two_missing difficulty = true).
Proof.
  apply (singles_solve_is_the_solution two_missing [naked_single; hidden_single]).
  - apply wf_gridb_true. vm_compute. reflexivity.
  - apply (bool_decide_eq_true_1 (naked_pair ∉ [naked_single; hidden_single])).
    reflexivity.
  - vm_compute. reflexivity.
Defined.

(** X12: the techniques that [solvePuzzleWithTechniques] reports were all
    allowed by the caller, and none is pointing pair; there is one of them for
    every cell that the solver filled, so a solved puzzle reports as many
    techniques as it had empty cells. *)
Theorem solvePuzzleWithTechniques_techniques (puzzle : Grid)
    (allowedTechniques : list TechniqueName) :
  wf_grid puzzle →
  (∀ t, t ∈ techniques (solvePuzzleWithTechniques puzzle allowedTechniques) →
        t ∈ allowedTechniques ∧ t ≠ pointing_pair) ∧
  length (techniques (solvePuzzleWithTechniques puzzle allowedTechniques))
    ≤ length (emptyCells puzzle) ∧
  (solved (solvePuzzleWithTechniques puzzle allowedTechniques) = true →
   length (techniques (solvePuzzleWithTechniques puzzle allowedTechniques))
   = length (emptyCells puzzle)) ∧
  (allowedTechniques = [] →
   solvePuzzleWithTechniques puzzle allowedTechniques
   = {| solved := isSolved puzzle; techniques := [] |}).
Proof.
  intros Hwf.
  destruct (solvePuzzleWithTechniques_run puzzle allowedTechniques Hwf)
    as (g' & Hrun & Hwf' & Heq).
  destruct (hint_run_count _ _ _ _ Hrun Hwf) as [Hts Hlen].
  split; [done|]. split; [lia|]. split.
  - intros Hsolved. rewrite Hsolved in Heq. symmetry in Heq.
    apply isSolved_emptyCells in Heq. rewrite Heq in Hlen.
    change (length (@nil Position)) with 0 in Hlen. lia.
  - intros ->. clear. unfold solvePuzzleWithTechniques. rewrite cloneGrid_id.
    change maxIterations with (S 999). rewrite solveLoop_S.
    destruct (isSolved puzzle); [reflexivity|].
    rewrite findNextHint_ladder. unfold includes.
    rewrite !bool_decide_false by apply not_elem_of_nil. reflexivity.
Qed.

Lemma solvePuzzleWithTechniques_techniques_witness :
  (∀ t, t ∈ techniques (solvePuzzleWithTechniques two_missing [naked_single]) →
        t ∈ [naked_single] ∧ t ≠ pointing_pair) ∧
  length (techniques (solvePuzzleWithTechniques two_missing [naked_single]))
    ≤ length (emptyCells two_missing) ∧
  (solved (solvePuzzleWithTechniques two_missing [naked_single]) = true →
   length (techniques (solvePuzzleWithTechniques two_missing [naked_single]))
   = length (emptyCells two_missing)) ∧
  ([naked_single] = [] →
   solvePuzzleWithTechniques two_missing [naked_single]
   = {| solved := isSolved two_missing; techniques := [] |}).
Proof.
  apply (solvePuzzleWithTechniques_techniques two_missing [naked_single]).
  apply wf_gridb_true. vm_compute. reflexivity.
Defined.

(** X13: the difficulty levels are nested.  A puzzle that [verifyDifficulty]
    accepts at one level is accepted at every harder level, and
    [solvePuzzleWithTechniques] reports the same techniques there: the added
    techniques are only consulted when the earlier ones find nothing. *)
Theorem verifyDifficulty_levels_nested (puzzle : Grid) (d d' : Difficulty) :
  wf_grid puzzle → difficultyRank d ≤ difficultyRank d' →
  verifyDifficulty puzzle d = true →
  verifyDifficulty puzzle d' = true ∧
  solvePuzzleWithTechniques puzzle (difficultyTechniques d')
  = solvePuzzleWithTechniques puzzle (difficultyTechniques d).
Proof.
  intros _ Hle Hv. unfold verifyDifficulty in *. cbv zeta in *.
  assert (Heq : solvePuzzleWithTechniques puzzle (difficultyTechniques d')
                = solvePuzzleWithTechniques puzzle (difficultyTechniques d)).
  { unfold solvePuzzleWithTechniques in *.
    apply solveLoop_more; [|exact Hv].
    intros g h. by apply findNextHint_levels. }
  rewrite Heq. split; [exact Hv|reflexivity].
Qed.

Lemma verifyDifficulty_levels_nested_witness :
  verifyDifficulty two_missing hard = true ∧
  solvePuzzleWithTechniques two_missing (difficultyTechniques hard)
  = solvePuzzleWithTechniques two_missing (difficultyTechniques easy).
Proof.
  apply (verifyDifficulty_levels_nested two_missing easy hard).
  - apply wf_gridb_true. vm_compute. reflexivity.
  - cbn. lia.
  - vm_compute. reflexivity.
Defined.

(** ** More on the generator *)

Section GeneratedPuzzles.

Context {host : Host}.

Lemma generated_proper (difficulty : Difficulty) (puzzle solution : Grid) :
  generated difficulty puzzle solution →
  unique_solution puzzle solution ∧ leastClues difficulty ≤ countClues puzzle.
Proof.
  intros (removed & Hcarved & Hrem).
  destruct Hcarved as (_ & _ & _ & _ & _ & Huniq & Hcount).
  split; [done|].
  assert (Ht : targetRemoved difficulty = 81 - leastClues difficulty)
    by by destruct difficulty.
  assert (Hleast : leastClues difficulty ≤ 81) by (destruct difficulty; cbn; lia).
  lia.
Qed.

(** The run of [generateDailyPuzzle] once the date is known. *)
Lemma generateDailyPuzzle_seeded (targetDate : DateObj host) (w : World host) :
  ∃ puzzle solution,
    (∀ w0 : World host,
        mathState w0 = mathState w → now w0 = now w →
        ∃ w', generatePuzzle (difficultyOfDay (getDay host targetDate))
                (with_randomFn (SeededFn (seedOfDate targetDate)) w0)
              = Some ((puzzle, solution), w') ∧
              mathState w' = mathState w0 ∧ now w' = now w0) ∧
    generated (difficultyOfDay (getDay host targetDate)) puzzle solution.
Proof.
  set (seed := seedOfDate targetDate).
  set (d := difficultyOfDay (getDay host targetDate)).
  destruct (generatePuzzle_spec d (with_randomFn (SeededFn seed) w) I)
    as (puzzle & solution & w1' & Hrun1 & _ & Hgen).
  exists puzzle, solution. split; [|done].
  intros w0 Hm Hn.
  destruct (generatePuzzle_spec d (with_randomFn (SeededFn seed) w0) I)
    as (puzzle2 & solution2 & w2' & Hrun2 & _ & _).
  pose proof (seeded_frame_generatePuzzle d seed
                (with_randomFn (SeededFn seed) w)
                (with_randomFn (SeededFn seed) w0) eq_refl eq_refl) as Hframe.
  rewrite Hrun1, Hrun2 in Hframe.
  destruct Hframe as ([= <- <-] & _ & _ & _ & Hm2 & Hn2).
  exists w2'. split; [done|]. split; [exact Hm2|exact Hn2].
Qed.

(** The daily puzzle of the clock's day. *)
Lemma generateDailyPuzzle_None_spec (w : World host) :
  ∃ puzzle solution,
    generated (difficultyOfDay (getDay host (now w))) puzzle solution ∧
    ∀ w0 : World host,
      now w0 = now w →
      generateDailyPuzzle None w0
      = Some ({| puzzle := puzzle; solution := solution;
                 difficulty := difficultyOfDay (getDay host (now w));
                 date := pretty (getFullYear host (now w)) +:+ "-"
                         +:+ padStart2 (pretty (getMonth host (now w) + 1)%Z)
                         +:+ "-"
                         +:+ padStart2 (pretty (getDate host (now w))) |},
              with_randomFn MathRandomFn w0).
Proof.
  destruct (generateDailyPuzzle_seeded (now w) w)
    as (puzzle & solution & Hrun & Hgen).
  exists puzzle, solution. split; [exact Hgen|].
  intros w0 Hn.
  destruct (Hrun w eq_refl eq_refl) as (w1' & Heq1 & _ & _).
  rewrite <- Hn in Heq1 |- *.
  destruct (generatePuzzle_spec (difficultyOfDay (getDay host (now w0)))
        (with_randomFn (SeededFn (seedOfDate (now w0))) w0) I)
    as (puzzle0 & solution0 & w0' & Heq0 & _ & _).
  pose proof (seeded_frame_generatePuzzle
          (difficultyOfDay (getDay host (now w0)))
          (seedOfDate (now w0))
          (with_randomFn (SeededFn (seedOfDate (now w0))) w0)
          (with_randomFn (SeededFn (seedOfDate (now w0))) w)
          eq_refl eq_refl) as Hframe.
  rewrite Heq0, Heq1 in Hframe.
  destruct Hframe as ([= -> ->] & _ & Hm0 & Hn0 & _).
  cbn [mathState now with_randomFn] in Hm0, Hn0.
  unfold generateDailyPuzzle, bind, ret, currentDate, setRandomFunction,
    resetRandomFunction.
  change {| randomFn := SeededFn (seedOfDate (now w0));
        mathState := mathState w0; now := now w0 |}
    with (with_randomFn (SeededFn (seedOfDate (now w0))) w0).
  rewrite Heq0. unfold with_randomFn. by rewrite Hm0, Hn0.
Qed.

End GeneratedPuzzles.

(** X14: [shuffleArray] returns a permutation of its argument, whatever the
    random source draws in [0,1): no element is lost, added or repeated.  An
    array of at most one element is returned without a draw. *)
Theorem shuffleArray_permutation {host : Host} {A : Type} (array : list A)
    (w : World host) :
  draws_in_range w →
  ∃ l' w',
    shuffleArray array w = Some (l', w') ∧
    l' ≡ₚ array ∧ length l' = length array ∧
    (length array ≤ 1 → l' = array ∧ w' = w).
Proof.
  intros Hw.
  destruct (shuffleArray_Permutation array w Hw) as (l' & w' & Heq & Hperm & _).
  exists l', w'. split; [exact Heq|]. split; [exact Hperm|].
  split; [by rewrite Hperm|].
  intros Hlen. unfold shuffleArray in Heq.
  replace (length array - 1) with 0 in Heq by lia.
  cbn [shuffleLoop] in Heq. unfold ret in Heq. by injection Heq as <- <-.
Qed.

Lemma shuffleArray_permutation_witness :
  ∃ l' w',
    shuffleArray digits sample_world = Some (l', w') ∧
    l' ≡ₚ digits ∧ length l' = length digits ∧
    (length digits ≤ 1 → l' = digits ∧ w' = sample_world).
Proof.
  apply (shuffleArray_permutation digits sample_world).
  apply draws_in_range_sample_world.
Defined.

(** X15: the generator made by [createSeededRandom] returns a number of
    [0,1) at every call, for every seed; it advances its seed by 0x6d2b79f5
    (exactly, as long as the sum is below 2^53 in absolute value), and a call
    through [randomFn] leaves the state of [Math.random] alone. *)
Theorem createSeededRandom_draws (seed : Z) :
  in_unit_interval (fst (mulberry32 seed)) ∧
  ((Z.abs (seed + 0x6d2b79f5) < 2 ^ 53)%Z →
   snd (mulberry32 seed) = (seed + 0x6d2b79f5)%Z) ∧
  ∀ (host : Host) (w : World host),
    randomFn w = SeededFn seed →
    ∃ w', callRandomFn w = Some (fst (mulberry32 seed), w') ∧
          randomFn w' = SeededFn (snd (mulberry32 seed)) ∧
          mathState w' = mathState w ∧ now w' = now w.
Proof.
  split; [apply mulberry32_range|]. split.
  - intros Hsmall. unfold mulberry32. cbn [snd]. unfold round_double.
    apply Z.ltb_lt in Hsmall. by rewrite Hsmall.
  - intros host w Hfn. unfold callRandomFn. rewrite Hfn.
    destruct (mulberry32 seed) as [x seed']. eexists. split; [reflexivity|]. done.
Qed.

(** X16: on a 9x9 grid of cell values without conflicts, [countSolutions]
    returns the number of solutions of the grid, capped at 2, and hands the
    grid back as it was; [hasUniqueSolution] is true exactly when the grid has
    one solution and no other. *)
Theorem countSolutions_counts (grid : Grid) (fuel : nat) :
  partial_ok grid → 81 < fuel →
  (∃ sols : list Grid,
      NoDup sols ∧ (∀ h, h ∈ sols ↔ solution_of grid h) ∧
      countSolutions fuel grid 0 = Some (Nat.min 2 (length sols), grid)) ∧
  (∃ b, hasUniqueSolution grid = Some b ∧
        (b = true ↔ ∃ h, solution_of grid h ∧ ∀ h', solution_of grid h' → h' = h)).
Proof.
  intros Hok Hfuel. pose proof Hok as (Hwf & _).
  pose proof (emptyCells_le_81 grid) as Hle.
  split.
  - destruct (allSolutions_spec fuel grid Hok) as [Hnd Hsol]; [lia|].
    exists (allSolutions fuel grid). split; [by apply NoDup_ListNoDup|].
    split; [intros h; rewrite list_elem_of_In; apply Hsol|].
    rewrite countSolutions_spec by (done || lia). reflexivity.
  - pose proof (hasUniqueSolution_true grid Hok) as Htrue.
    rewrite hasUniqueSolution_spec in Htrue |- * by done.
    revert Htrue. generalize (length (allSolutions recursionBound grid) =? 1).
    intros b Htrue. exists b. split; [reflexivity|].
    rewrite <- Htrue. split; [intros ->; reflexivity|].
    intros Hb. injection Hb as ->. reflexivity.
Qed.

Lemma countSolutions_counts_witness :
  (∃ sols : list Grid,
      NoDup sols ∧ (∀ h, h ∈ sols ↔ solution_of two_missing h) ∧
      countSolutions 82 two_missing 0 = Some (Nat.min 2 (length sols), two_missing)) ∧
  (∃ b, hasUniqueSolution two_missing = Some b ∧
        (b = true ↔ ∃ h, solution_of two_missing h
                         ∧ ∀ h', solution_of two_missing h' → h' = h)).
Proof.
  apply (countSolutions_counts two_missing 82); [|lia].
  apply (extends_partial_ok two_missing sample_solution).
  - apply wf_gridb_true. vm_compute. reflexivity.
  - apply extendsb_true. vm_compute. reflexivity.
  - apply sample_solution_complete.
  - apply sample_solution_no_conflicts.
Defined.

(** X17: on a 9x9 grid of cell values without conflicts, [fillGrid] answers
    true exactly when the grid has a solution, and then leaves a solution of
    the grid in place; when it answers false the grid is as it was. *)
Theorem fillGrid_completes {host : Host} (grid : Grid) (fuel : nat)
    (w : World host) :
  partial_ok grid → 81 < fuel → draws_in_range w →
  ∃ b g' w',
    fillGrid fuel grid w = Some ((b, g'), w') ∧
    (b = true → solution_of grid g') ∧
    (b = false → g' = grid) ∧
    (b = true ↔ ∃ h, solution_of grid h).
Proof.
  intros Hok Hfuel Hw. pose proof Hok as (Hwf & _).
  pose proof (emptyCells_le_81 grid) as Hle.
  destruct (fillGrid_spec fuel grid w Hwf ltac:(lia) Hw)
    as (b & g' & w' & Heq & _ & Htrue & Hfalse).
  destruct (allSolutions_spec fuel grid Hok ltac:(lia)) as [_ Hsol].
  exists b, g', w'. split; [exact Heq|].
  split; [intros Hb; by apply Hsol, Htrue|].
  split; [intros Hb; by apply Hfalse|].
  split.
  - intros Hb. exists g'. by apply Hsol, Htrue.
  - intros [h Hh]. destruct b; [done|].
    destruct (Hfalse eq_refl) as [_ Hnil].
    apply Hsol in Hh. rewrite Hnil in Hh. destruct Hh.
Qed.

Lemma fillGrid_completes_witness :
  ∃ b g' w',
    fillGrid 82 two_missing sample_world = Some ((b, g'), w') ∧
    (b = true → solution_of two_missing g') ∧
    (b = false → g' = two_missing) ∧
    (b = true ↔ ∃ h, solution_of two_missing h).
Proof.
  apply (fillGrid_completes two_missing 82 sample_world); [|lia|].
  - apply (extends_partial_ok two_missing sample_solution).
    + apply wf_gridb_true. vm_compute. reflexivity.
    + apply extendsb_true. vm_compute. reflexivity.
    + apply sample_solution_complete.
    + apply sample_solution_no_conflicts.
  - apply draws_in_range_sample_world.
Defined.

(** X18: called without a date (or with the empty string),
    [generateDailyPuzzle] always returns: the puzzle of the clock's day.  Its
    date string is the year, the month and the day of the clock joined by
    dashes (month and day padded to two digits), its difficulty follows the
    day of the week, the puzzle has the returned solution as its only
    solution and at least 42, 35 or 28 clues; the result depends on the
    clock only, and afterwards [randomFn] is [Math.random] again with
    nothing else changed. *)
Theorem generateDailyPuzzle_today {host : Host} (w : World host) :
  ∃ daily,
    generateDailyPuzzle None w = Some (daily, with_randomFn MathRandomFn w) ∧
    generateDailyPuzzle (Some EmptyString) w = generateDailyPuzzle None w ∧
    date daily
      = pretty (getFullYear host (now w)) +:+ "-"
        +:+ padStart2 (pretty (getMonth host (now w) + 1)%Z) +:+ "-"
        +:+ padStart2 (pretty (getDate host (now w))) ∧
    difficulty daily = difficultyOfDay (getDay host (now w)) ∧
    unique_solution (puzzle daily) (solution daily) ∧
    leastClues (difficulty daily) ≤ countClues (puzzle daily) ∧
    ∀ w0 : World host,
      now w0 = now w →
      generateDailyPuzzle None w0 = Some (daily, with_randomFn MathRandomFn w0).
Proof.
  destruct (generateDailyPuzzle_None_spec w) as (puzzle & solution & Hgen & Hdaily).
  destruct (generated_proper _ _ _ Hgen) as [Huniq Hclues].
  eexists. split; [apply (Hdaily w eq_refl)|].
  split; [unfold generateDailyPuzzle; cbv beta iota; reflexivity|].
  cbn [date Generator.difficulty Generator.puzzle Generator.solution].
  split; [reflexivity|]. split; [reflexivity|].
  split; [exact Huniq|]. split; [exact Hclues|]. exact Hdaily.
Qed.

(** X19: for a date string in the form YYYY-MM-DD, the daily puzzle is a
    proper puzzle: the returned solution is a solution of the returned puzzle
    and the only one, and the puzzle has at least 42 (easy), 35 (medium) or 28
    (hard) clues for its difficulty. *)
Theorem generateDailyPuzzle_proper {host : Host} (dateStr : string)
    (w : World host) :
  is_date_form dateStr →
  ∃ daily,
    generateDailyPuzzle (Some dateStr) w
      = Some (daily, with_randomFn MathRandomFn w) ∧
    unique_solution (puzzle daily) (solution daily) ∧
    (∀ r c, r < 9 → c < 9 → cell (puzzle daily) r c ≠ 0%Z →
            cell (puzzle daily) r c = cell (solution daily) r c) ∧
    leastClues (difficulty daily) ≤ countClues (puzzle daily) ∧
    countClues (puzzle daily) ≤ 81.
Proof.
  intros (Hne & year & month & day & Hparse)%date_form_parse.
  destruct (generateDailyPuzzle_seeded (newDate host year (month - 1) day) w)
    as (puzzle & solution & Hrun & Hgen).
  destruct (generated_proper _ _ _ Hgen) as [Huniq Hclues].
  destruct (Hrun w eq_refl eq_refl) as (w' & Heq & Hm & Hn).
  exists {| puzzle := puzzle; solution := solution;
            difficulty := difficultyOfDay
                            (getDay host (newDate host year (month - 1) day));
            date := dateStr |}.
  cbn [Generator.puzzle Generator.solution Generator.difficulty].
  split.
  { unfold generateDailyPuzzle.
    destruct dateStr as [|ch rest]; [done|]. rewrite Hparse.
    unfold bind, ret, setRandomFunction, resetRandomFunction.
    change {| randomFn := SeededFn (seedOfDate (newDate host year (month - 1) day));
              mathState := mathState w; now := now w |}
      with (with_randomFn
              (SeededFn (seedOfDate (newDate host year (month - 1) day))) w).
    rewrite Heq. unfold with_randomFn. by rewrite Hm, Hn. }
  split; [exact Huniq|]. split.
  { destruct Huniq as [(_ & _ & _ & Hext) _]. intros r c Hr Hc Hnz.
    symmetry. by apply Hext. }
  split; [exact Hclues|].
  unfold countClues. etransitivity; [apply List.filter_length_le|].
  vm_compute. lia.
Qed.

Lemma generateDailyPuzzle_proper_witness :
  ∃ daily,
    generateDailyPuzzle (Some "2024-03-15") sample_world
      = Some (daily, with_randomFn MathRandomFn sample_world) ∧
    unique_solution (puzzle daily) (solution daily) ∧
    (∀ r c, r < 9 → c < 9 → cell (puzzle daily) r c ≠ 0%Z →
            cell (puzzle daily) r c = cell (solution daily) r c) ∧
    leastClues (difficulty daily) ≤ countClues (puzzle daily) ∧
    countClues (puzzle daily) ≤ 81.
Proof.
  apply (generateDailyPuzzle_proper "2024-03-15" sample_world).
  exists "2024", "03", "15". split_and!; reflexivity.
Defined.

(** ** The game store *)

Section GameLemmas.

Lemma bcell_mapCell (b : BoardState) row col f r c :
  wf_board b → r < 9 → c < 9 →
  bcell (GameStore.mapCell b row col f) r c
  = if decide (r = row ∧ c = col) then f (bcell b r c) else bcell b r c.
Proof.
  intros Hwf Hr Hc. unfold GameStore.mapCell. rewrite bcell_mapi2 by done.
  destruct (Nat.eqb_spec r row), (Nat.eqb_spec c col); cbn [andb];
    case_decide; try done; tauto.
Qed.

Lemma wf_board_mapCell (b : BoardState) row col f :
  wf_board b → wf_board (GameStore.mapCell b row col f).
Proof. apply wf_board_mapi2. Qed.

(** Conflicts are a matter of the values. *)
Lemma in_conflict_values (b b' : BoardState) r c :
  (∀ r c, r < 9 → c < 9 → value (bcell b' r c) = value (bcell b r c)) →
  r < 9 → c < 9 → in_conflict b' r c ↔ in_conflict b r c.
Proof.
  intros Hval Hr Hc. unfold in_conflict. rewrite (Hval r c) by done.
  split; intros (Hnz & r' & c' & Hr' & Hc' & Hrel & Heq); (split; [done|]);
    exists r', c'; (split; [done|]); (split; [done|]); (split; [done|]).
  - by rewrite <- (Hval r' c').
  - by rewrite (Hval r' c').
Qed.

Lemma boardToGrid_values (b b' : BoardState) :
  wf_board b → wf_board b' →
  (∀ r c, r < 9 → c < 9 → value (bcell b' r c) = value (bcell b r c)) →
  boardToGrid b' = boardToGrid b.
Proof.
  intros Hwf Hwf' Hval. apply grid_ext; [by apply wf_boardToGrid..|].
  intros r c Hr Hc. rewrite !cell_boardToGrid. by apply Hval.
Qed.

Lemma newSet_fold (l : list Z) : ∀ s,
  NoDup (s ++ l) →
  fold_left (fun s x => if has s x then s else s ++ [x]) l s = s ++ l.
Proof.
  induction l as [|x l IH]; intros s Hnd; cbn [fold_left].
  - by rewrite app_nil_r.
  - destruct (has s x) eqn:Hhas.
    + apply has_In, list_elem_of_In in Hhas.
      apply NoDup_app in Hnd as (_ & Hdisj & _).
      destruct (Hdisj x Hhas). by left.
    + rewrite IH; [by rewrite <- app_assoc|]. by rewrite <- app_assoc.
Qed.

Lemma newSet_id (l : list Z) : NoDup l → GameStore.newSet l = l.
Proof. intros Hnd. unfold GameStore.newSet. by rewrite newSet_fold. Qed.

Lemma newSet_NoDup (l : list Z) : NoDup (GameStore.newSet l).
Proof.
  unfold GameStore.newSet.
  assert (H : ∀ s, NoDup s →
                   NoDup (fold_left (fun s x => if has s x then s else s ++ [x]) l s)).
  { induction l as [|x l IH]; intros s Hs; cbn [fold_left]; [done|].
    apply IH. destruct (has s x) eqn:Hhas; [done|].
    apply NoDup_app. split; [done|]. split; [|apply NoDup_singleton].
    intros y Hy ->%list_elem_of_singleton.
    apply list_elem_of_In, has_In in Hy. congruence. }
  apply H, NoDup_nil_2.
Qed.

Lemma toggle_NoDup (l : list Z) (num : Z) :
  NoDup l → NoDup (GameStore.toggle l num).
Proof.
  intros Hnd. unfold GameStore.toggle. destruct (has l num) eqn:Hhas.
  - by apply NoDup_ListNoDup, List.NoDup_filter, NoDup_ListNoDup.
  - apply NoDup_app. split; [done|]. split; [|apply NoDup_singleton].
    intros y Hy ->%list_elem_of_singleton.
    apply list_elem_of_In, has_In in Hy. congruence.
Qed.

Lemma bcell_initializeBoard (puzzle : Grid) r c :
  wf_grid puzzle → r < 9 → c < 9 →
  bcell (GameStore.initializeBoard puzzle) r c
  = mkCellState (cell puzzle r c) (negb (cell puzzle r c =? 0)%Z) false [] false.
Proof.
  intros [Hlen Hrows] Hr Hc. unfold bcell, cell, GameStore.initializeBoard.
  pose proof (lookup_mapi2
                (fun (rowIdx colIdx : nat) (value : Z) =>
                   {| value := value; isGiven := negb (value =? 0)%Z;
                      isError := false; Hints.candidates := [];
                      isHighlighted := false |}) puzzle r c) as H.
  destruct (puzzle !! r) as [prow|] eqn:Hrow.
  2: { apply lookup_ge_None in Hrow. lia. }
  rewrite Forall_forall in Hrows.
  assert (length prow = 9) by (apply Hrows, list_elem_of_lookup; eauto).
  destruct (prow !! c) as [v|] eqn:Hv.
  2: { apply lookup_ge_None in Hv. lia. }
  cbn in H. rewrite Hv in H. cbn in H.
  destruct (mapi2 _ puzzle !! r) as [brow|]; cbn in H; [|done].
  by rewrite H.
Qed.

Lemma wf_initializeBoard (puzzle : Grid) :
  wf_grid puzzle → wf_board (GameStore.initializeBoard puzzle).
Proof.
  intros [Hlen Hrows]. unfold GameStore.initializeBoard, mapi2.
  split; [by rewrite length_imap|].
  apply Forall_forall. intros row Hrow.
  apply list_elem_of_lookup in Hrow as [i Hi].
  rewrite list_lookup_imap in Hi.
  destruct (puzzle !! i) as [prow|] eqn:Hp; cbn in Hi; [|done].
  injection Hi as <-. rewrite length_imap.
  rewrite Forall_forall in Hrows. apply Hrows, list_elem_of_lookup. eauto.
Qed.

Lemma applyHintHighlights_keeps (b : BoardState) (hint : Hint) :
  wf_board b →
  wf_board (Hints.applyHintHighlights b hint) ∧
  ∀ r c, r < 9 → c < 9 →
         same_data (bcell (Hints.applyHintHighlights b hint) r c) (bcell b r c).
Proof.
  intros Hwf. unfold Hints.applyHintHighlights.
  pose proof (wf_board_unhighlight b Hwf) as Hwf0.
  split.
  - assert (H : ∀ (l : list Position) (b0 : BoardState),
                wf_board b0 →
                wf_board (fold_left (fun b '(row, col) =>
                                       if (row <? 9) && (col <? 9)
                                       then highlight b row col else b) l b0)).
    { induction l as [|[row col] l IH]; intros b0 Hb0; [exact Hb0|].
      cbn [fold_left]. apply IH.
      destruct ((row <? 9) && (col <? 9)); [by apply wf_board_highlight|done]. }
    by apply H.
  - intros r c Hr Hc.
    destruct (fold_highlight_spec (highlightCells hint) _ r c Hwf0 Hr Hc)
      as [(Hv & Hg & He & Hc') _].
    rewrite bcell_unhighlight in Hv, Hg, He, Hc'. done.
Qed.

Lemma clearHighlights_keeps (b : BoardState) :
  wf_board b →
  wf_board (Hints.clearHighlights b) ∧
  ∀ r c, r < 9 → c < 9 →
         same_data (bcell (Hints.clearHighlights b) r c) (bcell b r c).
Proof.
  intros Hwf. split; [by apply wf_board_unhighlight|].
  intros r c _ _. unfold Hints.clearHighlights. by rewrite bcell_unhighlight.
Qed.

End GameLemmas.

Section GameInvariant.

(** A board that differs from the board of the game in highlights and pencil
    marks at most. *)
Lemma game_inv_board (s s' : GameStore.GameState) (b b' : BoardState) :
  game_inv s →
  GameStore.board s = Some b → GameStore.board s' = Some b' →
  GameStore.puzzle s' = GameStore.puzzle s →
  GameStore.solution s' = GameStore.solution s →
  GameStore.moveHistory s' = GameStore.moveHistory s →
  GameStore.isComplete s' = GameStore.isComplete s →
  (∀ r c, GameStore.selectedCell s' = Some (r, c) → r < 9 ∧ c < 9) →
  wf_board b' →
  (∀ r c, r < 9 → c < 9 →
     value (bcell b' r c) = value (bcell b r c) ∧
     isGiven (bcell b' r c) = isGiven (bcell b r c) ∧
     isError (bcell b' r c) = isError (bcell b r c) ∧
     NoDup (Hints.candidates (bcell b' r c))) →
  game_inv s'.
Proof.
  intros (p & b0 & sol & Hp & Hb & Hs & Hwfp & Huniq & Hwfb & Hcells & Hmoves
          & Hsel & Hdone) Hb1 Hb' Hp' Hs' Hm' Hc' Hsel' Hwf' Hsame.
  rewrite Hb in Hb1. injection Hb1 as ->.
  exists p, b', sol. rewrite Hp', Hs', Hm', Hc'.
  split; [done|]. split; [done|]. split; [done|]. split; [done|].
  split; [done|]. split; [done|]. split; [|split; [done|split; [done|]]].
  - intros r c Hr Hc. destruct (Hsame r c Hr Hc) as (Hv & Hg & He & Hn).
    destruct (Hcells r c Hr Hc) as (H1 & H2 & H3 & H4 & H5).
    rewrite Hv, Hg, He. split; [done|]. split; [done|]. split; [done|].
    split; [|done]. rewrite H4. symmetry.
    apply in_conflict_values; [|done..]. intros r' c' Hr' Hc''.
    by apply Hsame.
  - intros Hcomp. rewrite <- (Hdone Hcomp).
    apply boardToGrid_values; [done..|]. intros r c Hr Hc. by apply Hsame.
Qed.

(** A value written into a cell that is not a given, followed by
    [validateBoard]. *)
Lemma game_inv_value (s s' : GameStore.GameState) (p : Grid) (b : BoardState)
    row col v cs :
  game_inv s →
  GameStore.puzzle s = Some p → GameStore.board s = Some b →
  row < 9 → col < 9 → cell p row col = 0%Z → (0 ≤ v ≤ 9)%Z → NoDup cs →
  GameStore.board s'
    = Some (validateBoard (GameStore.mapCell b row col (GameStore.withValue v cs))) →
  GameStore.puzzle s' = GameStore.puzzle s →
  GameStore.solution s' = GameStore.solution s →
  (∀ r c, GameStore.selectedCell s' = Some (r, c) → r < 9 ∧ c < 9) →
  (∀ m, m ∈ GameStore.moveHistory s' →
        GameStore.row m < 9 ∧ GameStore.col m < 9 ∧
        cell p (GameStore.row m) (GameStore.col m) = 0%Z ∧
        (0 ≤ GameStore.previousValue m ≤ 9)%Z) →
  (GameStore.isComplete s' = true →
   isBoardComplete
     (validateBoard (GameStore.mapCell b row col (GameStore.withValue v cs)))
   = true) →
  game_inv s'.
Proof.
  intros (p0 & b0 & sol & Hp & Hb & Hs & Hwfp & Huniq & Hwfb & Hcells & Hmoves
          & Hsel & Hdone) Hp1 Hb1 Hrow Hcol Hz Hv Hcs Hb' Hp' Hs' Hsel' Hm' Hc'.
  rewrite Hp in Hp1. injection Hp1 as ->. rewrite Hb in Hb1. injection Hb1 as ->.
  set (b1 := GameStore.mapCell b row col (GameStore.withValue v cs)) in *.
  assert (Hwf1 : wf_board b1) by (by apply wf_board_mapCell).
  destruct (validateBoard_spec b1 Hwf1) as [[Hwf2 Hkeep] Hflag].
  assert (Hcell1 : ∀ r c, r < 9 → c < 9 →
            bcell b1 r c = if decide (r = row ∧ c = col)
                           then GameStore.withValue v cs (bcell b r c)
                           else bcell b r c)
    by (intros r c Hr Hc; by apply bcell_mapCell).
  exists p, (validateBoard b1), sol. rewrite Hp', Hs'.
  split; [done|]. split; [done|]. split; [done|]. split; [done|].
  split; [done|]. split; [done|]. split; [|split; [done|split; [done|]]].
  - intros r c Hr Hc.
    destruct (Hkeep r c Hr Hc) as (Hv2 & Hg2 & Hc2 & _).
    destruct (Hcells r c Hr Hc) as (H1 & H2 & H3 & H4 & H5).
    rewrite Hv2, Hg2, Hc2, (Hcell1 r c Hr Hc).
    split; [|split; [|split; [|split]]].
    + case_decide; [|done]. by cbn.
    + intros Hnz. case_decide as Heq; [|by apply H2].
      destruct Heq as [-> ->]. done.
    + case_decide; [by cbn|done].
    + rewrite Hflag by done. symmetry. apply in_conflict_values; [|done..].
      intros r' c' Hr' Hc''. by apply Hkeep.
    + case_decide; [by cbn|done].
  - intros Hcomp. specialize (Hc' Hcomp).
    apply isBoardComplete_validated in Hc' as [Hfull Hnc]; [|done].
    assert (Hgrid : boardToGrid (validateBoard b1) = boardToGrid b1).
    { apply boardToGrid_values; [done..|]. intros r c Hr Hc. by apply Hkeep. }
    rewrite Hgrid. destruct Huniq as [_ Honly]. apply Honly.
    split; [by apply wf_boardToGrid|]. split; [|split; [done|]].
    + intros r c Hr Hc. rewrite cell_boardToGrid.
      specialize (Hfull r c Hr Hc). rewrite (Hcell1 r c Hr Hc) in Hfull |- *.
      destruct (Hcells r c Hr Hc) as (_ & _ & H3 & _).
      case_decide; cbn in *; lia.
    + intros r c Hr Hc Hnz. rewrite cell_boardToGrid, (Hcell1 r c Hr Hc).
      destruct (Hcells r c Hr Hc) as (_ & H2 & _).
      case_decide as Heq; [|by apply H2].
      destruct Heq as [-> ->]. done.
Qed.

(** The board of a game right after its start. *)
Lemma game_inv_fresh (s : GameStore.GameState) (p sol : Grid) :
  wf_grid p → unique_solution p sol →
  GameStore.puzzle s = Some p → GameStore.solution s = Some sol →
  GameStore.board s = Some (GameStore.initializeBoard p) →
  GameStore.moveHistory s = [] → GameStore.selectedCell s = None →
  GameStore.isComplete s = false →
  game_inv s.
Proof.
  intros Hwfp Huniq Hp Hs Hb Hm Hsel Hc.
  exists p, (GameStore.initializeBoard p), sol. rewrite Hm, Hsel, Hc.
  split; [done|]. split; [done|]. split; [done|]. split; [done|].
  split; [done|]. split; [by apply wf_initializeBoard|].
  split; [|split; [by intros m ?%elem_of_nil|split; [done|done]]].
  pose proof Huniq as [(Hwfs & Hcomp & Hnc & Hext) _].
  destruct (extends_partial_ok p sol Hwfp Hext Hcomp Hnc) as (_ & Hdig & Hncp).
  intros r c Hr Hc'. rewrite bcell_initializeBoard by done. cbn.
  split; [done|]. split; [done|]. split; [by apply Hdig|]. split; [|apply NoDup_nil_2].
  split; [done|].
  intros (Hnz & r' & c' & Hr' & Hc'' & Hrel & Heq).
  rewrite !bcell_initializeBoard in * by done. cbn in *.
  exfalso. apply (Hncp r c r' c' Hr Hc' Hr' Hc'' Hrel); done.
Qed.

End GameInvariant.

Section GameActions.

Lemma game_inv_fields (s s' : GameStore.GameState) :
  game_inv s →
  GameStore.board s' = GameStore.board s →
  GameStore.puzzle s' = GameStore.puzzle s →
  GameStore.solution s' = GameStore.solution s →
  GameStore.moveHistory s' = GameStore.moveHistory s →
  GameStore.isComplete s' = GameStore.isComplete s →
  (∀ r c, GameStore.selectedCell s' = Some (r, c) → r < 9 ∧ c < 9) →
  game_inv s'.
Proof.
  intros (p & b & sol & Hp & Hb & Hs & Hrest) Hb' Hp' Hs' Hm' Hc' Hsel'.
  destruct Hrest as (Hwfp & Huniq & Hwfb & Hcells & Hmoves & Hsel & Hdone).
  exists p, b, sol. rewrite Hb', Hp', Hs', Hm', Hc'.
  split; [done|]. split; [done|]. split; [done|]. split; [done|].
  split; [done|]. split; [done|]. split; [done|]. split; [done|].
  split; [done|done].
Qed.

Lemma game_inv_same_data (s s' : GameStore.GameState) (b b' : BoardState) :
  game_inv s →
  GameStore.board s = Some b → GameStore.board s' = Some b' →
  GameStore.puzzle s' = GameStore.puzzle s →
  GameStore.solution s' = GameStore.solution s →
  GameStore.moveHistory s' = GameStore.moveHistory s →
  GameStore.isComplete s' = GameStore.isComplete s →
  (∀ r c, GameStore.selectedCell s' = Some (r, c) → r < 9 ∧ c < 9) →
  wf_board b' →
  (∀ r c, r < 9 → c < 9 → same_data (bcell b' r c) (bcell b r c)) →
  game_inv s'.
Proof.
  intros Hinv Hb Hb' Hp' Hs' Hm' Hc' Hsel' Hwf' Hsame.
  apply (game_inv_board s s' b b'); try done.
  intros r c Hr Hc. destruct (Hsame r c Hr Hc) as (Hv & Hg & He & Hcs).
  split; [done|]. split; [done|]. split; [done|]. rewrite Hcs.
  destruct Hinv as (p & b0 & sol & _ & Hb0 & _ & _ & _ & _ & Hcells & _).
  rewrite Hb in Hb0. injection Hb0 as <-. by apply Hcells.
Qed.

Lemma selectCell_inv (row col : nat) (s : GameStore.GameState) :
  game_inv s → row < 9 → col < 9 → game_inv (GameStore.selectCell row col s).
Proof.
  intros Hinv Hrow Hcol.
  pose proof Hinv as (p & b & sol & Hp & Hb & Hs & _ & _ & Hwfb & _).
  unfold GameStore.selectCell. rewrite Hb.
  destruct (GameStore.currentHint s) as [hint|].
  - destruct (clearHighlights_keeps b Hwfb) as [Hwf' Hsame].
    apply (game_inv_same_data s _ b (clearHighlights b)); try done.
    intros r c [= <- <-]. done.
  - apply (game_inv_fields s); try done.
    intros r c [= <- <-]. done.
Qed.

Lemma selected_cell (s : GameStore.GameState) (p : Grid) (b : BoardState) row col :
  game_inv s → GameStore.puzzle s = Some p → GameStore.board s = Some b →
  GameStore.selectedCell s = Some (row, col) →
  row < 9 ∧ col < 9 ∧ wf_board b ∧
  ∃ brow, b !! row = Some brow ∧ brow !! col = Some (bcell b row col) ∧
          isGiven (bcell b row col) = negb (cell p row col =? 0)%Z ∧
          (0 ≤ value (bcell b row col) ≤ 9)%Z ∧
          NoDup (Hints.candidates (bcell b row col)).
Proof.
  intros (p0 & b0 & sol & Hp & Hb & Hs & _ & _ & Hwfb & Hcells & _ & Hsel & _)
         Hp1 Hb1 Hsel1.
  rewrite Hp in Hp1. injection Hp1 as ->. rewrite Hb in Hb1. injection Hb1 as ->.
  destruct (Hsel row col Hsel1) as [Hrow Hcol].
  split; [done|]. split; [done|]. split; [done|].
  destruct (wf_board_lookup b row col Hwfb Hrow Hcol) as (brow & cs & Hr & Hc & _).
  exists brow. split; [done|].
  assert (Hcell : bcell b row col = cs) by (unfold bcell; by rewrite Hr, Hc).
  rewrite Hcell. split; [done|]. rewrite <- Hcell.
  destruct (Hcells row col Hrow Hcol) as (H1 & _ & H3 & _ & H5). done.
Qed.

Lemma enterNumber_inv (clock num : Z) (s : GameStore.GameState) :
  game_inv s → (1 ≤ num ≤ 9)%Z →
  ∃ s', GameStore.enterNumber clock num s = Some s' ∧ game_inv s' ∧
        GameStore.puzzle s' = GameStore.puzzle s ∧
        GameStore.solution s' = GameStore.solution s.
Proof.
  intros Hinv Hnum.
  pose proof Hinv as (p & b & sol & Hp & Hb & Hs & _ & _ & _ & Hcells & Hmoves & _).
  unfold GameStore.enterNumber.
  destruct (GameStore.board s) as [b0|] eqn:Hb0; [|done].
  injection Hb as ->.
  destruct (GameStore.selectedCell s) as [[row col]|] eqn:Hselected.
  2: { exists s. by destruct (GameStore.solution s). }
  destruct (GameStore.solution s) as [sol0|] eqn:Hs0; [|done].
  destruct (selected_cell s p b row col Hinv Hp Hb0 Hselected)
    as (Hrow & Hcol & Hwfb & brow & Hr & Hc & Hgiven & Hval & Hnd).
  rewrite Hr, Hc.
  destruct (isGiven (bcell b row col)) eqn:Hg.
  { exists s. by rewrite Hs0. }
  symmetry in Hgiven. apply negb_false_iff, Z.eqb_eq in Hgiven.
  assert (Hsel' : ∀ (nb : BoardState) h cpl r c,
            GameStore.selectedCell (GameStore.setBoard s nb h cpl clock)
            = Some (r, c) → r < 9 ∧ c < 9).
  { intros nb h cpl r c Hx. cbn [GameStore.selectedCell GameStore.setBoard] in Hx.
    rewrite Hselected in Hx. by injection Hx as <- <-. }
  destruct (GameStore.isPencilMode s).
  - eexists. split; [reflexivity|]. split; [|split; [reflexivity|exact Hs0]].
    apply (game_inv_board s _ b
             (GameStore.mapCell b row col
                (GameStore.withCandidates
                   (GameStore.toggle (Hints.candidates (bcell b row col)) num))));
      [exact Hinv | exact Hb0 | reflexivity | reflexivity | reflexivity
      | reflexivity | reflexivity | apply Hsel' | by apply wf_board_mapCell |].
    intros r c Hr' Hc'. rewrite bcell_mapCell by done.
    destruct (Hcells r c Hr' Hc') as (_ & _ & _ & _ & H5).
    case_decide as Heq; [|done]. destruct Heq as [-> ->]. cbn.
    split; [done|]. split; [done|]. split; [done|]. by apply toggle_NoDup.
  - eexists. split; [reflexivity|]. split; [|split; [reflexivity|exact Hs0]].
    apply (game_inv_value s _ p b row col
             (if (value (bcell b row col) =? num)%Z then 0%Z else num) []);
      [exact Hinv | exact Hp | exact Hb0 | exact Hrow | exact Hcol | exact Hgiven
      | | | | | | | |].
    + destruct (value (bcell b row col) =? num)%Z; lia.
    + apply NoDup_nil_2.
    + reflexivity.
    + reflexivity.
    + reflexivity.
    + apply Hsel'.
    + cbn [GameStore.moveHistory GameStore.setBoard].
      intros m [Hm| ->%list_elem_of_singleton]%elem_of_app; [by apply Hmoves|].
      cbn. done.
    + cbn [GameStore.isComplete GameStore.setBoard].
      intros [_ Hcomplete]%andb_true_iff. exact Hcomplete.
Qed.

Lemma clearCell_inv (clock : Z) (s : GameStore.GameState) :
  game_inv s →
  ∃ s', GameStore.clearCell clock s = Some s' ∧ game_inv s' ∧
        GameStore.puzzle s' = GameStore.puzzle s ∧
        GameStore.solution s' = GameStore.solution s.
Proof.
  intros Hinv.
  pose proof Hinv as (p & b & sol & Hp & Hb & Hs & _ & _ & _ & Hcells & Hmoves & _).
  unfold GameStore.clearCell.
  destruct (GameStore.board s) as [b0|] eqn:Hb0; [|done].
  injection Hb as ->.
  destruct (GameStore.selectedCell s) as [[row col]|] eqn:Hselected; [|by exists s].
  destruct (selected_cell s p b row col Hinv Hp Hb0 Hselected)
    as (Hrow & Hcol & Hwfb & brow & Hr & Hc & Hgiven & Hval & Hnd).
  rewrite Hr, Hc.
  destruct (isGiven (bcell b row col)) eqn:Hg; [by exists s|].
  symmetry in Hgiven. apply negb_false_iff, Z.eqb_eq in Hgiven.
  eexists. split; [reflexivity|]. split; [|split; reflexivity].
  apply (game_inv_value s _ p b row col 0%Z []);
    [exact Hinv | exact Hp | exact Hb0 | exact Hrow | exact Hcol | exact Hgiven
    | | | | | | | |].
  - lia.
  - apply NoDup_nil_2.
  - reflexivity.
  - reflexivity.
  - reflexivity.
  - intros r c Hx. cbn [GameStore.selectedCell GameStore.setBoard] in Hx.
    rewrite Hselected in Hx. by injection Hx as <- <-.
  - cbn [GameStore.moveHistory GameStore.setBoard].
    intros m [Hm| ->%list_elem_of_singleton]%elem_of_app; [by apply Hmoves|].
    cbn. split; [done|]. split; [done|]. split; [done|]. exact Hval.
  - cbn [GameStore.isComplete GameStore.setBoard]. intros Hx. discriminate Hx.
Qed.

Lemma toggleCandidate_inv (clock num : Z) (s : GameStore.GameState) :
  game_inv s →
  ∃ s', GameStore.toggleCandidate clock num s = Some s' ∧ game_inv s' ∧
        GameStore.puzzle s' = GameStore.puzzle s ∧
        GameStore.solution s' = GameStore.solution s.
Proof.
  intros Hinv.
  pose proof Hinv as (p & b & sol & Hp & Hb & Hs & _ & _ & _ & Hcells & _).
  unfold GameStore.toggleCandidate.
  destruct (GameStore.board s) as [b0|] eqn:Hb0; [|done].
  injection Hb as ->.
  destruct (GameStore.selectedCell s) as [[row col]|] eqn:Hselected; [|by exists s].
  destruct (selected_cell s p b row col Hinv Hp Hb0 Hselected)
    as (Hrow & Hcol & Hwfb & brow & Hr & Hc & Hgiven & Hval & Hnd).
  rewrite Hr, Hc.
  destruct (isGiven (bcell b row col) || negb (value (bcell b row col) =? 0)%Z);
    [by exists s|].
  eexists. split; [reflexivity|]. split; [|split; reflexivity].
  assert (Hsel' : ∀ r c,
            GameStore.selectedCell
              (GameStore.setBoard s
                 (GameStore.mapCell b row col
                    (GameStore.withCandidates
                       (GameStore.toggle (Hints.candidates (bcell b row col)) num)))
                 (GameStore.moveHistory s) (GameStore.isComplete s) clock)
            = Some (r, c) → r < 9 ∧ c < 9).
  { intros r c Hx. cbn [GameStore.selectedCell GameStore.setBoard] in Hx.
    rewrite Hselected in Hx. by injection Hx as <- <-. }
  apply (game_inv_board s _ b
           (GameStore.mapCell b row col
              (GameStore.withCandidates
                 (GameStore.toggle (Hints.candidates (bcell b row col)) num))));
    [exact Hinv | exact Hb0 | reflexivity | reflexivity | reflexivity
    | reflexivity | reflexivity | exact Hsel' | by apply wf_board_mapCell |].
  intros r c Hr' Hc'. rewrite bcell_mapCell by done.
  destruct (Hcells r c Hr' Hc') as (_ & _ & _ & _ & H5).
  case_decide as Heq; [|done]. destruct Heq as [-> ->]. cbn.
  split; [done|]. split; [done|]. split; [done|]. by apply toggle_NoDup.
Qed.

Lemma undo_inv (clock : Z) (s : GameStore.GameState) :
  game_inv s → game_inv (GameStore.undo clock s).
Proof.
  intros Hinv.
  pose proof Hinv as (p & b & sol & Hp & Hb & Hs & _ & _ & _ & _ & Hmoves & Hsel & _).
  unfold GameStore.undo.
  destruct (GameStore.board s) as [b0|] eqn:Hb0; [|done].
  injection Hb as ->.
  destruct (last (GameStore.moveHistory s)) as [m|] eqn:Hlast; [|done].
  apply last_Some in Hlast as [l' Hl'].
  destruct (Hmoves m) as (Hrow & Hcol & Hz & Hprev).
  { rewrite Hl'. apply elem_of_app. right. by apply list_elem_of_singleton. }
  apply (game_inv_value s _ p b (GameStore.row m) (GameStore.col m)
           (GameStore.previousValue m)
           (GameStore.newSet (GameStore.previousCandidates m)));
    [exact Hinv | exact Hp | exact Hb0 | exact Hrow | exact Hcol | exact Hz
    | exact Hprev | apply newSet_NoDup | | | | | |].
  - reflexivity.
  - reflexivity.
  - reflexivity.
  - exact Hsel.
  - cbn [GameStore.moveHistory GameStore.setBoard]. rewrite Hl', removelast_last.
    intros m' Hm'. apply Hmoves. rewrite Hl'. apply elem_of_app. by left.
  - cbn [GameStore.isComplete GameStore.setBoard]. intros Hx. discriminate Hx.
Qed.

Lemma requestHint_inv (s : GameStore.GameState) :
  game_inv s → game_inv (GameStore.requestHint s).
Proof.
  intros Hinv.
  pose proof Hinv as (p & b & sol & Hp & Hb & Hs & _ & _ & Hwfb & _ & _ & Hsel & _).
  unfold GameStore.requestHint. rewrite Hb.
  destruct (getHint b) as [hint|]; [|done].
  destruct (applyHintHighlights_keeps b hint Hwfb) as [Hwf' Hsame].
  by apply (game_inv_same_data s _ b (Hints.applyHintHighlights b hint)).
Qed.

Lemma dismissHint_inv (s : GameStore.GameState) :
  game_inv s → game_inv (GameStore.dismissHint s).
Proof.
  intros Hinv.
  pose proof Hinv as (p & b & sol & Hp & Hb & Hs & _ & _ & Hwfb & _ & _ & Hsel & _).
  unfold GameStore.dismissHint. rewrite Hb.
  destruct (clearHighlights_keeps b Hwfb) as [Hwf' Hsame].
  by apply (game_inv_same_data s _ b (Hints.clearHighlights b)).
Qed.

Lemma reset_inv (clock : Z) (s : GameStore.GameState) :
  game_inv s → game_inv (GameStore.reset clock s).
Proof.
  intros Hinv.
  pose proof Hinv as (p & b & sol & Hp & Hb & Hs & Hwfp & Huniq & _).
  unfold GameStore.reset. rewrite Hp.
  by apply (game_inv_fresh _ p sol).
Qed.

Lemma act_inv (clock : Z) (a : Action) (s : GameStore.GameState) :
  game_inv s → from_ui a →
  ∃ s', act clock a s = Some s' ∧ game_inv s' ∧
        GameStore.puzzle s' = GameStore.puzzle s ∧
        GameStore.solution s' = GameStore.solution s.
Proof.
  intros Hinv Hui.
  pose proof Hinv as (p & b & sol & Hp & Hb & Hs & _ & _ & _ & _ & _ & Hsel & _).
  destruct a as [row col| |num| | |num| | | | | | |]; cbn [act].
  - destruct Hui as [Hrow Hcol]. eexists. split; [reflexivity|].
    split; [by apply selectCell_inv|].
    unfold GameStore.selectCell. rewrite Hb.
    by destruct (GameStore.currentHint s).
  - eexists. split; [reflexivity|]. split; [|done].
    by apply (game_inv_fields s).
  - by apply enterNumber_inv.
  - by apply clearCell_inv.
  - eexists. split; [reflexivity|]. split; [|done].
    by apply (game_inv_fields s).
  - by apply toggleCandidate_inv.
  - eexists. split; [reflexivity|]. split; [by apply undo_inv|].
    unfold GameStore.undo. rewrite Hb.
    by destruct (last (GameStore.moveHistory s)).
  - eexists. split; [reflexivity|]. split; [by apply requestHint_inv|].
    unfold GameStore.requestHint. rewrite Hb. by destruct (getHint b).
  - eexists. split; [reflexivity|]. split; [by apply dismissHint_inv|].
    unfold GameStore.dismissHint. by rewrite Hb.
  - eexists. split; [reflexivity|]. unfold GameStore.tick.
    destruct (negb (GameStore.isPaused s) && negb (GameStore.isComplete s));
      [|done].
    split; [|done]. by apply (game_inv_fields s).
  - eexists. split; [reflexivity|]. split; [|done].
    by apply (game_inv_fields s).
  - eexists. split; [reflexivity|]. split; [|done].
    by apply (game_inv_fields s).
  - eexists. split; [reflexivity|]. split; [by apply reset_inv|].
    unfold GameStore.reset. by rewrite Hp.
Qed.

Lemma play_inv (calls : list (Z * Action)) : ∀ s : GameStore.GameState,
  game_inv s → Forall (fun call => from_ui (snd call)) calls →
  ∃ s', play calls s = Some s' ∧ game_inv s' ∧
        GameStore.puzzle s' = GameStore.puzzle s ∧
        GameStore.solution s' = GameStore.solution s.
Proof.
  induction calls as [|[clock a] calls IH]; intros s Hinv Hui; cbn [play].
  - by exists s.
  - apply Forall_cons in Hui as [Ha Hui]. cbn [snd] in Ha.
    destruct (act_inv clock a s Hinv Ha) as (s1 & -> & Hinv1 & Hp1 & Hs1).
    destruct (IH s1 Hinv1 Hui) as (s' & Hplay & Hinv' & Hp' & Hs').
    exists s'. split; [done|]. split; [done|]. split; congruence.
Qed.

End GameActions.

Section GameSamples.

Lemma two_missing_wf : wf_grid two_missing.
Proof. apply wf_gridb_true. vm_compute. reflexivity. Qed.

Lemma two_missing_unique : unique_solution two_missing sample_solution.
Proof.
  split; [apply sample_solution_of_two_missing|].
  assert (Hok : partial_ok two_missing).
  { apply (extends_partial_ok two_missing sample_solution).
    - apply two_missing_wf.
    - apply extendsb_true. vm_compute. reflexivity.
    - apply sample_solution_complete.
    - apply sample_solution_no_conflicts. }
  assert (Huniq : hasUniqueSolution two_missing = Some true)
    by (vm_compute; reflexivity).
  apply (hasUniqueSolution_true two_missing Hok) in Huniq as (h0 & _ & Honly).
  intros h Hh. rewrite (Honly h Hh).
  symmetry. apply Honly, sample_solution_of_two_missing.
Qed.

Lemma sample_game_inv : game_inv sample_game.
Proof.
  apply (game_inv_fresh sample_game two_missing sample_solution);
    [apply two_missing_wf | apply two_missing_unique | reflexivity..].
Qed.

Lemma sample_game_selected_inv : game_inv sample_game_selected.
Proof. apply selectCell_inv; [apply sample_game_inv|lia|lia]. Qed.

Lemma boardToGrid_initializeBoard (puzzle : Grid) :
  wf_grid puzzle → boardToGrid (GameStore.initializeBoard puzzle) = puzzle.
Proof.
  intros Hwf. apply grid_ext; [by apply wf_boardToGrid, wf_initializeBoard|done|].
  intros r c Hr Hc. rewrite cell_boardToGrid, bcell_initializeBoard by done. done.
Qed.

Lemma cell_state_eq (x y : CellState) :
  value x = value y → isGiven x = isGiven y → isError x = isError y →
  Hints.candidates x = Hints.candidates y → isHighlighted x = isHighlighted y →
  x = y.
Proof. destruct x, y. cbn. by intros -> -> -> -> ->. Qed.

Lemma correct_board_extends (board : BoardState) (solution : Grid) :
  correct (checkAgainstSolution board solution) = true →
  extends (boardToGrid board) solution.
Proof.
  intros Hcorrect r c Hr Hc Hnz. rewrite cell_boardToGrid in *.
  destruct (Z.eq_dec (value (bcell board r c)) (cell solution r c)) as [?|Hne];
    [done|].
  assert (Hin : In (r, c) (errors (checkAgainstSolution board solution)))
    by (by apply errors_of_checkAgainstSolution).
  unfold checkAgainstSolution in Hcorrect, Hin. cbn [correct errors] in Hcorrect, Hin.
  apply Nat.eqb_eq in Hcorrect.
  destruct (List.filter _ all_positions); [destruct Hin|discriminate Hcorrect].
Qed.

End GameSamples.

Section UndoLemmas.

(** Writing a value into a cell and then writing the old value and the old
    pencil marks back, each followed by [validateBoard], gives the board back
    when its error flags were right. *)
Lemma restore_board (b : BoardState) row col nv :
  wf_board b → row < 9 → col < 9 →
  (∀ r c, r < 9 → c < 9 → isError (bcell b r c) = true ↔ in_conflict b r c) →
  NoDup (Hints.candidates (bcell b row col)) →
  validateBoard
    (GameStore.mapCell
       (validateBoard (GameStore.mapCell b row col (GameStore.withValue nv [])))
       row col
       (GameStore.withValue (value (bcell b row col))
          (GameStore.newSet (Hints.candidates (bcell b row col)))))
  = b.
Proof.
  intros Hwf Hrow Hcol Hflags Hnd.
  rewrite (newSet_id _ Hnd).
  assert (Hwf1 : wf_board (GameStore.mapCell b row col (GameStore.withValue nv [])))
    by (by apply wf_board_mapCell).
  destruct (validateBoard_spec _ Hwf1) as [[Hwf2 Hkeep2] _].
  assert (Hcell2 : ∀ r c, r < 9 → c < 9 →
            ∀ b2 : BoardState,
              (value (bcell b2 r c)
               = value (bcell (GameStore.mapCell b row col
                                 (GameStore.withValue nv [])) r c) ∧
               isGiven (bcell b2 r c)
               = isGiven (bcell (GameStore.mapCell b row col
                                   (GameStore.withValue nv [])) r c) ∧
               Hints.candidates (bcell b2 r c)
               = Hints.candidates (bcell (GameStore.mapCell b row col
                                            (GameStore.withValue nv [])) r c) ∧
               isHighlighted (bcell b2 r c)
               = isHighlighted (bcell (GameStore.mapCell b row col
                                         (GameStore.withValue nv [])) r c)) →
              isGiven (bcell b2 r c) = isGiven (bcell b r c) ∧
              isHighlighted (bcell b2 r c) = isHighlighted (bcell b r c) ∧
              ((r = row ∧ c = col) ∨
               (value (bcell b2 r c) = value (bcell b r c) ∧
                Hints.candidates (bcell b2 r c) = Hints.candidates (bcell b r c)))).
  { intros r c Hr Hc b2. rewrite bcell_mapCell by done.
    case_decide as Heq.
    - destruct Heq as [-> ->].
      cbn [value isGiven Hints.candidates isHighlighted GameStore.withValue].
      intros (_ & -> & _ & ->). split; [done|]. split; [done|]. by left.
    - intros (-> & -> & -> & ->). split; [done|]. split; [done|]. by right. }
  revert Hwf2 Hkeep2.
  generalize (validateBoard (GameStore.mapCell b row col (GameStore.withValue nv []))).
  intros b2 Hwf2 Hkeep2.
  assert (Hwf3 : wf_board
            (GameStore.mapCell b2 row col
               (GameStore.withValue (value (bcell b row col))
                  (Hints.candidates (bcell b row col)))))
    by (by apply wf_board_mapCell).
  destruct (validateBoard_spec _ Hwf3) as [[Hwf4 Hkeep4] Hflag4].
  assert (Hcell3 : ∀ r c, r < 9 → c < 9 →
            value (bcell (GameStore.mapCell b2 row col
                            (GameStore.withValue (value (bcell b row col))
                               (Hints.candidates (bcell b row col)))) r c)
            = value (bcell b r c) ∧
            isGiven (bcell (GameStore.mapCell b2 row col
                              (GameStore.withValue (value (bcell b row col))
                                 (Hints.candidates (bcell b row col)))) r c)
            = isGiven (bcell b r c) ∧
            Hints.candidates
              (bcell (GameStore.mapCell b2 row col
                        (GameStore.withValue (value (bcell b row col))
                           (Hints.candidates (bcell b row col)))) r c)
            = Hints.candidates (bcell b r c) ∧
            isHighlighted
              (bcell (GameStore.mapCell b2 row col
                        (GameStore.withValue (value (bcell b row col))
                           (Hints.candidates (bcell b row col)))) r c)
            = isHighlighted (bcell b r c)).
  { intros r c Hr Hc. rewrite bcell_mapCell by done.
    destruct (Hcell2 r c Hr Hc b2 (Hkeep2 r c Hr Hc)) as (Hg & Hh & Hrest).
    case_decide as Heq.
    - destruct Heq as [-> ->].
      cbn [value isGiven Hints.candidates isHighlighted GameStore.withValue].
      done.
    - destruct Hrest as [?|[Hv Hcs]]; [tauto|]. done. }
  revert Hwf4 Hkeep4 Hflag4.
  generalize (validateBoard
                (GameStore.mapCell b2 row col
                   (GameStore.withValue (value (bcell b row col))
                      (Hints.candidates (bcell b row col))))).
  intros b4 Hwf4 Hkeep4 Hflag4.
  apply board_ext; [exact Hwf4|exact Hwf|]. intros r c Hr Hc.
  destruct (Hkeep4 r c Hr Hc) as (Hv & Hg & Hcs & Hh).
  destruct (Hcell3 r c Hr Hc) as (Hv3 & Hg3 & Hcs3 & Hh3).
  apply cell_state_eq; [congruence|congruence| |congruence|congruence].
  apply eq_true_iff_eq. rewrite (Hflag4 r c Hr Hc), (Hflags r c Hr Hc).
  apply in_conflict_values; [|exact Hr|exact Hc].
  intros r' c' Hr' Hc'. apply (Hcell3 r' c' Hr' Hc').
Qed.

End UndoLemmas.

(** ** Properties of the game store *)

(** X20: [newGame] always returns a game in progress, whatever the random
    source draws: the puzzle and the solution of [generatePuzzle], a 9x9 board
    whose values are the puzzle and whose givens are its clues, no error flag,
    no pencil mark, an empty history, timer 0, and the game can be resumed
    ([hasSavedGame]).  [startDailyChallenge] without a date does the same with
    the puzzle of the clock's day. *)
Theorem newGame_starts_a_game {host : Host} (clock : Z) (difficulty : Difficulty)
    (s : GameStore.GameState) (w : World host) :
  draws_in_range w →
  (∃ puzzle solution w',
      generatePuzzle difficulty w = Some ((puzzle, solution), w') ∧
      GameStore.newGame clock difficulty s w
        = Some (fresh_game puzzle solution difficulty None clock, w') ∧
      game_inv (fresh_game puzzle solution difficulty None clock) ∧
      boardToGrid (GameStore.initializeBoard puzzle) = puzzle ∧
      GameStore.hasSavedGame (fresh_game puzzle solution difficulty None clock)
        = true) ∧
  (∃ daily,
      generateDailyPuzzle None w = Some (daily, with_randomFn MathRandomFn w) ∧
      GameStore.startDailyChallenge clock None s w
        = Some (fresh_game (puzzle daily) (solution daily) (Generator.difficulty daily)
                           (Some (date daily)) clock,
                with_randomFn MathRandomFn w) ∧
      game_inv (fresh_game (puzzle daily) (solution daily)
                           (Generator.difficulty daily) (Some (date daily)) clock)).
Proof.
  intros Hw. split.
  - destruct (generatePuzzle_spec difficulty w Hw)
      as (puzzle & solution & w' & Heq & _ & removed & Hcarved & _).
    destruct Hcarved as (Hwfp & _ & _ & _ & _ & Huniq & _).
    exists puzzle, solution, w'. split; [exact Heq|].
    split; [unfold GameStore.newGame, bind, ret; by rewrite Heq|].
    split; [by apply (game_inv_fresh _ puzzle solution)|].
    split; [by apply boardToGrid_initializeBoard|reflexivity].
  - destruct (generateDailyPuzzle_None_spec w)
      as (puzzle & solution & (removed & Hcarved & _) & Hdaily).
    destruct Hcarved as (Hwfp & _ & _ & _ & _ & Huniq & _).
    eexists. split; [apply (Hdaily w eq_refl)|].
    split; [unfold GameStore.startDailyChallenge, bind, ret;
            by rewrite (Hdaily w eq_refl)|].
    by apply (game_inv_fresh _ puzzle solution).
Qed.

Lemma newGame_starts_a_game_witness :
  (∃ puzzle solution w',
      generatePuzzle medium sample_world = Some ((puzzle, solution), w') ∧
      GameStore.newGame 7 medium GameStore.initialState sample_world
        = Some (fresh_game puzzle solution medium None 7, w') ∧
      game_inv (fresh_game puzzle solution medium None 7) ∧
      boardToGrid (GameStore.initializeBoard puzzle) = puzzle ∧
      GameStore.hasSavedGame (fresh_game puzzle solution medium None 7) = true) ∧
  (∃ daily,
      generateDailyPuzzle None sample_world
        = Some (daily, with_randomFn MathRandomFn sample_world) ∧
      GameStore.startDailyChallenge 7 None GameStore.initialState sample_world
        = Some (fresh_game (puzzle daily) (solution daily) (Generator.difficulty daily)
                           (Some (date daily)) 7,
                with_randomFn MathRandomFn sample_world) ∧
      game_inv (fresh_game (puzzle daily) (solution daily)
                           (Generator.difficulty daily) (Some (date daily)) 7)).
Proof.
  apply (newGame_starts_a_game 7 medium GameStore.initialState sample_world).
  apply draws_in_range_sample_world.
Defined.

(** X21: [deserializeBoard] undoes [serializeBoard]: a board whose pencil
    marks are sets comes back as it was, cell by cell, with its marks in the
    same order. *)
Theorem deserializeBoard_serializeBoard (board : BoardState) :
  candidates_are_sets board →
  GameStore.deserializeBoard (GameStore.serializeBoard board) = board.
Proof.
  unfold candidates_are_sets, GameStore.deserializeBoard, GameStore.serializeBoard.
  induction 1 as [|row board Hrow _ IH]; cbn [map]; [done|].
  rewrite IH. f_equal.
  induction Hrow as [|cs row Hcs _ IHrow]; cbn [map]; [done|].
  rewrite IHrow. f_equal.
  cbn [GameStore.s_value GameStore.s_isGiven GameStore.s_isError
       GameStore.s_candidates GameStore.s_isHighlighted].
  rewrite newSet_id by done. by destruct cs.
Qed.

Lemma deserializeBoard_serializeBoard_witness :
  GameStore.deserializeBoard (GameStore.serializeBoard marked_board) = marked_board.
Proof.
  apply (deserializeBoard_serializeBoard marked_board).
  unfold candidates_are_sets.
  apply (bool_decide_eq_true_1
           (Forall (Forall (fun c => NoDup (Hints.candidates c))) marked_board)).
  vm_compute. reflexivity.
Defined.

(** X22: in a game in progress no sequence of calls from the screens raises,
    and none changes the puzzle, the solution or a given: after the calls the
    board is 9x9, its givens are exactly the clues of the puzzle and each
    still shows the clue. *)
Theorem play_keeps_the_givens (s : GameStore.GameState)
    (calls : list (Z * Action)) :
  game_inv s → Forall (fun call => from_ui (snd call)) calls →
  ∃ s' puzzle board',
    play calls s = Some s' ∧
    GameStore.puzzle s = Some puzzle ∧ GameStore.puzzle s' = Some puzzle ∧
    GameStore.solution s' = GameStore.solution s ∧
    GameStore.board s' = Some board' ∧ wf_board board' ∧
    ∀ r c, r < 9 → c < 9 →
      isGiven (bcell board' r c) = negb (cell puzzle r c =? 0)%Z ∧
      (cell puzzle r c ≠ 0%Z → value (bcell board' r c) = cell puzzle r c).
Proof.
  intros Hinv Hui.
  destruct (play_inv calls s Hinv Hui) as (s' & Hplay & Hinv' & Hp' & Hs').
  destruct Hinv' as (p & b & sol & Hp & Hb & Hs & _ & _ & Hwfb & Hcells & _).
  exists s', p, b. split; [exact Hplay|]. split; [congruence|].
  split; [exact Hp|]. split; [exact Hs'|]. split; [exact Hb|]. split; [exact Hwfb|].
  intros r c Hr Hc. destruct (Hcells r c Hr Hc) as (H1 & H2 & _). by split.
Qed.

Lemma play_keeps_the_givens_witness :
  ∃ s' puzzle board',
    play [(1, SelectCell 0 1); (2, EnterNumber 5); (3, SelectCell 0 0);
          (4, EnterNumber 5); (5, Undo); (6, RequestHint)]%Z sample_game
      = Some s' ∧
    GameStore.puzzle sample_game = Some puzzle ∧ GameStore.puzzle s' = Some puzzle ∧
    GameStore.solution s' = GameStore.solution sample_game ∧
    GameStore.board s' = Some board' ∧ wf_board board' ∧
    ∀ r c, r < 9 → c < 9 →
      isGiven (bcell board' r c) = negb (cell puzzle r c =? 0)%Z ∧
      (cell puzzle r c ≠ 0%Z → value (bcell board' r c) = cell puzzle r c).
Proof.
  apply (play_keeps_the_givens sample_game).
  - apply sample_game_inv.
  - repeat (apply Forall_cons; split; [cbn; lia|]). apply Forall_nil_2.
Defined.

(** X23: in a game in progress, after any sequence of calls from the screens
    the error flags of the board mark exactly the conflicts: a cell is flagged
    when it is filled and another cell of its row, column or box holds the
    same value, and only then; the values are 0..9 and the pencil marks of a
    cell hold no number twice. *)
Theorem play_flags_exactly_the_conflicts (s : GameStore.GameState)
    (calls : list (Z * Action)) :
  game_inv s → Forall (fun call => from_ui (snd call)) calls →
  ∃ s' board',
    play calls s = Some s' ∧ GameStore.board s' = Some board' ∧
    ∀ r c, r < 9 → c < 9 →
      (isError (bcell board' r c) = true ↔ in_conflict board' r c) ∧
      (0 ≤ value (bcell board' r c) ≤ 9)%Z ∧
      NoDup (Hints.candidates (bcell board' r c)).
Proof.
  intros Hinv Hui.
  destruct (play_inv calls s Hinv Hui) as (s' & Hplay & Hinv' & _).
  destruct Hinv' as (p & b & sol & _ & Hb & _ & _ & _ & _ & Hcells & _).
  exists s', b. split; [exact Hplay|]. split; [exact Hb|].
  intros r c Hr Hc. destruct (Hcells r c Hr Hc) as (_ & _ & H3 & H4 & H5). done.
Qed.

Lemma play_flags_exactly_the_conflicts_witness :
  ∃ s' board',
    play [(1, SelectCell 0 0); (2, EnterNumber 2); (3, TogglePencilMode);
          (4, EnterNumber 7); (5, ClearCell)]%Z sample_game = Some s' ∧
    GameStore.board s' = Some board' ∧
    ∀ r c, r < 9 → c < 9 →
      (isError (bcell board' r c) = true ↔ in_conflict board' r c) ∧
      (0 ≤ value (bcell board' r c) ≤ 9)%Z ∧
      NoDup (Hints.candidates (bcell board' r c)).
Proof.
  apply (play_flags_exactly_the_conflicts sample_game).
  - apply sample_game_inv.
  - repeat (apply Forall_cons; split; [cbn; lia|]). apply Forall_nil_2.
Defined.

(** X24: a game is only ever marked complete when the board shows the
    solution: after any sequence of calls from the screens, if [isComplete]
    is set then the values of the board are the solution, no cell is flagged
    as an error, [tick] leaves the timer alone and [hasSavedGame] is false. *)
Theorem complete_game_shows_the_solution (s : GameStore.GameState)
    (calls : list (Z * Action)) :
  game_inv s → Forall (fun call => from_ui (snd call)) calls →
  ∃ s' board' solution,
    play calls s = Some s' ∧ GameStore.board s' = Some board' ∧
    GameStore.solution s' = Some solution ∧
    (GameStore.isComplete s' = true →
     boardToGrid board' = solution ∧
     (∀ r c, r < 9 → c < 9 → isError (bcell board' r c) = false) ∧
     GameStore.tick s' = s' ∧ GameStore.hasSavedGame s' = false).
Proof.
  intros Hinv Hui.
  destruct (play_inv calls s Hinv Hui) as (s' & Hplay & Hinv' & _).
  destruct Hinv' as (p & b & sol & _ & Hb & Hs & _ & Huniq & _ & Hcells & _ & _ & Hdone).
  exists s', b, sol. split; [exact Hplay|]. split; [exact Hb|]. split; [exact Hs|].
  intros Hcomplete. specialize (Hdone Hcomplete). split; [exact Hdone|].
  split; [|split].
  - intros r c Hr Hc. apply not_true_is_false.
    destruct (Hcells r c Hr Hc) as (_ & _ & _ & H4 & _). rewrite H4.
    intros (Hnz & r' & c' & Hr' & Hc' & Hrel & Heq).
    destruct Huniq as [(_ & _ & Hnc & _) _].
    apply (Hnc r c r' c' Hr Hc Hr' Hc' Hrel); rewrite <- Hdone, !cell_boardToGrid;
      done.
  - unfold GameStore.tick. rewrite Hcomplete. by rewrite andb_false_r.
  - unfold GameStore.hasSavedGame. by rewrite Hb, Hcomplete.
Qed.

Lemma complete_game_shows_the_solution_witness :
  ∃ s' board' solution,
    play [(1, SelectCell 0 0); (2, EnterNumber 1); (3, SelectCell 4 4);
          (4, EnterNumber 9)]%Z sample_game = Some s' ∧
    GameStore.board s' = Some board' ∧
    GameStore.solution s' = Some solution ∧
    (GameStore.isComplete s' = true →
     boardToGrid board' = solution ∧
     (∀ r c, r < 9 → c < 9 → isError (bcell board' r c) = false) ∧
     GameStore.tick s' = s' ∧ GameStore.hasSavedGame s' = false).
Proof.
  apply (complete_game_shows_the_solution sample_game).
  - apply sample_game_inv.
  - repeat (apply Forall_cons; split; [cbn; lia|]). apply Forall_nil_2.
Defined.

(** X25: [undo] takes back what [enterNumber] did.  In a game in progress,
    with a cell selected that is not a given and pencil mode off, entering a
    number and then calling [undo] gives the board back exactly as it was
    (values, pencil marks, error flags, highlights) and the history as it was;
    only [isComplete] (false) and [lastSaved] are set. *)
Theorem undo_reverts_enterNumber (clock clock' num : Z) (s : GameStore.GameState)
    (board : BoardState) (row col : nat) :
  game_inv s → GameStore.board s = Some board →
  GameStore.selectedCell s = Some (row, col) →
  GameStore.isPencilMode s = false →
  isGiven (bcell board row col) = false →
  ∃ s1,
    GameStore.enterNumber clock num s = Some s1 ∧
    length (GameStore.moveHistory s1) = S (length (GameStore.moveHistory s)) ∧
    GameStore.undo clock' s1
    = GameStore.setBoard s board (GameStore.moveHistory s) false clock'.
Proof.
  intros Hinv Hb Hselected Hpencil Hg.
  pose proof Hinv as (p & b0 & sol & Hp & Hb0 & Hs & _ & _ & _ & Hcells & _).
  rewrite Hb in Hb0. injection Hb0 as <-.
  destruct (selected_cell s p board row col Hinv Hp Hb Hselected)
    as (Hrow & Hcol & Hwfb & brow & Hr & Hc & _ & _ & Hnd).
  unfold GameStore.enterNumber. rewrite Hb, Hselected, Hs, Hr, Hc, Hg, Hpencil.
  eexists. split; [reflexivity|].
  cbn [GameStore.moveHistory GameStore.setBoard].
  split; [rewrite length_app; cbn; lia|].
  unfold GameStore.undo. cbn [GameStore.moveHistory GameStore.setBoard GameStore.board].
  rewrite last_snoc, removelast_last.
  cbn [GameStore.row GameStore.col GameStore.previousValue
       GameStore.previousCandidates].
  rewrite restore_board; [reflexivity|done..| |done].
  intros r c Hr' Hc'. by destruct (Hcells r c Hr' Hc') as (_ & _ & _ & H4 & _).
Qed.

Lemma undo_reverts_enterNumber_witness :
  ∃ s1,
    GameStore.enterNumber 1 5 sample_game_selected = Some s1 ∧
    length (GameStore.moveHistory s1)
    = S (length (GameStore.moveHistory sample_game_selected)) ∧
    GameStore.undo 2 s1
    = GameStore.setBoard sample_game_selected
        (GameStore.initializeBoard two_missing)
        (GameStore.moveHistory sample_game_selected) false 2.
Proof.
  apply (undo_reverts_enterNumber 1 2 5 sample_game_selected
           (GameStore.initializeBoard two_missing) 4 4).
  - apply sample_game_selected_inv.
  - reflexivity.
  - reflexivity.
  - reflexivity.
  - vm_compute. reflexivity.
Defined.

(** X26: entering a digit in a cell that is not a given (pencil mode off, the
    digit not already in the cell) writes the digit into that cell and into no
    other, and marks the game complete exactly when the board then shows the
    solution. *)
Theorem enterNumber_completes_on_the_solution (clock num : Z)
    (s : GameStore.GameState) (board : BoardState) (solution : Grid)
    (row col : nat) :
  game_inv s → GameStore.board s = Some board →
  GameStore.solution s = Some solution →
  GameStore.selectedCell s = Some (row, col) →
  GameStore.isPencilMode s = false →
  isGiven (bcell board row col) = false →
  (1 ≤ num ≤ 9)%Z → value (bcell board row col) ≠ num →
  ∃ s' board',
    GameStore.enterNumber clock num s = Some s' ∧
    GameStore.board s' = Some board' ∧
    (∀ r c, r < 9 → c < 9 →
        value (bcell board' r c)
        = if decide (r = row ∧ c = col) then num else value (bcell board r c)) ∧
    (GameStore.isComplete s' = true ↔ boardToGrid board' = solution).
Proof.
  intros Hinv Hb Hs Hselected Hpencil Hg Hnum Hne.
  destruct (enterNumber_inv clock num s Hinv Hnum) as (s' & Heq & Hinv' & _ & Hs').
  pose proof Hinv as (p & b0 & sol & Hp & Hb0 & Hs0 & _ & Huniq & _).
  rewrite Hb in Hb0. injection Hb0 as <-. rewrite Hs in Hs0. injection Hs0 as <-.
  destruct (selected_cell s p board row col Hinv Hp Hb Hselected)
    as (Hrow & Hcol & Hwfb & brow & Hr & Hc & _).
  revert Heq. unfold GameStore.enterNumber.
  rewrite Hb, Hselected, Hs, Hr, Hc, Hg, Hpencil.
  apply Z.eqb_neq in Hne. rewrite Hne.
  set (b1 := GameStore.mapCell board row col (GameStore.withValue num [])).
  intros Heq. exists s', (validateBoard b1).
  split; [exact Heq|]. injection Heq as <-.
  split; [reflexivity|].
  assert (Hwf1 : wf_board b1) by (by apply wf_board_mapCell).
  destruct (validateBoard_spec b1 Hwf1) as [[Hwf2 Hkeep] _].
  assert (Hvals : ∀ r c, r < 9 → c < 9 →
            value (bcell (validateBoard b1) r c)
            = if decide (r = row ∧ c = col) then num else value (bcell board r c)).
  { intros r c Hr' Hc'. rewrite (proj1 (Hkeep r c Hr' Hc')).
    unfold b1. rewrite bcell_mapCell by done. by case_decide. }
  split; [exact Hvals|]. split.
  - destruct Hinv' as (p' & b' & sol' & _ & Hb' & Hsol' & _ & _ & _ & _ & _ & _ & Hdone).
    cbn [GameStore.board GameStore.setBoard] in Hb'. injection Hb' as <-.
    rewrite Hs' , Hs in Hsol'. injection Hsol' as <-. exact Hdone.
  - intros Hgrid. cbn [GameStore.isComplete GameStore.setBoard].
    apply andb_true_iff. split; [apply negb_true_iff, Z.eqb_neq; lia|].
    apply isBoardComplete_validated; [done|].
    assert (Hsame : boardToGrid b1 = solution).
    { rewrite <- Hgrid. symmetry. apply boardToGrid_values; [done..|].
      intros r c Hr' Hc'. by apply Hkeep. }
    destruct Huniq as [(_ & Hcomp & Hnc & _) _].
    split; [|by rewrite Hsame].
    intros r c Hr' Hc'. rewrite <- cell_boardToGrid, Hsame.
    specialize (Hcomp r c Hr' Hc'). lia.
Qed.

Lemma enterNumber_completes_on_the_solution_witness :
  ∃ s' board',
    GameStore.enterNumber 1 9 sample_game_selected = Some s' ∧
    GameStore.board s' = Some board' ∧
    (∀ r c, r < 9 → c < 9 →
        value (bcell board' r c)
        = if decide (r = 4 ∧ c = 4) then 9%Z
          else value (bcell (GameStore.initializeBoard two_missing) r c)) ∧
    (GameStore.isComplete s' = true ↔ boardToGrid board' = sample_solution).
Proof.
  apply (enterNumber_completes_on_the_solution 1 9 sample_game_selected
           (GameStore.initializeBoard two_missing) sample_solution 4 4).
  - apply sample_game_selected_inv.
  - reflexivity.
  - reflexivity.
  - reflexivity.
  - reflexivity.
  - vm_compute. reflexivity.
  - lia.
  - vm_compute. discriminate.
Defined.

(** X27: on a 9x9 board that [checkAgainstSolution] finds correct, a hint of
    the technique naked single or hidden single from [getHint] points at an
    empty cell and names the value the solution has there. *)
Theorem getHint_on_correct_board (board : BoardState) (solution : Grid)
    (hint : Hint) :
  wf_board board → wf_grid solution → complete solution →
  no_conflicts solution →
  correct (checkAgainstSolution board solution) = true →
  getHint board = Some hint →
  technique hint = naked_single ∨ technique hint = hidden_single →
  fst (targetCell hint) < 9 ∧ snd (targetCell hint) < 9 ∧
  value (bcell board (fst (targetCell hint)) (snd (targetCell hint))) = 0%Z ∧
  cell solution (fst (targetCell hint)) (snd (targetCell hint)) = targetValue hint.
Proof.
  intros Hwfb Hwfs Hcomp Hnc Hcorrect Hhint Hkind.
  unfold getHint in Hhint. cbv zeta in Hhint.
  pose proof (findNextHint_Some _ _ _ Hhint) as (_ & _ & Hr & Hc & Hz & _).
  rewrite cell_boardToGrid in Hz.
  split; [exact Hr|]. split; [exact Hc|]. split; [exact Hz|].
  apply (findNextHint_sound (boardToGrid board) solution) with defaultTechniques.
  - split; [exact Hwfs|]. split; [exact Hcomp|]. split; [exact Hnc|].
    by apply correct_board_extends.
  - exact Hhint.
  - destruct Hkind as [-> | ->]; discriminate.
Qed.

Lemma getHint_on_correct_board_witness :
  fst (targetCell corner_hint) < 9 ∧ snd (targetCell corner_hint) < 9 ∧
  value (bcell (board_of_grid one_missing)
               (fst (targetCell corner_hint)) (snd (targetCell corner_hint)))
  = 0%Z ∧
  cell sample_solution (fst (targetCell corner_hint)) (snd (targetCell corner_hint))
  = targetValue corner_hint.
Proof.
  apply (getHint_on_correct_board (board_of_grid one_missing) sample_solution
           corner_hint).
  - apply wf_boardb_true. vm_compute. reflexivity.
  - apply sample_solution_wf.
  - apply sample_solution_complete.
  - apply sample_solution_no_conflicts.
  - vm_compute. reflexivity.
  - vm_compute. reflexivity.
  - left. reflexivity.
Defined.
